(** * prompt_toolkit progress bar: a shallow embedding and its properties

    The development follows two source files:

    - [prompt_toolkit/shortcuts/progress_bar/base.py]: the [ProgressBar]
      context manager, its registry of [ProgressBarCounter] objects, the
      generator returned by [ProgressBarCounter.__iter__], the metric
      properties of a counter and [_ProgressControl.create_content];
    - [prompt_toolkit/output/defaults.py]: [create_output].

    Conventions of the embedding.

    - Python [int] is [Z].  A Python [float] is an IEEE 754 binary64
      number, [spec_float] of the standard library, rounded to nearest; a
      [datetime.timedelta] is its whole number of microseconds, within the
      range of the type; a [datetime] is a rational number of seconds.
      [percentage] is the quotient of the getter as an exact rational, for
      the statements about its value; [percentage_float] is the getter
      with the float it returns, and [time_left] is built on it.
    - A Python exception is a value of [exn]; code that may raise returns
      [res A].  Stateful code is a function [World -> res A * World]: what
      was written before an exception was raised stays written.
    - Objects that are shared and mutated (the counters) live in a store
      indexed by an address; the registry [ProgressBar.counters] holds
      addresses, and [list.remove] compares by identity, as Python does for
      a class without [__eq__]. *)

From Stdlib Require Import ZArith QArith Qround List String Lia Lqa Sorted.
From Stdlib Require Import SpecFloat.
From stdpp Require Import base decidable list relations.

Local Open Scope Z_scope.

(** ** Exceptions and results *)

Inductive exn : Type :=
| TypeError
| ValueError
| AttributeError
| ZeroDivisionError
| OverflowError
| IndexError
| GeneratorExit
| ApplicationError          (* the bare [Exception] of [Application.exit] *)
| OtherError (tag : nat).   (* any exception of the caller's own code *)

#[global] Instance exn_eq_dec : EqDecision exn.
Proof. solve_decision. Defined.

Inductive res (A : Type) : Type :=
| Ok (a : A)
| Raise (e : exn).
Arguments Ok {A} a.
Arguments Raise {A} e.

Definition res_bind {A B} (r : res A) (k : A -> res B) : res B :=
  match r with
  | Ok a => k a
  | Raise e => Raise e
  end.

Declare Scope res_scope.
Delimit Scope res_scope with res.
Notation "x <- r ;; k" := (res_bind r (fun x => k))
  (at level 100, r at next level, right associativity) : res_scope.

Definition raises {A} (r : res A) : Prop :=
  match r with
  | Ok _ => False
  | Raise _ => True
  end.

(** ** Exact arithmetic used by [percentage] *)

(** [a / b] on numbers: [ZeroDivisionError] when the divisor is zero. *)
Definition py_truediv (a b : Q) : res Q :=
  if Qeq_bool b 0 then Raise ZeroDivisionError else Ok (a / b)%Q.

(** ** Python numbers: float and timedelta

    A [float] is an IEEE 754 binary64 number: [spec_float] of the standard
    library at 53 bits of precision, with [binary_round_aux] rounding to the
    nearest float, ties to even.  The operations below are those of the
    interpreter on the built-in types: an [int] by [int] true division, the
    subtraction of a float from an [int], and the product and quotient of a
    [datetime.timedelta] by a number. *)

Definition mant_dig : Z := 53.      (* sys.float_info.mant_dig *)
Definition max_exp : Z := 1024.     (* sys.float_info.max_exp *)

(** What a getter can hand back as a number: [percentage] returns the
    [int] 0 or a float. *)
Inductive number : Type :=
| PyInt (n : Z)
| PyFloat (f : spec_float).

(** The float nearest to a number given by mantissa, exponent and the
    position of what was cut off; [OverflowError] where the interpreter
    refuses to produce an infinity. *)
Definition float_round (s : bool) (m e : Z) (l : location) : res spec_float :=
  match binary_round_aux mant_dig max_exp s m e l with
  | S754_infinity _ => Raise OverflowError
  | f => Ok f
  end.

(** [a / b] on two ints: the quotient rounded once, to the nearest float;
    a quotient too small for a float is a zero, one too large is an
    [OverflowError]. *)
Definition int_truediv (a b : Z) : res spec_float :=
  if b =? 0 then Raise ZeroDivisionError
  else
    let s := xorb (a <? 0) (b <? 0) in
    if a =? 0 then Ok (S754_zero s)
    else
      let '(q, e, l) :=
        SFdiv_core_binary mant_dig max_exp (Z.abs a) 0 (Z.abs b) 0 in
      float_round s q e l.

(** [float(n)], the conversion an [int] undergoes next to a float. *)
Definition float_of_int (n : Z) : res spec_float :=
  match binary_normalize mant_dig max_exp n 0 false with
  | S754_infinity _ => Raise OverflowError
  | f => Ok f
  end.

(** Truth value of a number: [not x] holds exactly for a zero. *)
Definition py_not (x : number) : bool :=
  match x with
  | PyInt n => n =? 0
  | PyFloat (S754_zero _) => true
  | PyFloat _ => false
  end.

(** [n - x] for an [int] [n]. *)
Definition int_sub (n : Z) (x : number) : res number :=
  match x with
  | PyInt m => Ok (PyInt (n - m))
  | PyFloat f =>
      (h <- float_of_int n ;; Ok (PyFloat (SFsub mant_dig max_exp h f)))%res
  end.

(** [float.as_integer_ratio]: the float as a fraction in lowest terms with
    a positive denominator. *)
Definition as_integer_ratio (f : spec_float) : res (Z * Z) :=
  match f with
  | S754_nan => Raise ValueError
  | S754_infinity _ => Raise OverflowError
  | S754_zero _ => Ok (0, 1)
  | S754_finite s m e =>
      let n := cond_Zopp s (Zpos m) in
      if 0 <=? e then Ok (n * 2 ^ e, 1)
      else
        let d := 2 ^ (- e) in
        let g := Z.gcd n d in
        Ok (n / g, d / g)
  end.

(** [divide_nearest] of the datetime module: [a / b] rounded to the
    nearest integer, a tie to the even one. *)
Definition divide_nearest (a b : Z) : res Z :=
  if b =? 0 then Raise ZeroDivisionError
  else
    let q := a / b in
    let r := a mod b in
    let greater_than_half := if 0 <? b then b <? 2 * r else 2 * r <? b in
    if greater_than_half || ((2 * r =? b) && Z.odd q) then Ok (q + 1)
    else Ok q.

(** A [datetime.timedelta], as its whole number of microseconds. *)
Definition timedelta : Type := Z.

Definition US_PER_DAY : Z := 86400000000.
Definition MAX_DELTA_DAYS : Z := 999999999.

(** The constructor of a [timedelta] from microseconds: the days must have
    a magnitude of at most [MAX_DELTA_DAYS]. *)
Definition microseconds_to_delta (us : Z) : res timedelta :=
  let days := us / US_PER_DAY in
  if (- MAX_DELTA_DAYS <=? days) && (days <=? MAX_DELTA_DAYS) then Ok us
  else Raise OverflowError.

(** [d * x] for a timedelta [d]. *)
Definition timedelta_mul (d : timedelta) (x : number) : res timedelta :=
  match x with
  | PyInt n => microseconds_to_delta (d * n)
  | PyFloat f =>
      (r <- as_integer_ratio f ;;
       us <- divide_nearest (d * fst r) (snd r) ;;
       microseconds_to_delta us)%res
  end.

(** [d / x] for a timedelta [d]. *)
Definition timedelta_truediv (d : timedelta) (x : number) : res timedelta :=
  match x with
  | PyInt n =>
      (us <- divide_nearest d n ;; microseconds_to_delta us)%res
  | PyFloat f =>
      (r <- as_integer_ratio f ;;
       us <- divide_nearest (d * snd r) (fst r) ;;
       microseconds_to_delta us)%res
  end.

(** ** Data sources

    The object handed to [ProgressBar.__call__] as [data].  [it_len] is what
    [len(data)] does ([Raise TypeError] for an object without [__len__]);
    [it_next i] is what the [i]-th call of [next] on [iter(data)] does. *)

Definition Item : Type := Z.

Inductive IterStep : Type :=
| IYield (x : Item)
| IStop                     (* StopIteration: the source is exhausted *)
| IRaise (e : exn).

Record Iterable : Type := mkIterable {
  it_len : res Z;
  it_next : nat -> IterStep
}.

(** A Python list: [len] is its length, iteration yields its items. *)
Definition list_iterable (l : list Item) : Iterable :=
  {| it_len := Ok (Z.of_nat (length l));
     it_next := fun i => match nth_error l i with
                         | Some x => IYield x
                         | None => IStop
                         end |}.

(** [len(cast(Sized, data))]: [len(None)] raises [TypeError]. *)
Definition py_len (data : option Iterable) : res Z :=
  match data with
  | None => Raise TypeError
  | Some d => it_len d
  end.

(** ** ProgressBarCounter *)

Record ProgressBarCounter : Type := mkCounter {
  start_time : Q;
  data : option Iterable;
  current : Z;
  label : string;
  remove_when_done : bool;
  done : bool;
  total : option Z
}.

Definition set_current (v : Z) (c : ProgressBarCounter) : ProgressBarCounter :=
  {| start_time := start_time c; data := data c; current := v;
     label := label c; remove_when_done := remove_when_done c;
     done := done c; total := total c |}.

Definition set_done (v : bool) (c : ProgressBarCounter) : ProgressBarCounter :=
  {| start_time := start_time c; data := data c; current := current c;
     label := label c; remove_when_done := remove_when_done c;
     done := v; total := total c |}.

(** [self.current += 1], the step of [__iter__] the specification calls
    [advance]. *)
Definition advance (c : ProgressBarCounter) : ProgressBarCounter :=
  set_current (current c + 1) c.

(** [ProgressBarCounter.__init__]; [now] is [datetime.datetime.now()].
    Only [TypeError] is caught around [len]. *)
Definition counter_init (now : Q) (data : option Iterable) (label : string)
    (remove_when_done : bool) (total : option Z) : res ProgressBarCounter :=
  let mk t := mkCounter now data 0 label remove_when_done false t in
  match total with
  | None =>
      match py_len data with
      | Ok n => Ok (mk (Some n))
      | Raise TypeError => Ok (mk None)
      | Raise e => Raise e
      end
  | Some t => Ok (mk (Some t))
  end.

(** The [percentage] property, its quotient taken as an exact rational
    number: the value that [percentage_float], below, rounds to a float. *)
Definition percentage (c : ProgressBarCounter) : res Q :=
  match total c with
  | None => Ok 0%Q
  | Some t => py_truediv (inject_Z (current c * 100)) (inject_Z (Z.max t 1))
  end.

(** The [percentage] property as the interpreter computes it: the [int] 0
    without a total, else the float nearest to the quotient. *)
Definition percentage_float (c : ProgressBarCounter) : res number :=
  match total c with
  | None => Ok (PyInt 0)
  | Some t =>
      (f <- int_truediv (current c * 100) (Z.max t 1) ;; Ok (PyFloat f))%res
  end.

(** The [time_elapsed] property; [now] is [datetime.datetime.now()].  A
    datetime is a number of seconds that is a whole number of microseconds,
    and the difference of two datetimes is their distance in microseconds. *)
Definition time_elapsed (now : Q) (c : ProgressBarCounter) : timedelta :=
  Qfloor ((now - start_time c) * 1000000).

(** The [time_left] property: [None] is Python's [None].  The property
    [percentage] is read three times, as in the source. *)
Definition time_left (now : Q) (c : ProgressBarCounter)
    : res (option timedelta) :=
  match total c with
  | None => Ok None
  | Some _ =>
      (p <- percentage_float c ;;
       if py_not p then Ok None
       else
         p1 <- percentage_float c ;;
         h <- int_sub 100 p1 ;;
         d <- timedelta_mul (time_elapsed now c) h ;;
         p2 <- percentage_float c ;;
         r <- timedelta_truediv d p2 ;;
         Ok (Some r))%res
  end.

(** ** The world: object store, the bar, the runtime around it *)

(** Handlers of the resize signal, as [signal.getsignal(SIGWINCH)] reports
    them.  [LoopSigHandler] is the handler the event loop installs for
    itself in [add_signal_handler]. *)
Inductive Handler : Type :=
| SIG_DFL
| SIG_IGN
| PyHandler (f : nat)
| LoopSigHandler.

#[global] Instance Handler_eq_dec : EqDecision Handler.
Proof. solve_decision. Defined.

Inductive Callback : Type :=
| AppInvalidate       (* self.app.invalidate *)
| BarInvalidate.      (* self.invalidate *)

(** Effects on the surroundings, in the order they happen (newest last).
    [EvCleanup] and [EvFormat] are ghost events: they record that the
    [finally] block of [__iter__] was entered, and that the formatter was
    called, so that such steps can be counted. *)
Inductive Event : Type :=
| EvScheduled (cb : Callback)     (* _app_loop.call_soon_threadsafe(cb) *)
| EvAppExit                       (* self.app.exit() *)
| EvThreadStart
| EvThreadJoin
| EvAddSignalHandler (cb : Callback)
| EvRemoveSignalHandler
| EvSignal (h : Handler)          (* signal.signal(SIGWINCH, h) *)
| EvCleanup (self : nat)
| EvFormat (pr : nat)
| EvPrintExc (e : exn).           (* traceback.print_exc() *)

#[global] Instance Callback_eq_dec : EqDecision Callback.
Proof. solve_decision. Defined.

#[global] Instance Event_eq_dec : EqDecision Event.
Proof. solve_decision. Defined.

(** The render application, as far as the bar looks at it. *)
Record Application : Type := mkApplication {
  is_running : bool
}.

(** The attributes of [ProgressBar] that the modelled methods use.  [app] is
    [None] while the attribute does not exist: [__init__] does not create
    it, [__enter__] does. *)
Record ProgressBar : Type := mkProgressBar {
  counters : list nat;
  app : option Application;
  _thread : option unit;
  _previous_winch_handler : Handler;
  _has_sigwinch : bool
}.

(** What the process and the host provide. *)
Record Runtime : Type := mkRuntime {
  clock : Q;                          (* datetime.datetime.now() *)
  sigwinch : Handler;                 (* signal.getsignal(SIGWINCH) *)
  loop_sigwinch : option Callback;    (* self._loop's SIGWINCH callback *)
  host_has_sigwinch : bool;           (* hasattr(signal, 'SIGWINCH') *)
  in_main_thread : bool;              (* prompt_toolkit.utils.in_main_thread() *)
  thread_alive : bool                 (* the render thread *)
}.

Record World : Type := mkWorld {
  objs : nat -> ProgressBarCounter;   (* counter objects, by address *)
  next_obj : nat;                     (* the next free address *)
  bar : ProgressBar;
  rt : Runtime;
  trace : list Event
}.

Definition set_objs (f : nat -> ProgressBarCounter) (w : World) : World :=
  {| objs := f; next_obj := next_obj w; bar := bar w; rt := rt w;
     trace := trace w |}.

Definition set_next_obj (n : nat) (w : World) : World :=
  {| objs := objs w; next_obj := n; bar := bar w; rt := rt w;
     trace := trace w |}.

Definition set_bar (b : ProgressBar) (w : World) : World :=
  {| objs := objs w; next_obj := next_obj w; bar := b; rt := rt w;
     trace := trace w |}.

Definition set_rt (r : Runtime) (w : World) : World :=
  {| objs := objs w; next_obj := next_obj w; bar := bar w; rt := r;
     trace := trace w |}.

Definition log (e : Event) (w : World) : World :=
  {| objs := objs w; next_obj := next_obj w; bar := bar w; rt := rt w;
     trace := trace w ++ [e] |}.

Definition set_counters (l : list nat) (w : World) : World :=
  set_bar {| counters := l; app := app (bar w); _thread := _thread (bar w);
             _previous_winch_handler := _previous_winch_handler (bar w);
             _has_sigwinch := _has_sigwinch (bar w) |} w.

Definition set_app (a : option Application) (w : World) : World :=
  set_bar {| counters := counters (bar w); app := a;
             _thread := _thread (bar w);
             _previous_winch_handler := _previous_winch_handler (bar w);
             _has_sigwinch := _has_sigwinch (bar w) |} w.

Definition set_thread (t : option unit) (w : World) : World :=
  set_bar {| counters := counters (bar w); app := app (bar w); _thread := t;
             _previous_winch_handler := _previous_winch_handler (bar w);
             _has_sigwinch := _has_sigwinch (bar w) |} w.

Definition set_previous_winch_handler (h : Handler) (w : World) : World :=
  set_bar {| counters := counters (bar w); app := app (bar w);
             _thread := _thread (bar w); _previous_winch_handler := h;
             _has_sigwinch := _has_sigwinch (bar w) |} w.

Definition set_has_sigwinch (v : bool) (w : World) : World :=
  set_bar {| counters := counters (bar w); app := app (bar w);
             _thread := _thread (bar w);
             _previous_winch_handler := _previous_winch_handler (bar w);
             _has_sigwinch := v |} w.

Definition set_sigwinch (h : Handler) (w : World) : World :=
  set_rt {| clock := clock (rt w); sigwinch := h;
            loop_sigwinch := loop_sigwinch (rt w);
            host_has_sigwinch := host_has_sigwinch (rt w);
            in_main_thread := in_main_thread (rt w);
            thread_alive := thread_alive (rt w) |} w.

Definition set_loop_sigwinch (cb : option Callback) (w : World) : World :=
  set_rt {| clock := clock (rt w); sigwinch := sigwinch (rt w);
            loop_sigwinch := cb;
            host_has_sigwinch := host_has_sigwinch (rt w);
            in_main_thread := in_main_thread (rt w);
            thread_alive := thread_alive (rt w) |} w.

Definition set_thread_alive (v : bool) (w : World) : World :=
  set_rt {| clock := clock (rt w); sigwinch := sigwinch (rt w);
            loop_sigwinch := loop_sigwinch (rt w);
            host_has_sigwinch := host_has_sigwinch (rt w);
            in_main_thread := in_main_thread (rt w);
            thread_alive := v |} w.

(** Attribute update of the object at address [a]. *)
Definition upd_obj (a : nat) (f : ProgressBarCounter -> ProgressBarCounter)
    (w : World) : World :=
  set_objs (fun i => if decide (i = a) then f (objs w i) else objs w i) w.

(** ** A state and exception monad over the world *)

Definition M (A : Type) : Type := World -> res A * World.

Definition ret {A} (a : A) : M A := fun w => (Ok a, w).
Definition throw {A} (e : exn) : M A := fun w => (Raise e, w).
Definition bind {A B} (m : M A) (k : A -> M B) : M B :=
  fun w => match m w with
           | (Ok a, w') => k a w'
           | (Raise e, w') => (Raise e, w')
           end.
Definition modify (f : World -> World) : M unit := fun w => (Ok tt, f w).
Definition gets {A} (f : World -> A) : M A := fun w => (Ok (f w), w).
Definition when (b : bool) (m : M unit) : M unit := if b then m else ret tt.

Declare Scope world_scope.
Delimit Scope world_scope with world.
Notation "x <~ m ;; k" := (bind m (fun x => k))
  (at level 100, m at next level, right associativity) : world_scope.
Notation "m ;;; k" := (bind m (fun _ => k))
  (at level 100, right associativity) : world_scope.

(** ** ProgressBar: construction, counters, invalidate *)

(** The store of a fresh world holds this object at every address. *)
Definition blank_counter : ProgressBarCounter :=
  mkCounter 0%Q None 0 "" false false None.

(** [ProgressBar.__init__] in a process whose runtime is [r].
    [signal.getsignal(signal.SIGWINCH)] is read without a guard: on a host
    whose [signal] module has no [SIGWINCH] the attribute lookup fails. *)
Definition fresh_world (r : Runtime) : World :=
  {| objs := fun _ => blank_counter;
     next_obj := 0%nat;
     bar := {| counters := [];
               app := None;
               _thread := None;
               _previous_winch_handler := sigwinch r;
               _has_sigwinch := false |};
     rt := r;
     trace := [] |}.

Definition bar_init (r : Runtime) : res World :=
  if host_has_sigwinch r then Ok (fresh_world r) else Raise AttributeError.

(** [ProgressBar.invalidate]:
    [self._app_loop.call_soon_threadsafe(self.app.invalidate)].  The
    argument [self.app.invalidate] is evaluated first; the attribute [app]
    exists only after [__enter__]. *)
Definition invalidate : M unit :=
  fun w => match app (bar w) with
           | None => (Raise AttributeError, w)
           | Some _ => (Ok tt, log (EvScheduled AppInvalidate) w)
           end.

(** Allocation of a new counter object. *)
Definition alloc (c : ProgressBarCounter) : M nat :=
  fun w => let a := next_obj w in
           (Ok a, set_next_obj (S a) (upd_obj a (fun _ => c) w)).

(** [ProgressBar.__call__]: the result is the address of the new counter,
    the object on which the caller then iterates. *)
Definition __call__ (data : option Iterable) (label : string)
    (remove_when_done : bool) (total : option Z) : M nat :=
  fun w => match counter_init (clock (rt w)) data label remove_when_done total with
           | Raise e => (Raise e, w)
           | Ok c =>
               (counter <~ alloc c ;;
                modify (fun w => set_counters (counters (bar w) ++ [counter]) w) ;;;
                ret counter)%world w
           end.

(** ** The generator of [ProgressBarCounter.__iter__] *)

(** [list.remove(x)]: drops the first element equal to [x]; [None] stands
    for the [ValueError] raised when there is none. *)
Fixpoint list_remove (x : nat) (l : list nat) : option (list nat) :=
  match l with
  | [] => None
  | y :: l' => if decide (x = y) then Some l'
               else option_map (cons y) (list_remove x l')
  end.

(** The [finally] block of [__iter__]. *)
Definition cleanup (self : nat) : M unit :=
  (modify (log (EvCleanup self)) ;;;
   modify (upd_obj self (set_done true)) ;;;
   rwd <~ gets (fun w => remove_when_done (objs w self)) ;;
   if rwd : bool then
     fun w => match list_remove self (counters (bar w)) with
              | Some l => (Ok tt, set_counters l w)
              | None => (Raise ValueError, w)
              end
   else ret tt)%world.

(** Where a generator object stands: not started, suspended at the [yield]
    (holding the iterator of the [for] loop: the source and the number of
    items already pulled), or finished. *)
Inductive GenState : Type :=
| GenCreated
| GenSuspended (d : Iterable) (pos : nat)
| GenClosed.

Record Generator : Type := mkGenerator {
  gen_self : nat;
  gen_state : GenState
}.

(** What a call of [next], [close] or [throw] on a generator gives back:
    an item, a normal return ([StopIteration] for [next]), or an
    exception. *)
Inductive GenResult : Type :=
| Yielded (x : Item)
| Returned
| Raised (e : exn).

(** Calling [__iter__] only creates the generator object; no statement of
    the body runs before the first [next]. *)
Definition __iter__ (self : nat) : Generator :=
  {| gen_self := self; gen_state := GenCreated |}.

(** Leaving the [try] statement: the [finally] block runs; [pending] is
    the exception on its way out, if any.  An exception raised by the
    [finally] block itself replaces it. *)
Definition leave_try (self : nat) (pending : option exn) (w : World)
    : GenResult * Generator * World :=
  let closed := {| gen_self := self; gen_state := GenClosed |} in
  match cleanup self w with
  | (Raise e, w') => (Raised e, closed, w')
  | (Ok _, w') =>
      (match pending with
       | None => Returned
       | Some e => Raised e
       end, closed, w')
  end.

(** One turn of [for item in self.data], up to the [yield]. *)
Definition loop_turn (self : nat) (d : Iterable) (pos : nat) (w : World)
    : GenResult * Generator * World :=
  match it_next d pos with
  | IYield x =>
      let w1 := upd_obj self advance w in
      match invalidate w1 with
      | (Ok _, w2) =>
          (Yielded x,
           {| gen_self := self; gen_state := GenSuspended d (S pos) |}, w2)
      | (Raise e, w2) => leave_try self (Some e) w2
      end
  | IStop => leave_try self None w
  | IRaise e => leave_try self (Some e) w
  end.

(** [next(g)]. *)
Definition gen_next (g : Generator) (w : World)
    : GenResult * Generator * World :=
  match gen_state g with
  | GenCreated =>
      match data (objs w (gen_self g)) with
      | None => leave_try (gen_self g) None w
      | Some d => loop_turn (gen_self g) d 0 w
      end
  | GenSuspended d pos => loop_turn (gen_self g) d pos w
  | GenClosed => (Returned, g, w)
  end.

(** [g.throw(e)]: the exception is raised at the [yield] where the
    generator is suspended; a generator that was never started, or is
    finished, runs no code. *)
Definition gen_throw (e : exn) (g : Generator) (w : World)
    : GenResult * Generator * World :=
  match gen_state g with
  | GenCreated =>
      (Raised e, {| gen_self := gen_self g; gen_state := GenClosed |}, w)
  | GenSuspended _ _ => leave_try (gen_self g) (Some e) w
  | GenClosed => (Raised e, g, w)
  end.

(** [g.close()], which is also what the interpreter does to a generator
    that the caller abandons: [GeneratorExit] is raised at the [yield];
    once it has left the generator, [close] returns normally. *)
Definition gen_close (g : Generator) (w : World)
    : GenResult * Generator * World :=
  match gen_throw GeneratorExit g w with
  | (Raised GeneratorExit, g', w') => (Returned, g', w')
  | r => r
  end.

(** [k] calls of [next] that each yield an item: the state after them, and
    the items.  [None] when one of the calls did not yield. *)
Fixpoint pull (k : nat) (g : Generator) (w : World)
    : option (list Item * Generator * World) :=
  match k with
  | O => Some ([], g, w)
  | S k' =>
      match gen_next g w with
      | (Yielded x, g1, w1) =>
          match pull k' g1 w1 with
          | Some (xs, g2, w2) => Some (x :: xs, g2, w2)
          | None => None
          end
      | _ => None
      end
  end.

(** The ways an iteration over the wrapper ends. *)
Inductive Ending : Type :=
| Exhaust                 (* one more [next], which does not yield *)
| Abandon                 (* the caller leaves the loop: [close] *)
| Fail (e : exn).         (* an exception is thrown in at the [yield] *)

Definition finish (how : Ending) (g : Generator) (w : World)
    : GenResult * Generator * World :=
  match how with
  | Exhaust => gen_next g w
  | Abandon => gen_close g w
  | Fail e => gen_throw e g w
  end.

(** Number of times the [finally] block of counter [self] was entered. *)
Definition cleanups (self : nat) (w : World) : nat :=
  count_occ Event_eq_dec (trace w) (EvCleanup self).

(** ** _ProgressControl.create_content *)

(** [items[i]] on a Python list: negative indices count from the end. *)
Definition py_getitem {A} (l : list A) (i : Z) : res A :=
  let n := Z.of_nat (length l) in
  let j := if i <? 0 then i + n else i in
  if (0 <=? j) && (j <? n) then
    match nth_error l (Z.to_nat j) with
    | Some x => Ok x
    | None => Raise IndexError
    end
  else Raise IndexError.

Section Render.

(** The formatted-text library of prompt_toolkit is not part of the
    modelled files: its types and [to_formatted_text] are parameters,
    [of_str] being the inclusion of [str] into [AnyFormattedText]. *)
Variables AnyFormattedText StyleAndTextTuples : Type.
Variable to_formatted_text : AnyFormattedText -> StyleAndTextTuples.
Variable of_str : string -> AnyFormattedText.

(** [Formatter.format(progress_bar, progress, width)]: the formatter reads
    the counter objects, the bar and the runtime (the clock), and gives
    text or raises. *)
Record Formatter : Type := mkFormatter {
  format : (nat -> ProgressBarCounter) -> ProgressBar -> Runtime ->
           nat -> Z -> res AnyFormattedText
}.

Record UIContent : Type := mkUIContent {
  get_line : Z -> res StyleAndTextTuples;
  line_count : nat;
  show_cursor : bool
}.

(** The body of [for pr in self.progress_bar.counters]. *)
Definition content_turn (formatter : Formatter) (width : Z)
    (st : list StyleAndTextTuples * World) (pr : nat)
    : list StyleAndTextTuples * World :=
  let '(items, w) := st in
  let w0 := log (EvFormat pr) w in
  let '(text, w1) :=
    match format formatter (objs w0) (bar w0) (rt w0) pr width with
    | Ok t => (t, w0)
    | Raise e => (of_str "ERROR", log (EvPrintExc e) w0)
    end in
  (items ++ [to_formatted_text text], w1).

Definition create_content (formatter : Formatter) (width height : Z)
    (w : World) : UIContent * World :=
  let '(items, w1) :=
    fold_left (content_turn formatter width) (counters (bar w)) ([], w) in
  ({| get_line := fun i => py_getitem items i;
      line_count := length items;
      show_cursor := false |}, w1).

(** The line of counter [pr] in a frame rendered in world [w]: the
    formatter's text, or the placeholder when the formatter raises. *)
Definition line_of (formatter : Formatter) (width : Z) (w : World)
    (pr : nat) : StyleAndTextTuples :=
  match format formatter (objs w) (bar w) (rt w) pr width with
  | Ok t => to_formatted_text t
  | Raise _ => to_formatted_text (of_str "ERROR")
  end.

(** What rendering the line of [pr] does besides: the call of the
    formatter and, when it raises, the printed traceback. *)
Definition line_events (formatter : Formatter) (width : Z) (w : World)
    (pr : nat) : list Event :=
  EvFormat pr ::
  match format formatter (objs w) (bar w) (rt w) pr width with
  | Ok _ => []
  | Raise e => [EvPrintExc e]
  end.

End Render.

Arguments format {AnyFormattedText} f objs bar rt pr width.
Arguments get_line {StyleAndTextTuples} u i.
Arguments line_count {StyleAndTextTuples} u.
Arguments show_cursor {StyleAndTextTuples} u.

(** ** ProgressBar.__enter__ and ProgressBar.__exit__ *)

(** [signal.signal(signal.SIGWINCH, h)]. *)
Definition signal_signal (h : Handler) : M unit :=
  modify (fun w => set_sigwinch h (log (EvSignal h) w)).

(** [self._loop.add_signal_handler(signal.SIGWINCH, cb)]: the loop keeps
    the callback and installs its own handler for the signal. *)
Definition add_signal_handler (cb : Callback) : M unit :=
  (modify (fun w => set_loop_sigwinch (Some cb) (log (EvAddSignalHandler cb) w)) ;;;
   signal_signal LoopSigHandler)%world.

(** [self._loop.remove_signal_handler(signal.SIGWINCH)]: [False] when the
    loop has no callback for the signal; otherwise the callback is dropped
    and the signal is set back to [SIG_DFL]. *)
Definition remove_signal_handler : M bool :=
  fun w => match loop_sigwinch (rt w) with
           | None => (Ok false, w)
           | Some _ =>
               (modify (fun w => set_loop_sigwinch None (log EvRemoveSignalHandler w)) ;;;
                signal_signal SIG_DFL ;;;
                ret true)%world w
           end.

(** [self._thread.start()]. *)
Definition thread_start : M unit :=
  modify (fun w => set_thread_alive true (log EvThreadStart w)).

(** [self._thread.join()] returns when the thread has terminated: the
    thread is not alive afterwards.  Whether and when the render thread
    terminates is not followed by the model. *)
Definition thread_join : M unit :=
  modify (fun w => set_thread_alive false (log EvThreadJoin w)).

(** [self.app.is_running]; the attribute [app] may not exist. *)
Definition app_is_running : M bool :=
  fun w => match app (bar w) with
           | None => (Raise AttributeError, w)
           | Some a => (Ok (is_running a), w)
           end.

(** [self.app.exit()]: [Application.exit] raises a bare [Exception] when
    the application is not running. *)
Definition app_exit : M unit :=
  fun w => match app (bar w) with
           | None => (Raise AttributeError, w)
           | Some a => if is_running a then (Ok tt, log EvAppExit w)
                       else (Raise ApplicationError, w)
           end.

Definition __enter__ : M unit :=
  (modify (set_app (Some {| is_running := false |})) ;;;
   modify (set_thread (Some tt)) ;;;
   thread_start ;;;
   has <~ gets (fun w => host_has_sigwinch (rt w) && in_main_thread (rt w)) ;;
   modify (set_has_sigwinch has) ;;;
   when has
     (h <~ gets (fun w => sigwinch (rt w)) ;;
      modify (set_previous_winch_handler h) ;;;
      add_signal_handler BarInvalidate))%world.

Definition __exit__ : M unit :=
  (running <~ app_is_running ;;
   when running app_exit ;;;
   has <~ gets (fun w => _has_sigwinch (bar w)) ;;
   when has
     (remove_signal_handler ;;;
      h <~ gets (fun w => _previous_winch_handler (bar w)) ;;
      signal_signal h) ;;;
   t <~ gets (fun w => _thread (bar w)) ;;
   match t with
   | Some _ => thread_join
   | None => ret tt
   end)%world.

(** ** What can happen to a world *)

Definition set_clock (t : Q) (w : World) : World :=
  set_rt {| clock := t; sigwinch := sigwinch (rt w);
            loop_sigwinch := loop_sigwinch (rt w);
            host_has_sigwinch := host_has_sigwinch (rt w);
            in_main_thread := in_main_thread (rt w);
            thread_alive := thread_alive (rt w) |} w.

(** What goes on while the bar is in use: the render thread starts or stops
    the application and ends, time passes, a frame is rendered, and the
    caller creates counters, drives generators and asks for repaints.  A
    generator is any value of [Generator]: the relation covers more than
    the generators a program can hold. *)
Inductive work : World -> World -> Prop :=
| work_app w a running :
    app (bar w) = Some a ->
    work w (set_app (Some {| is_running := running |}) w)
| work_thread w alive : work w (set_thread_alive alive w)
| work_clock w t : work w (set_clock t w)
| work_render w (A B : Type) (tft : A -> B) (of_str : string -> A)
    (f : Formatter A) width height u w' :
    create_content A B tft of_str f width height w = (u, w') -> work w w'
| work_call w data label rwd total r w' :
    __call__ data label rwd total w = (r, w') -> work w w'
| work_invalidate w r w' : invalidate w = (r, w') -> work w w'
| work_next w g r g' w' : gen_next g w = (r, g', w') -> work w w'
| work_close w g r g' w' : gen_close g w = (r, g', w') -> work w w'
| work_throw w e g r g' w' : gen_throw e g w = (r, g', w') -> work w w'.

Inductive step : World -> World -> Prop :=
| step_work w w' : work w w' -> step w w'
| step_enter w r w' : __enter__ w = (r, w') -> step w w'
| step_exit w r w' : __exit__ w = (r, w') -> step w w'.

(** The worlds a program can be in: a bar was constructed, then any number
    of steps were taken. *)
Definition reachable (w : World) : Prop :=
  exists r w0, bar_init r = Ok w0 /\ rtc step w0 w.

(** The registry holds allocated addresses, each at most once. *)
Definition registry_ok (w : World) : Prop :=
  NoDup (counters (bar w)) /\
  Forall (fun a => (a < next_obj w)%nat) (counters (bar w)).

(** ** output/defaults.py: create_output *)

Module Defaults.

(** A stream object; [stream_truthy] is its truth value ([True] for an
    object that defines neither [__bool__] nor [__len__]). *)
Record Stream : Type := mkStream {
  stream_id : nat;
  stream_truthy : bool
}.

(** What [create_output] asks of the host.  The functions live in
    [prompt_toolkit.utils] and [prompt_toolkit.output.windows10], outside
    the modelled files. *)
Record Host : Type := mkHost {
  is_windows : bool;
  is_win_vt100_enabled : bool;
  is_conemu_ansi : bool;
  get_term_environment_variable : string;
  sys___stdout__ : option Stream
}.

(** The backend classes, applied to their constructor arguments. *)
Inductive Output : Type :=
| Windows10_Output (stdout : option Stream)
| ConEmuOutput (stdout : option Stream)
| Win32Output (stdout : option Stream)
| Vt100_Output_from_pty (stdout : option Stream) (term : string).

(** [a or b] on optional streams. *)
Definition py_or (a b : option Stream) : option Stream :=
  match a with
  | Some s => if stream_truthy s then a else b
  | None => b
  end.

Definition create_output (h : Host) (stdout : option Stream) : Output :=
  let stdout := py_or stdout (sys___stdout__ h) in
  if is_windows h then
    if is_win_vt100_enabled h then Windows10_Output stdout
    else if is_conemu_ansi h then ConEmuOutput stdout
    else Win32Output stdout
  else Vt100_Output_from_pty stdout (get_term_environment_variable h).

End Defaults.

(** ** The percentage as the specification words it *)

Definition spec_percentage (c : ProgressBarCounter) : Q :=
  match total c with
  | Some t => (inject_Z (current c * 100) / inject_Z (Z.max t 1))%Q
  | None => 0%Q
  end.

(** The percentage getter returns the value 100. *)
Definition percentage_is_100 (c : ProgressBarCounter) : Prop :=
  exists p, percentage c = Ok p /\ (p == 100)%Q.

(** The counter after [n] steps [self.current += 1]. *)
Definition advanced (n : Z) (c : ProgressBarCounter) : ProgressBarCounter :=
  Nat.iter (Z.to_nat n) advance c.

(** The counter of [pb([])]: an empty list, whose length 0 is the total. *)
Definition empty_list_counter : ProgressBarCounter :=
  mkCounter 0%Q (Some (list_iterable [])) 0 "" false false (Some 0).

(** What the turns of the loop leave alone before the [finally] block
    runs: the registry, the number of cleanups, the allocation pointer and
    the attributes of the counter other than [current]. *)
Definition iter_frame (self : nat) (w w' : World) : Prop :=
  counters (bar w') = counters (bar w) /\
  cleanups self w' = cleanups self w /\
  next_obj w' = next_obj w /\
  remove_when_done (objs w' self) = remove_when_done (objs w self) /\
  total (objs w' self) = total (objs w self) /\
  data (objs w' self) = data (objs w self).

(** The finished generator of counter [self]. *)
Definition closed_gen (self : nat) : Generator :=
  {| gen_self := self; gen_state := GenClosed |}.

(** The generator stands at the [yield]. *)
Definition suspended (g : Generator) : Prop :=
  exists d pos, gen_state g = GenSuspended d pos.

(** A call on the generator of [self] left the [try] statement: after some
    turn of the loop that kept [iter_frame], the [finally] block ran, with
    [pending] the exception on its way out. *)
Definition ended (self : nat) (pending : option exn) (w : World)
    (r : GenResult) (g : Generator) (w' : World) : Prop :=
  exists wm,
    iter_frame self w wm /\
    current (objs wm self) - current (objs w self) ∈ [0; 1] /\
    leave_try self pending wm = (r, g, w').

(** [for item in g: pass], given the generator [g = iter(counter)]: [next]
    until the generator stops or raises; the result is how it ended.
    [None] when [fuel] calls of [next] did not reach the end. *)
Fixpoint for_each (fuel : nat) (g : Generator) (w : World)
    : option (GenResult * World) :=
  match fuel with
  | O => None
  | S n =>
      match gen_next g w with
      | (Yielded _, g', w') => for_each n g' w'
      | (r, _, w') => Some (r, w')
      end
  end.

(** ** The estimate as the specification words it

    [elapsed * (100 - percentage) / percentage] over the rational numbers
    that the floats stand for, with what the number types add: the
    difference [100 - percentage] is a float, a timedelta is a whole number
    of microseconds within [MAX_DELTA_DAYS] days. *)

(** The rational number a float stands for. *)
Definition float_value (f : spec_float) : Q :=
  match f with
  | S754_finite s m e =>
      if 0 <=? e then inject_Z (cond_Zopp s (Zpos m) * 2 ^ e)
      else (inject_Z (cond_Zopp s (Zpos m)) / inject_Z (2 ^ (- e)))%Q
  | _ => 0%Q
  end.

(** The float is a number: a zero or a finite float. *)
Definition float_finite (f : spec_float) : bool :=
  match f with
  | S754_zero _ | S754_finite _ _ _ => true
  | _ => false
  end.

(** The integer nearest to a rational number, the even one on a tie. *)
Definition round_half_even (x : Q) : Z :=
  let n := Qfloor x in
  match (x - inject_Z n ?= 1 # 2)%Q with
  | Lt => n
  | Gt => n + 1
  | Eq => if Z.even n then n else n + 1
  end.

(** The microseconds a timedelta can hold: from [-MAX_DELTA_DAYS] days up
    to, and excluding, [MAX_DELTA_DAYS + 1] days. *)
Definition in_timedelta_range (us : Z) : bool :=
  (- MAX_DELTA_DAYS * US_PER_DAY <=? us) &&
  (us <? (MAX_DELTA_DAYS + 1) * US_PER_DAY).

(** A number of microseconds as a timedelta, if it is one. *)
Definition checked (us : Z) : res timedelta :=
  if in_timedelta_range us then Ok us else Raise OverflowError.

(** The estimate for a percentage [f] that is not zero: the product and
    the quotient are each rounded to a whole number of microseconds, and
    each must be a timedelta. *)
Definition spec_time_left (elapsed : timedelta) (f : spec_float)
    : res (option timedelta) :=
  match float_of_int 100 with
  | Ok hundred =>
      let h := SFsub mant_dig max_exp hundred f in
      if float_finite h then
        let us1 := round_half_even (inject_Z elapsed * float_value h) in
        let us2 := round_half_even (inject_Z us1 / float_value f) in
        if in_timedelta_range us1 && in_timedelta_range us2
        then Ok (Some us2)
        else Raise OverflowError
      else Raise OverflowError
  | Raise e => Raise e
  end.

(** The exponent at which [SFdiv_core_binary] cuts the quotient of two
    positive integers. *)
Definition quotient_exponent (m1 m2 : Z) : Z :=
  Z.min (Z.max (Zdigits2 m1 - Zdigits2 m2 - 53) (-1074)) 0.

(** ** A concrete run, used to exercise the statements

    A POSIX process in its main thread, whose resize signal had the Python
    handler 7 before the bar was made; the bar is constructed and entered,
    and [pb([10, 20, 30], remove_when_done=True)] is called. *)
Definition demo_rt : Runtime :=
  {| clock := 5%Q; sigwinch := PyHandler 7; loop_sigwinch := None;
     host_has_sigwinch := true; in_main_thread := true;
     thread_alive := false |}.

Definition demo_entered : World := snd (__enter__ (fresh_world demo_rt)).

Definition demo_called : World :=
  snd (__call__ (Some (list_iterable [10; 20; 30])) "" true None demo_entered).

(** Two items are pulled from the counter, then the loop is abandoned. *)
Definition demo_g1 : Generator :=
  {| gen_self := 0%nat;
     gen_state := GenSuspended (list_iterable [10; 20; 30]) 2 |}.

Definition demo_w1 : World :=
  log (EvScheduled AppInvalidate)
    (upd_obj 0%nat advance
       (log (EvScheduled AppInvalidate) (upd_obj 0%nat advance demo_called))).

Definition demo_w2 : World := snd (finish Abandon demo_g1 demo_w1).

(** ** Elementary effects

    Every operation of [work] is a sequence of these: an entry in the
    trace, a change of the application's running state, of the thread's
    liveness or of the clock, an attribute update that keeps [total], [data]
    and [remove_when_done], a [list.remove] on the registry, and the
    creation and registration of a counter. *)
Inductive effect : World -> World -> Prop :=
| eff_log e w : effect w (log e w)
| eff_app a running w :
    app (bar w) = Some a ->
    effect w (set_app (Some {| is_running := running |}) w)
| eff_thread alive w : effect w (set_thread_alive alive w)
| eff_clock t w : effect w (set_clock t w)
| eff_obj a f w :
    (forall c, total (f c) = total c /\ data (f c) = data c /\
               remove_when_done (f c) = remove_when_done c) ->
    effect w (upd_obj a f w)
| eff_remove x l w :
    list_remove x (counters (bar w)) = Some l -> effect w (set_counters l w)
| eff_new c w :
    effect w (set_counters (counters (bar w) ++ [next_obj w])
                (set_next_obj (S (next_obj w))
                   (upd_obj (next_obj w) (fun _ => c) w))).

(** The signal state and the attributes of the bar that [__exit__] reads. *)
Definition sig_frame (w w' : World) : Prop :=
  sigwinch (rt w') = sigwinch (rt w) /\
  loop_sigwinch (rt w') = loop_sigwinch (rt w) /\
  _has_sigwinch (bar w') = _has_sigwinch (bar w) /\
  _previous_winch_handler (bar w') = _previous_winch_handler (bar w) /\
  _thread (bar w') = _thread (bar w) /\
  (app (bar w) <> None -> app (bar w') <> None).

(** Allocated objects stay allocated and keep the attributes that are set
    once, in [__init__]. *)
Definition heap_frame (w w' : World) : Prop :=
  (next_obj w <= next_obj w')%nat /\
  forall a, (a < next_obj w)%nat ->
    total (objs w' a) = total (objs w a) /\
    data (objs w' a) = data (objs w a) /\
    remove_when_done (objs w' a) = remove_when_done (objs w a).

(** The effects of [__exit__], in order. *)
Definition exit_events (running has hooked : bool) (prev : Handler)
    (joined : bool) : list Event :=
  (if running then [EvAppExit] else []) ++
  (if has then
     (if hooked then [EvRemoveSignalHandler; EvSignal SIG_DFL] else []) ++
     [EvSignal prev]
   else []) ++
  (if joined then [EvThreadJoin] else []).

(** In the entered world the render thread has started the application. *)
Definition demo_running : World :=
  set_app (Some {| is_running := true |}) demo_entered.

(** The counter of [demo_called] is iterated to its end, once. *)
Definition demo_done : World :=
  match for_each 4 (__iter__ 0%nat) demo_called with
  | Some (_, w) => w
  | None => demo_called
  end.

(** A formatted-text library and a formatter to exercise
    [create_content]: text is a string or a list of fragments, and the
    formatter fails on counters that are done. *)
Inductive DemoText : Type :=
| DemoStr (s : string)
| DemoFragments (l : list (string * string)).

Definition demo_to_formatted_text (t : DemoText) : list (string * string) :=
  match t with
  | DemoStr s => [(EmptyString, s)]
  | DemoFragments l => l
  end.

Definition demo_formatter : Formatter DemoText :=
  {| format := fun objs _ _ pr _ =>
       if done (objs pr) then Raise (OtherError 1)
       else Ok (DemoStr "working") |}.

(** The entered bar after [pb()], a counter without data and total. *)
Definition demo_one : World := snd (__call__ None "" false None demo_entered).

(** A counter created at time 5 with total 4, after one item. *)
Definition quarter_counter : ProgressBarCounter :=
  mkCounter 5%Q None 1 "" false false (Some 4).

(** The counter of [pb([10, 20, 30], total=10 ** 14)], created at time 5,
    with one item completed. *)
Definition slow_counter : ProgressBarCounter :=
  mkCounter 5%Q (Some (list_iterable [10; 20; 30])) 1 "" false false
    (Some (10 ^ 14)).

(** A counter with a total of [10 ** 400], with one item completed. *)
Definition endless_counter : ProgressBarCounter :=
  mkCounter 5%Q None 1 "" false false (Some (10 ^ 400)).

(** The entered bar after [pb([10, 20, 30], total=10 ** 14)]; the loop
    over the counter has taken its first item, and the clock shows one
    second more than at the creation of the counter. *)
Definition demo_slow_called : World :=
  snd (__call__ (Some (list_iterable [10; 20; 30])) "" false (Some (10 ^ 14))
         demo_entered).

Definition demo_slow : World :=
  set_clock 6
    match pull 1 (__iter__ 0%nat) demo_slow_called with
    | Some (_, _, w) => w
    | None => demo_slow_called
    end.

(** Two counters on the entered bar, [pb()] and [pb([1])]; the first one
    has been iterated, and so is done, when a frame is rendered. *)
Definition demo_two : World :=
  snd (__call__ (Some (list_iterable [1])) "" false None demo_one).

Definition demo_two_done : World :=
  match for_each 1 (__iter__ 0%nat) demo_two with
  | Some (_, w) => w
  | None => demo_two
  end.

(** * Further definitions

    ** What a generator can touch

    The elementary effects of the calls on the generator of counter
    [self]: an entry in the trace, [self.current += 1], [self.done = True]
    and the removal of [self] from the registry. *)
Inductive gen_effect (self : nat) : World -> World -> Prop :=
| ge_log e w : gen_effect self w (log e w)
| ge_advance w : gen_effect self w (upd_obj self advance w)
| ge_done w : gen_effect self w (upd_obj self (set_done true) w)
| ge_remove l w :
    list_remove self (counters (bar w)) = Some l ->
    gen_effect self w (set_counters l w).

(** Every step is a sequence of these: an effect of some generator, a
    change that leaves the store alone, or the creation of a counter. *)
Inductive mutation : World -> World -> Prop :=
| mut_gen self w w' : gen_effect self w w' -> mutation w w'
| mut_env w w' :
    objs w' = objs w -> next_obj w' = next_obj w -> mutation w w'
| mut_new c w :
    mutation w (set_counters (counters (bar w) ++ [next_obj w])
                  (set_next_obj (S (next_obj w))
                     (upd_obj (next_obj w) (fun _ => c) w))).

(** How an allocated counter can change: [done] is never reset, [current]
    never decreases, the attributes set by [__init__] stay. *)
Definition counter_grows (c c' : ProgressBarCounter) : Prop :=
  (done c = true -> done c' = true) /\
  current c <= current c' /\
  total c' = total c /\ data c' = data c /\
  remove_when_done c' = remove_when_done c /\
  label c' = label c /\ start_time c' = start_time c.

Definition store_grows (w w' : World) : Prop :=
  (next_obj w <= next_obj w')%nat /\
  forall a, (a < next_obj w)%nat -> counter_grows (objs w a) (objs w' a).

(** What a call on the generator of [self] leaves alone: every other
    object, and the presence and order of the other registry entries. *)
Definition others_untouched (self : nat) (w w' : World) : Prop :=
  (forall a, a <> self -> objs w' a = objs w a) /\
  filter (fun a => a <> self) (counters (bar w'))
  = filter (fun a => a <> self) (counters (bar w)) /\
  next_obj w' = next_obj w.

(** The host attributes of the runtime. *)
Definition host_frame (w w' : World) : Prop :=
  host_has_sigwinch (rt w') = host_has_sigwinch (rt w) /\
  in_main_thread (rt w') = in_main_thread (rt w).

(** The registry lists allocated addresses in increasing order: the order
    in which [__call__] created the counters. *)
Definition registry_sorted (w : World) : Prop :=
  StronglySorted lt (counters (bar w)) /\
  Forall (fun a => (a < next_obj w)%nat) (counters (bar w)).

(** The world after one yielding turn of the loop of counter [self]. *)
Definition turn_world (self : nat) (w : World) : World :=
  log (EvScheduled AppInvalidate) (upd_obj self advance w).

(** The generator of [self] suspended after [pos] items of [d]. *)
Definition suspended_at (self : nat) (d : Iterable) (pos : nat) : Generator :=
  {| gen_self := self; gen_state := GenSuspended d pos |}.

(** The entered bar after [pb([7, 8])]. *)
Definition demo_pair : World :=
  snd (__call__ (Some (list_iterable [7; 8])) "" false None demo_entered).

(** A bar that was constructed and not entered, after [pb([7, 8],
    remove_when_done=True)]. *)
Definition demo_unentered : World :=
  snd (__call__ (Some (list_iterable [7; 8])) "" true None (fresh_world demo_rt)).

(** The application of [demo_running] has stopped and the bar is exited. *)
Definition demo_stopped : World :=
  set_app (Some {| is_running := false |}) demo_running.

Definition demo_exited : World := snd (__exit__ demo_stopped).


(** ** The auto-refresh task

    [_auto_refresh_context(app, refresh_interval)].  The event loop is not
    modelled: what it does to the task is given as a schedule. *)

Module Refresh.

(** Truth value of [refresh_interval : Optional[float]]. *)
Definition interval_truthy (i : option Q) : bool :=
  match i with
  | None => false
  | Some q => negb (Qeq_bool q 0)
  end.

(** Where the task of [run()] stands: created by [ensure_future] and not
    run yet, suspended in [await sleep(refresh_interval)], or returned. *)
Inductive Task : Type :=
| TaskCreated
| TaskSleeping
| TaskFinished.

(** The variables of one use of the context manager: [refresh_interval],
    the local [done] that [run] reads, the task if one was made, and the
    number of calls of [app.invalidate()] so far. *)
Record Refresher : Type := mkRefresher {
  refresh_interval : option Q;
  done_flag : bool;
  task : option Task;
  app_invalidations : nat
}.

(** The body of [_auto_refresh_context] up to the [yield]. *)
Definition enter_context (i : option Q) : Refresher :=
  {| refresh_interval := i;
     done_flag := false;
     task := if interval_truthy i then Some TaskCreated else None;
     app_invalidations := 0 |}.

(** The [finally] block: [done = True]. *)
Definition exit_context (r : Refresher) : Refresher :=
  {| refresh_interval := refresh_interval r;
     done_flag := true;
     task := task r;
     app_invalidations := app_invalidations r |}.

(** The test [while not done] and what follows it. *)
Definition loop_test (r : Refresher) (n : nat) : Refresher :=
  {| refresh_interval := refresh_interval r;
     done_flag := done_flag r;
     task := Some (if done_flag r then TaskFinished else TaskSleeping);
     app_invalidations := n |}.

(** The event loop runs the task: for the first time, from the start of
    [run()] to the first [await], or when a [sleep] is over, through
    [app.invalidate()] to the next [await] or the return. *)
Definition task_step (r : Refresher) : Refresher :=
  match task r with
  | Some TaskCreated =>
      if interval_truthy (refresh_interval r)
      then loop_test r (app_invalidations r)
      else {| refresh_interval := refresh_interval r;
              done_flag := done_flag r;
              task := Some TaskFinished;
              app_invalidations := app_invalidations r |}
  | Some TaskSleeping => loop_test r (S (app_invalidations r))
  | Some TaskFinished => r
  | None => r
  end.

(** What happens to the context manager's state, in order. *)
Inductive Happening : Type :=
| RunTask        (* the loop runs the task *)
| LeaveContext.  (* the [with] block is left *)

Definition happen (r : Refresher) (h : Happening) : Refresher :=
  match h with
  | RunTask => task_step r
  | LeaveContext => exit_context r
  end.

Definition happenings (hs : list Happening) (r : Refresher) : Refresher :=
  fold_left happen hs r.

End Refresh.


(** A source that yields 1 and 2 and then fails with the caller's own
    exception 9; it has no length. *)
Definition failing_source : Iterable :=
  {| it_len := Raise TypeError;
     it_next := fun i => match i with
                         | 0%nat => IYield 1
                         | 1%nat => IYield 2
                         | _ => IRaise (OtherError 9)
                         end |}.

Definition demo_failing : World :=
  snd (__call__ (Some failing_source) "" true None demo_entered).

(** * Properties *)

(** ** Floats and timedeltas *)

Lemma microseconds_to_delta_spec us :
  microseconds_to_delta us =
  if in_timedelta_range us then Ok us else Raise OverflowError.
Proof.
  unfold microseconds_to_delta, in_timedelta_range, MAX_DELTA_DAYS, US_PER_DAY.
  cbv zeta.
  pose proof (Z.div_mod us 86400000000 ltac:(lia)) as Hd.
  pose proof (Z.mod_pos_bound us 86400000000 ltac:(lia)) as Hm.
  destruct (_ <=? us / _) eqn:E1, (us / _ <=? _) eqn:E2,
    (_ <=? us) eqn:E3, (us <? _) eqn:E4; simpl; try reflexivity; lia.
Qed.

Lemma as_integer_ratio_spec f a b :
  as_integer_ratio f = Ok (a, b) ->
  0 < b /\ (float_value f == inject_Z a / inject_Z b)%Q /\
  (a = 0 -> exists s, f = S754_zero s).
Proof.
  destruct f as [s|s| |s m e]; simpl; try discriminate.
  - intros H. injection H as <- <-. split; [lia|]. split; [reflexivity|eauto].
  - set (n := cond_Zopp s (Z.pos m)).
    assert (Hn : n <> 0) by (subst n; destruct s; simpl; lia).
    destruct (0 <=? e) eqn:He.
    + intros H. injection H as <- <-. split; [lia|]. split.
      * unfold Qdiv. change (/ inject_Z 1)%Q with 1%Q. now rewrite Qmult_1_r.
      * intros H0. apply Z.mul_eq_0 in H0 as [H0|H0]; [contradiction|].
        assert (0 < 2 ^ e) by (apply Z.pow_pos_nonneg; lia). lia.
    + intros H. injection H as <- <-.
      set (d := 2 ^ (- e)).
      assert (Hd : 0 < d) by (apply Z.pow_pos_nonneg; lia).
      set (g := Z.gcd n d).
      assert (Hg : 0 < g).
      { pose proof (Z.gcd_nonneg n d). 
        assert (g <> 0) by (intros H0; apply Z.gcd_eq_0_l in H0; contradiction).
        subst g; lia. }
      destruct (Z.gcd_divide_l n d) as [n' Hn'].
      destruct (Z.gcd_divide_r n d) as [d' Hd'].
      fold g in Hn', Hd'.
      assert (En : n / g = n') by (rewrite Hn'; apply Z.div_mul; lia).
      assert (Ed : d / g = d') by (rewrite Hd'; apply Z.div_mul; lia).
      rewrite En, Ed.
      assert (Hd'0 : 0 < d') by nia.
      split; [exact Hd'0|]. split.
      * rewrite Hn' at 1. rewrite Hd' at 1.
        rewrite !inject_Z_mult. field.
        split; intros H0.
        -- apply (inject_Z_injective d' 0) in H0. lia.
        -- apply (inject_Z_injective g 0) in H0. lia.
      * intros ->. lia.
Qed.

Lemma frac_compare a b :
  b <> 0 ->
  ((inject_Z a / inject_Z b - inject_Z (a / b) ?= 1 # 2)%Q : comparison) =
  if 0 <? b then 2 * (a mod b) ?= b else b ?= 2 * (a mod b).
Proof.
  intros Hb.
  pose proof (Z.div_mod a b Hb) as Hd.
  set (q := a / b) in *. set (r := a mod b) in *.
  assert (Hfrac : (inject_Z a / inject_Z b - inject_Z q ==
                   inject_Z r / inject_Z b)%Q).
  { rewrite Hd at 1. rewrite inject_Z_plus, inject_Z_mult. field.
    intros H0. apply (inject_Z_injective b 0) in H0. contradiction. }
  rewrite (Qcompare_comp _ _ Hfrac _ _ (Qeq_refl _)). clear Hfrac Hd.
  unfold Qcompare, Qdiv, Qmult, Qinv, inject_Z. simpl.
  destruct b as [|p|p]; [contradiction| |];
    match goal with |- _ = ?R => set (rhs := R) end; simpl; subst rhs;
    rewrite Pos.mul_1_l.
  - change (0 <? Z.pos p) with true. cbv iota.
    destruct (Z.compare_spec (r * 1 * 2) (1 * Z.pos p)),
      (Z.compare_spec (2 * r) (Z.pos p)); try reflexivity; lia.
  - change (0 <? Z.neg p) with false. cbv iota.
    destruct (Z.compare_spec (r * -1 * 2) (1 * Z.pos p)),
      (Z.compare_spec (Z.neg p) (2 * r)); try reflexivity; lia.
Qed.

Lemma divide_nearest_spec a b :
  b <> 0 ->
  divide_nearest a b = Ok (round_half_even (inject_Z a / inject_Z b)).
Proof.
  intros Hb. unfold divide_nearest, round_half_even. cbv zeta.
  rewrite <- Zdiv_Qdiv. rewrite frac_compare by exact Hb.
  destruct (b =? 0) eqn:E; [lia|].
  rewrite <- Z.negb_even.
  destruct (0 <? b) eqn:Hs.
  - destruct (Z.compare_spec (2 * (a mod b)) b) as [H|H|H].
    + rewrite H, Z.ltb_irrefl, Z.eqb_refl. simpl.
      destruct (Z.even (a / b)); reflexivity.
    + destruct (b <? 2 * (a mod b)) eqn:E1; [lia|].
      destruct (2 * (a mod b) =? b) eqn:E2; [lia|]. reflexivity.
    + destruct (b <? 2 * (a mod b)) eqn:E1; [|lia]. reflexivity.
  - destruct (Z.compare_spec b (2 * (a mod b))) as [H|H|H].
    + rewrite <- H, Z.ltb_irrefl, Z.eqb_refl. simpl.
      destruct (Z.even (a / b)); reflexivity.
    + destruct (2 * (a mod b) <? b) eqn:E1; [lia|].
      destruct (2 * (a mod b) =? b) eqn:E2; [lia|]. reflexivity.
    + destruct (2 * (a mod b) <? b) eqn:E1; [|lia]. reflexivity.
Qed.

(** Rounding a mantissa that is not negative gives a number, not a nan. *)
Section IterPos.
Context {A : Type} (f : A -> A) (P : A -> Prop).
Hypothesis Hf : forall x, P x -> P (f x).
Lemma iter_pos_invariant (p : positive) :
  forall x : A, P x -> P (SpecFloat.iter_pos f p x).
Proof.
  induction p as [p IH|p IH|]; intros x Hx; simpl; auto.
Qed.
End IterPos.

Lemma shr_1_nonneg mrs : 0 <= shr_m mrs -> 0 <= shr_m (shr_1 mrs).
Proof.
  destruct mrs as [m r s]. simpl.
  destruct m as [|[p|p|]|[p|p|]]; simpl; lia.
Qed.

Lemma shr_nonneg mrs e n : 0 <= shr_m mrs -> 0 <= shr_m (fst (shr mrs e n)).
Proof.
  intros H. unfold shr. destruct n as [|p|p]; simpl; try exact H.
  apply (iter_pos_invariant shr_1 (fun x => 0 <= shr_m x)); [|exact H].
  apply shr_1_nonneg.
Qed.

Lemma shr_fexp_nonneg m e l :
  0 <= m -> 0 <= shr_m (fst (shr_fexp mant_dig max_exp m e l)).
Proof.
  intros H. unfold shr_fexp. apply shr_nonneg.
  destruct l as [|[]]; exact H.
Qed.

Lemma round_nearest_even_nonneg m l : 0 <= m -> 0 <= round_nearest_even m l.
Proof.
  intros H. unfold round_nearest_even.
  destruct l as [|[]]; try lia. destruct (Z.even m); lia.
Qed.

Lemma binary_round_aux_not_nan s m e l :
  0 <= m -> binary_round_aux mant_dig max_exp s m e l <> S754_nan.
Proof.
  intros H. unfold binary_round_aux.
  pose proof (shr_fexp_nonneg m e l H) as H1.
  destruct (shr_fexp mant_dig max_exp m e l) as [mrs' e'].
  simpl in H1.
  pose proof (shr_fexp_nonneg _ e' loc_Exact
                (round_nearest_even_nonneg _ (loc_of_shr_record mrs') H1)) as H2.
  destruct (shr_fexp mant_dig max_exp _ e' loc_Exact) as [mrs'' e''].
  simpl in H2.
  destruct (shr_m mrs''); [discriminate| |lia].
  destruct (e'' <=? _); discriminate.
Qed.

Lemma binary_normalize_not_nan m e sz :
  binary_normalize mant_dig max_exp m e sz <> S754_nan.
Proof.
  unfold binary_normalize, binary_round.
  destruct m as [|p|p]; [discriminate| |];
    destruct (shl_align _ _ _) as [mz ez];
    apply binary_round_aux_not_nan; lia.
Qed.

Lemma float_round_spec s m e l f :
  0 <= m -> float_round s m e l = Ok f -> float_finite f = true.
Proof.
  intros Hm. unfold float_round.
  pose proof (binary_round_aux_not_nan s m e l Hm) as Hn.
  destruct (binary_round_aux _ _ s m e l); try discriminate; try contradiction;
    intros H; injection H as <-; reflexivity.
Qed.

Lemma float_round_raises s m e l x :
  float_round s m e l = Raise x -> x = OverflowError.
Proof.
  unfold float_round. destruct (binary_round_aux _ _ _ _ _ _); try discriminate.
  congruence.
Qed.

Lemma div_core_nonneg a b :
  0 <= a -> 0 < b ->
  0 <= fst (fst (SFdiv_core_binary mant_dig max_exp a 0 b 0)).
Proof.
  intros Ha Hb. unfold SFdiv_core_binary. cbv zeta.
  match goal with |- context [Z.div_eucl ?m b] => set (m' := m) end.
  assert (Hm : 0 <= m').
  { subst m'. destruct (_ - _) eqn:E; try lia.
    apply Z.shiftl_nonneg. exact Ha. }
  pose proof (Z_div_mod m' b ltac:(lia)) as Hd.
  destruct (Z.div_eucl m' b) as [q r]. simpl. nia.
Qed.

Lemma int_truediv_spec a b :
  b <> 0 ->
  match int_truediv a b with
  | Ok f => float_finite f = true
  | Raise e => e = OverflowError
  end.
Proof.
  intros Hb. unfold int_truediv.
  destruct (b =? 0) eqn:E; [lia|].
  destruct (a =? 0) eqn:Ea; [reflexivity|].
  pose proof (div_core_nonneg (Z.abs a) (Z.abs b) ltac:(lia) ltac:(lia)) as Hq.
  destruct (SFdiv_core_binary _ _ _ _ _ _) as [[q e] l]. simpl in Hq.
  destruct (float_round _ q e l) as [f|x] eqn:Hr.
  - eapply float_round_spec; eauto.
  - eapply float_round_raises; eauto.
Qed.

Lemma round_half_even_comp x y :
  (x == y)%Q -> round_half_even x = round_half_even y.
Proof.
  intros H. unfold round_half_even.
  rewrite (Qfloor_comp _ _ H).
  assert (H2 : (x - inject_Z (Qfloor y) == y - inject_Z (Qfloor y))%Q)
    by (rewrite H; reflexivity).
  rewrite (Qcompare_comp _ _ H2 _ _ (Qeq_refl _)). reflexivity.
Qed.

Lemma as_integer_ratio_finite f :
  float_finite f = true -> exists a b, as_integer_ratio f = Ok (a, b).
Proof.
  destruct f as [s|s| |s m e]; simpl; try discriminate; intros _; eauto.
  destruct (0 <=? e); eauto.
Qed.

Lemma inject_Z_nonzero z : z <> 0 -> ~ (inject_Z z == 0)%Q.
Proof. intros H H0. apply (inject_Z_injective z 0) in H0. contradiction. Qed.

Lemma timedelta_mul_float d h :
  h <> S754_nan ->
  timedelta_mul d (PyFloat h) =
  if float_finite h
  then checked (round_half_even (inject_Z d * float_value h))
  else Raise OverflowError.
Proof.
  intros Hn. unfold timedelta_mul.
  destruct (float_finite h) eqn:Hf.
  - destruct (as_integer_ratio_finite h Hf) as (a & b & Hr).
    rewrite Hr. simpl.
    apply as_integer_ratio_spec in Hr as (Hb & Hv & _).
    rewrite divide_nearest_spec by lia. simpl.
    rewrite microseconds_to_delta_spec. unfold checked.
    rewrite (round_half_even_comp (inject_Z (d * a) / inject_Z b)
               (inject_Z d * float_value h)); [reflexivity|].
    rewrite Hv, inject_Z_mult. field. apply inject_Z_nonzero. lia.
  - destruct h as [s|s| |s m e]; try discriminate; [reflexivity|contradiction].
Qed.

Lemma float_value_nonzero s m e : ~ (float_value (S754_finite s m e) == 0)%Q.
Proof.
  intros H.
  destruct (as_integer_ratio_finite (S754_finite s m e) eq_refl) as (a & b & Hr).
  pose proof Hr as Hr'.
  apply as_integer_ratio_spec in Hr as (Hb & Hv & Hz).
  rewrite Hv in H.
  assert (a = 0).
  { apply (inject_Z_injective a 0).
    assert (Hq : (inject_Z a == inject_Z a / inject_Z b * inject_Z b)%Q).
    { field. apply inject_Z_nonzero. lia. }
    rewrite Hq, H. ring. }
  destruct (Hz H0) as [s' Hs']. discriminate.
Qed.

Lemma timedelta_truediv_float d s m e :
  timedelta_truediv d (PyFloat (S754_finite s m e)) =
  checked (round_half_even (inject_Z d / float_value (S754_finite s m e))).
Proof.
  unfold timedelta_truediv.
  destruct (as_integer_ratio_finite (S754_finite s m e) eq_refl) as (a & b & Hr).
  rewrite Hr. cbn [res_bind fst snd].
  apply as_integer_ratio_spec in Hr as (Hb & Hv & Hz).
  assert (Ha : a <> 0).
  { intros H0. destruct (Hz H0) as [s' Hs']. discriminate. }
  rewrite divide_nearest_spec by exact Ha. cbn [res_bind].
  rewrite microseconds_to_delta_spec. unfold checked.
  rewrite (round_half_even_comp (inject_Z (d * b) / inject_Z a)
             (inject_Z d / float_value (S754_finite s m e))); [reflexivity|].
  rewrite Hv, inject_Z_mult. field.
  split; apply inject_Z_nonzero; lia.
Qed.

(** ** Digits and shifts *)

Lemma digits2_pos_bounds p :
  2 ^ (Z.pos (digits2_pos p) - 1) <= Z.pos p < 2 ^ Z.pos (digits2_pos p).
Proof.
  induction p as [p IH|p IH|]; simpl digits2_pos;
    rewrite ?Pos2Z.inj_succ.
  - replace (Z.succ (Z.pos (digits2_pos p)) - 1)
      with (Z.succ (Z.pos (digits2_pos p) - 1)) by lia.
    rewrite !Z.pow_succ_r by lia. lia.
  - replace (Z.succ (Z.pos (digits2_pos p)) - 1)
      with (Z.succ (Z.pos (digits2_pos p) - 1)) by lia.
    rewrite !Z.pow_succ_r by lia. lia.
  - simpl. lia.
Qed.

Lemma Zdigits2_nonneg n : 0 <= Zdigits2 n.
Proof. destruct n; simpl; lia. Qed.

Lemma Zdigits2_lt n : 0 <= n -> n < 2 ^ Zdigits2 n.
Proof.
  destruct n as [|p|p]; simpl; [lia| |lia].
  intros _. apply digits2_pos_bounds.
Qed.

Lemma Zdigits2_ge n : 0 < n -> 2 ^ (Zdigits2 n - 1) <= n.
Proof.
  destruct n as [|p|p]; simpl; [lia| |lia].
  intros _. apply digits2_pos_bounds.
Qed.

Lemma Zdigits2_le n k : 0 <= n -> 0 <= k -> n < 2 ^ k -> Zdigits2 n <= k.
Proof.
  intros Hn Hk H.
  destruct (Z.eq_dec n 0) as [->|Hz]; [simpl; lia|].
  pose proof (Zdigits2_ge n ltac:(lia)) as Hg.
  pose proof (Zdigits2_nonneg n).
  destruct (Z.le_gt_cases (Zdigits2 n) k) as [Hle|Hgt]; [exact Hle|].
  assert (2 ^ k <= 2 ^ (Zdigits2 n - 1)) by (apply Z.pow_le_mono_r; lia).
  lia.
Qed.

Lemma shr_1_m mrs : 0 <= shr_m mrs -> shr_m (shr_1 mrs) = shr_m mrs / 2.
Proof.
  destruct mrs as [m r s].
  destruct m as [|[p|p|]|p]; cbv beta iota zeta delta [shr_1 shr_m];
    intros H; try lia.
  - reflexivity.
  - rewrite Pos2Z.inj_xI.
    apply (Z.div_unique _ _ _ 1); lia.
  - rewrite Pos2Z.inj_xO.
    apply (Z.div_unique _ _ _ 0); lia.
  - reflexivity.
Qed.

Lemma iter_shr_1_m p : forall mrs,
  0 <= shr_m mrs ->
  shr_m (SpecFloat.iter_pos shr_1 p mrs) = shr_m mrs / 2 ^ Z.pos p.
Proof.
  assert (Hinv : forall q x, 0 <= shr_m x ->
            0 <= shr_m (SpecFloat.iter_pos shr_1 q x)).
  { intros q x. apply (iter_pos_invariant shr_1 (fun x => 0 <= shr_m x)).
    apply shr_1_nonneg. }
  induction p as [p IH|p IH|]; intros mrs H; simpl SpecFloat.iter_pos.
  - assert (H1 : 0 <= shr_m (shr_1 mrs)) by now apply shr_1_nonneg.
    rewrite IH by (apply Hinv; exact H1). rewrite IH by exact H1.
    rewrite shr_1_m by exact H.
    assert (0 < 2 ^ Z.pos p) by (apply Z.pow_pos_nonneg; lia).
    rewrite !Z.div_div by lia.
    f_equal.
    replace (Z.pos p~1) with (1 + Z.pos p + Z.pos p) by lia.
    rewrite !Z.pow_add_r by lia. rewrite Z.pow_1_r. lia.
  - rewrite IH by (apply Hinv; exact H). rewrite IH by exact H.
    assert (0 < 2 ^ Z.pos p) by (apply Z.pow_pos_nonneg; lia).
    rewrite !Z.div_div by lia.
    f_equal.
    replace (Z.pos p~0) with (Z.pos p + Z.pos p) by lia.
    rewrite !Z.pow_add_r by lia. reflexivity.
  - rewrite shr_1_m by exact H. reflexivity.
Qed.

(** What [shr_fexp] does to the mantissa and the exponent. *)
Lemma shr_fexp_spec m e l :
  0 <= m ->
  let n := fexp mant_dig max_exp (Zdigits2 m + e) - e in
  let r := shr_fexp mant_dig max_exp m e l in
  (n <= 0 -> shr_m (fst r) = m /\ snd r = e /\
             loc_of_shr_record (fst r) = l) /\
  (0 < n -> shr_m (fst r) = m / 2 ^ n /\ snd r = e + n).
Proof.
  intros Hm n r. subst r. unfold shr_fexp. fold n.
  assert (Hrec : shr_m (shr_record_of_loc m l) = m) by (destruct l as [|[]]; reflexivity).
  assert (Hloc : loc_of_shr_record (shr_record_of_loc m l) = l)
    by (destruct l as [|[]]; reflexivity).
  unfold shr. destruct n as [|p|p] eqn:En; simpl fst; simpl snd.
  - split; [auto|lia].
  - split; [lia|]. intros _. split; [|reflexivity].
    rewrite iter_shr_1_m by (rewrite Hrec; exact Hm). now rewrite Hrec.
  - split; [auto|lia].
Qed.

Lemma fexp_eq x : fexp mant_dig max_exp x = Z.max (x - 53) (-1074).
Proof. reflexivity. Qed.

Lemma round_nearest_even_bounds m l :
  m <= round_nearest_even m l <= m + 1.
Proof.
  unfold round_nearest_even. destruct l as [|[]]; try lia.
  destruct (Z.even m); lia.
Qed.

Lemma div_pow2_digits m n :
  0 <= m -> 0 < n -> Zdigits2 (m / 2 ^ n) <= Z.max (Zdigits2 m - n) 0.
Proof.
  intros Hm Hn.
  assert (Hp : 0 < 2 ^ n) by (apply Z.pow_pos_nonneg; lia).
  pose proof (Zdigits2_lt m Hm) as Hl.
  pose proof (Zdigits2_nonneg m) as Hd.
  assert (Hq : 0 <= m / 2 ^ n) by (apply Z.div_pos; lia).
  destruct (Z.le_gt_cases n (Zdigits2 m)) as [Hle|Hgt].
  - apply Z.le_trans with (Zdigits2 m - n); [|lia].
    apply Zdigits2_le; [exact Hq|lia|].
    apply Z.div_lt_upper_bound; [exact Hp|].
    rewrite <- Z.pow_add_r by lia.
    replace (n + (Zdigits2 m - n)) with (Zdigits2 m) by lia. exact Hl.
  - assert (2 ^ Zdigits2 m <= 2 ^ n) by (apply Z.pow_le_mono_r; lia).
    rewrite Z.div_small by lia. simpl. lia.
Qed.

(** The exponent and the digits after one [shr_fexp]. *)
Lemma shr_fexp_bounds m e l :
  0 <= m ->
  let r := shr_fexp mant_dig max_exp m e l in
  0 <= shr_m (fst r) /\
  snd r <= Z.max e (Z.max (Zdigits2 m + e - 53) (-1074)) /\
  Zdigits2 (shr_m (fst r)) + snd r <= Z.max (Zdigits2 m + e) (-1074).
Proof.
  intros Hm r.
  destruct (shr_fexp_spec m e l Hm) as [H0 H1]. fold r in H0, H1.
  rewrite fexp_eq in H0, H1.
  set (n := Z.max (Zdigits2 m + e - 53) (-1074) - e) in *.
  destruct (Z.le_gt_cases n 0) as [Hn|Hn].
  - destruct (H0 Hn) as (-> & -> & _). lia.
  - destruct (H1 ltac:(lia)) as (-> & ->).
    pose proof (div_pow2_digits m n Hm ltac:(lia)) as Hd.
    assert (0 < 2 ^ n) by (apply Z.pow_pos_nonneg; lia).
    assert (0 <= m / 2 ^ n) by (apply Z.div_pos; lia).
    lia.
Qed.

Lemma binary_round_aux_no_overflow s m e l :
  0 <= m -> e <= 971 -> Zdigits2 m + e <= 1023 ->
  forall s', binary_round_aux mant_dig max_exp s m e l <> S754_infinity s'.
Proof.
  intros Hm He Hd s'. unfold binary_round_aux.
  pose proof (shr_fexp_bounds m e l Hm) as (B1 & B2 & B3).
  destruct (shr_fexp mant_dig max_exp m e l) as [mrs' e'].
  cbn [fst snd] in B1, B2, B3.
  set (m1 := round_nearest_even (shr_m mrs') (loc_of_shr_record mrs')).
  pose proof (round_nearest_even_bounds (shr_m mrs') (loc_of_shr_record mrs'))
    as Hr. fold m1 in Hr.
  assert (Hm1 : 0 <= m1) by lia.
  assert (Hd1 : Zdigits2 m1 <= Zdigits2 (shr_m mrs') + 1).
  { pose proof (Zdigits2_nonneg (shr_m mrs')).
    apply Zdigits2_le; [exact Hm1|lia|].
    pose proof (Zdigits2_lt (shr_m mrs') B1).
    rewrite Z.pow_add_r by lia. lia. }
  pose proof (shr_fexp_bounds m1 e' loc_Exact Hm1) as (C1 & C2 & C3).
  destruct (shr_fexp mant_dig max_exp m1 e' loc_Exact) as [mrs'' e''].
  cbn [fst snd] in C1, C2, C3.
  destruct (shr_m mrs''); try discriminate.
  destruct (e'' <=? max_exp - mant_dig) eqn:E; [discriminate|].
  unfold max_exp, mant_dig in E. lia.
Qed.

Lemma shr_fexp_pos m e l :
  1 <= m -> -1074 <= e ->
  let r := shr_fexp mant_dig max_exp m e l in
  1 <= shr_m (fst r) /\ -1074 <= snd r.
Proof.
  intros Hm He r.
  destruct (shr_fexp_spec m e l ltac:(lia)) as [H0 H1]. fold r in H0, H1.
  rewrite fexp_eq in H0, H1.
  set (n := Z.max (Zdigits2 m + e - 53) (-1074) - e) in *.
  destruct (Z.le_gt_cases n 0) as [Hn|Hn].
  - destruct (H0 Hn) as (-> & -> & _). lia.
  - destruct (H1 ltac:(lia)) as (-> & ->).
    split; [|lia].
    pose proof (Zdigits2_ge m ltac:(lia)) as Hg.
    assert (Hp : 0 < 2 ^ n) by (apply Z.pow_pos_nonneg; lia).
    assert (2 ^ n <= 2 ^ (Zdigits2 m - 1)) by (apply Z.pow_le_mono_r; lia).
    assert (0 < m / 2 ^ n) by (apply Z.div_str_pos; lia).
    lia.
Qed.

Lemma binary_round_aux_nonzero s m e l :
  1 <= m -> -1074 <= e ->
  forall s', binary_round_aux mant_dig max_exp s m e l <> S754_zero s'.
Proof.
  intros Hm He s'. unfold binary_round_aux.
  pose proof (shr_fexp_pos m e l Hm He) as (B1 & B2).
  destruct (shr_fexp mant_dig max_exp m e l) as [mrs' e'].
  cbn [fst snd] in B1, B2.
  set (m1 := round_nearest_even (shr_m mrs') (loc_of_shr_record mrs')).
  pose proof (round_nearest_even_bounds (shr_m mrs') (loc_of_shr_record mrs'))
    as Hr. fold m1 in Hr.
  pose proof (shr_fexp_pos m1 e' loc_Exact ltac:(lia) B2) as (C1 & C2).
  destruct (shr_fexp mant_dig max_exp m1 e' loc_Exact) as [mrs'' e''].
  cbn [fst snd] in C1, C2.
  destruct (shr_m mrs''); [lia| |discriminate].
  destruct (e'' <=? max_exp - mant_dig); discriminate.
Qed.

Lemma binary_round_aux_tiny s l :
  binary_round_aux mant_dig max_exp s 0 (-1074) l =
  match l with
  | loc_Inexact Gt => S754_finite s 1 (-1074)
  | _ => S754_zero s
  end.
Proof. destruct l as [|[]]; reflexivity. Qed.

Lemma div_eucl_div_mod a b : Z.div_eucl a b = (a / b, a mod b).
Proof. unfold Z.div, Z.modulo. destruct (Z.div_eucl a b); reflexivity. Qed.

Lemma div_core_spec m1 m2 :
  0 < m1 -> 0 < m2 ->
  let e := quotient_exponent m1 m2 in
  SFdiv_core_binary mant_dig max_exp m1 0 m2 0 =
  ((m1 * 2 ^ (- e)) / m2, e, new_location m2 ((m1 * 2 ^ (- e)) mod m2)).
Proof.
  intros H1 H2 e. unfold SFdiv_core_binary. cbv zeta.
  rewrite !Z.add_0_r, fexp_eq. rewrite !Z.sub_0_r.
  fold (quotient_exponent m1 m2). fold e.
  assert (He : e <= 0) by (subst e; unfold quotient_exponent; lia).
  replace (0 - e) with (- e) by lia.
  assert (Hm : match - e with
               | 0 => m1
               | Z.pos _ => Z.shiftl m1 (- e)
               | Z.neg _ => 0
               end = m1 * 2 ^ (- e)).
  { destruct (- e) as [|p|p] eqn:E; [lia| |lia].
    apply Z.shiftl_mul_pow2. lia. }
  rewrite Hm, div_eucl_div_mod. reflexivity.
Qed.

Lemma new_location_Gt m r :
  0 < m -> 0 <= r -> m < 2 * r -> new_location m r = loc_Inexact Gt.
Proof.
  intros Hm Hr H. unfold new_location, new_location_even, new_location_odd.
  destruct (Z.even m) eqn:Ev; destruct (r =? 0) eqn:E; try lia.
  - destruct (Z.compare_spec (2 * r) m); try lia. reflexivity.
  - destruct (Z.compare_spec (2 * r + 1) m); try lia. reflexivity.
Qed.

Lemma new_location_not_Gt m r :
  0 < m -> 0 <= r -> 2 * r <= m -> new_location m r <> loc_Inexact Gt.
Proof.
  intros Hm Hr H. unfold new_location, new_location_even, new_location_odd.
  destruct (Z.even m) eqn:Ev; destruct (r =? 0) eqn:E; try discriminate.
  - destruct (Z.compare_spec (2 * r) m); try lia; discriminate.
  - destruct (Z.compare_spec (2 * r + 1) m); try discriminate.
    assert (Ho : Z.odd m = true) by (rewrite <- Z.negb_even, Ev; reflexivity).
    apply Z.odd_spec in Ho as [k Hk]. lia.
Qed.

(** The quotient does not overflow when it is below [2 ^ 1022]. *)
Lemma int_truediv_no_overflow a b :
  b <> 0 -> Z.abs a < 2 ^ 1022 * Z.abs b ->
  exists f, int_truediv a b = Ok f /\ float_finite f = true.
Proof.
  intros Hb Hab.
  pose proof (int_truediv_spec a b Hb) as Hs.
  unfold int_truediv in *.
  destruct (b =? 0) eqn:E; [lia|].
  destruct (a =? 0) eqn:Ea; [eauto|].
  set (m1 := Z.abs a) in *. set (m2 := Z.abs b) in *.
  assert (H1 : 0 < m1) by lia. assert (H2 : 0 < m2) by lia.
  rewrite (div_core_spec m1 m2 H1 H2) in *. cbv zeta in *.
  set (e := quotient_exponent m1 m2) in *.
  set (q := m1 * 2 ^ (- e) / m2) in *.
  set (l := new_location m2 _) in *.
  unfold float_round in *.
  assert (He : -1074 <= e <= 0) by (subst e; unfold quotient_exponent; lia).
  assert (Hp : 0 < 2 ^ (- e)) by (apply Z.pow_pos_nonneg; lia).
  assert (Hq : 0 <= q) by (apply Z.div_pos; nia).
  assert (Hd : Zdigits2 q + e <= 1023).
  { pose proof (Zdigits2_lt m1 ltac:(lia)) as L1.
    pose proof (Zdigits2_ge m2 H2) as G2.
    pose proof (Zdigits2_nonneg m1) as N1.
    pose proof (Zdigits2_nonneg m2) as N2.
    assert (D2 : 1 <= Zdigits2 m2).
    { destruct m2; simpl; lia. }
    assert (D12 : Zdigits2 m1 <= Zdigits2 m2 + 1022).
    { apply Zdigits2_le; [lia|lia|].
      pose proof (Zdigits2_lt m2 ltac:(lia)).
      rewrite Z.pow_add_r by lia. nia. }
    assert (Zdigits2 q <= Zdigits2 m1 - e - Zdigits2 m2 + 1 \/ q = 0) as [H|H].
    { destruct (Z.le_gt_cases 0 (Zdigits2 m1 - e - Zdigits2 m2 + 1))
        as [Hk|Hk].
      - left. apply Zdigits2_le; [exact Hq|exact Hk|].
        apply Z.div_lt_upper_bound; [exact H2|].
        apply Z.lt_le_trans
          with (2 ^ (Zdigits2 m2 - 1) * 2 ^ (Zdigits2 m1 - e - Zdigits2 m2 + 1)).
        + rewrite <- Z.pow_add_r by lia.
          replace (Zdigits2 m2 - 1 + (Zdigits2 m1 - e - Zdigits2 m2 + 1))
            with (Zdigits2 m1 + - e) by lia.
          rewrite Z.pow_add_r by lia. nia.
        + apply Z.mul_le_mono_nonneg_r; [|exact G2].
          apply Z.pow_nonneg. lia.
      - right. apply Z.div_small. split; [nia|].
        assert (2 ^ (Zdigits2 m1 + - e) <= 2 ^ (Zdigits2 m2 - 1))
          by (apply Z.pow_le_mono_r; lia).
        rewrite Z.pow_add_r in H by lia. nia. }
    - lia.
    - rewrite H. simpl. lia. }
  pose proof (binary_round_aux_no_overflow
                (xorb (a <? 0) (b <? 0)) q e l Hq ltac:(lia) Hd) as Hno.
  destruct (binary_round_aux _ _ _ q e l) as [s|s| |s m x];
    [eauto|exfalso; eapply Hno; reflexivity|discriminate Hs|eauto].
Qed.

Lemma shr_fexp_exponent m e l :
  0 <= m ->
  snd (shr_fexp mant_dig max_exp m e l) =
  Z.max e (Z.max (Zdigits2 m + e - 53) (-1074)).
Proof.
  intros Hm.
  destruct (shr_fexp_spec m e l Hm) as [H0 H1].
  rewrite fexp_eq in H0, H1.
  set (n := Z.max (Zdigits2 m + e - 53) (-1074) - e) in *.
  destruct (Z.le_gt_cases n 0) as [Hn|Hn].
  - destruct (H0 Hn) as (_ & -> & _). lia.
  - destruct (H1 ltac:(lia)) as (_ & ->). lia.
Qed.

Lemma binary_round_aux_overflow s m e l :
  1 <= m -> -1074 <= e -> 1025 <= Zdigits2 m + e ->
  binary_round_aux mant_dig max_exp s m e l = S754_infinity s.
Proof.
  intros Hm He Hd. unfold binary_round_aux.
  pose proof (shr_fexp_pos m e l Hm He) as (B1 & B2).
  pose proof (shr_fexp_exponent m e l ltac:(lia)) as B3.
  destruct (shr_fexp mant_dig max_exp m e l) as [mrs' e'].
  cbn [fst snd] in B1, B2, B3.
  set (m1 := round_nearest_even (shr_m mrs') (loc_of_shr_record mrs')).
  pose proof (round_nearest_even_bounds (shr_m mrs') (loc_of_shr_record mrs'))
    as Hr. fold m1 in Hr.
  pose proof (shr_fexp_pos m1 e' loc_Exact ltac:(lia) B2) as (C1 & C2).
  pose proof (shr_fexp_exponent m1 e' loc_Exact ltac:(lia)) as C3.
  destruct (shr_fexp mant_dig max_exp m1 e' loc_Exact) as [mrs'' e''].
  cbn [fst snd] in C1, C2, C3.
  destruct (shr_m mrs'') as [|p|p]; [lia| |lia].
  destruct (e'' <=? max_exp - mant_dig) eqn:E; [|reflexivity].
  unfold max_exp, mant_dig in E. lia.
Qed.

(** A quotient of [2 ^ 1024] or more is too large for a float. *)
Lemma int_truediv_overflow a b :
  b <> 0 -> 2 ^ 1024 * Z.abs b <= Z.abs a ->
  int_truediv a b = Raise OverflowError.
Proof.
  intros Hb Hab. unfold int_truediv.
  destruct (b =? 0) eqn:E; [lia|].
  destruct (a =? 0) eqn:Ea; [lia|].
  set (m1 := Z.abs a) in *. set (m2 := Z.abs b) in *.
  assert (H2 : 0 < m2) by lia.
  assert (H1 : 0 < m1) by lia.
  rewrite (div_core_spec m1 m2 H1 H2). cbv zeta.
  pose proof (Zdigits2_lt m1 ltac:(lia)) as L1.
  pose proof (Zdigits2_ge m2 H2) as G2.
  pose proof (Zdigits2_nonneg m1) as N1.
  assert (D2 : 1 <= Zdigits2 m2) by (destruct m2; simpl; lia).
  assert (D12 : Zdigits2 m2 + 1024 <= Zdigits2 m1).
  { destruct (Z.le_gt_cases (Zdigits2 m2 + 1024) (Zdigits2 m1)) as [H|H];
      [exact H|exfalso].
    assert (2 ^ Zdigits2 m1 <= 2 ^ (1024 + (Zdigits2 m2 - 1)))
      by (apply Z.pow_le_mono_r; lia).
    rewrite Z.pow_add_r in H0 by lia.
    assert (2 ^ 1024 * 2 ^ (Zdigits2 m2 - 1) <= 2 ^ 1024 * m2)
      by (apply Z.mul_le_mono_nonneg_l; lia).
    lia. }
  assert (Ee : quotient_exponent m1 m2 = 0)
    by (unfold quotient_exponent; lia).
  rewrite Ee. change (2 ^ (- 0)) with 1. rewrite Z.mul_1_r.
  set (q := m1 / m2).
  assert (Hq : 2 ^ 1024 <= q).
  { subst q. apply Z.div_le_lower_bound; lia. }
  assert (Hd : 1025 <= Zdigits2 q + 0).
  { assert (0 < 2 ^ 1024) by (apply Z.pow_pos_nonneg; lia).
    pose proof (Zdigits2_lt q ltac:(lia)) as Lq.
    pose proof (Zdigits2_nonneg q) as Nq.
    destruct (Z.le_gt_cases 1025 (Zdigits2 q)) as [H0|H0]; [lia|exfalso].
    assert (2 ^ Zdigits2 q <= 2 ^ 1024) by (apply Z.pow_le_mono_r; lia).
    lia. }
  unfold float_round.
  rewrite binary_round_aux_overflow; [reflexivity| |lia|exact Hd].
  assert (0 < 2 ^ 1024) by (apply Z.pow_pos_nonneg; lia). lia.
Qed.

(** The quotient is rounded to zero exactly when it is at most
    [2 ^ -1075], half of the least positive float. *)
Lemma int_truediv_zero a b :
  a <> 0 -> b <> 0 ->
  ((exists s, int_truediv a b = Ok (S754_zero s)) <->
   Z.abs a * 2 ^ 1075 <= Z.abs b).
Proof.
  intros Ha Hb. unfold int_truediv.
  destruct (b =? 0) eqn:E; [lia|].
  destruct (a =? 0) eqn:Ea; [lia|].
  set (m1 := Z.abs a) in *. set (m2 := Z.abs b) in *.
  assert (H1 : 0 < m1) by lia. assert (H2 : 0 < m2) by lia.
  rewrite (div_core_spec m1 m2 H1 H2). cbv zeta.
  set (e := quotient_exponent m1 m2).
  assert (He : -1074 <= e <= 0) by (subst e; unfold quotient_exponent; lia).
  assert (Hp : 0 < 2 ^ (- e)) by (apply Z.pow_pos_nonneg; lia).
  pose proof (Zdigits2_lt m1 ltac:(lia)) as L1.
  pose proof (Zdigits2_ge m1 H1) as G1.
  pose proof (Zdigits2_lt m2 ltac:(lia)) as L2.
  pose proof (Zdigits2_ge m2 H2) as G2.
  assert (D1 : 1 <= Zdigits2 m1) by (destruct m1; simpl; lia).
  assert (D2 : 1 <= Zdigits2 m2) by (destruct m2; simpl; lia).
  set (s := xorb (a <? 0) (b <? 0)).
  unfold float_round.
  destruct (Z.le_gt_cases 1 (m1 * 2 ^ (- e) / m2)) as [Hq|Hq].
  - (* the quotient has a digit: the result is not zero *)
    pose proof (binary_round_aux_nonzero s _ e
                  (new_location m2 ((m1 * 2 ^ (- e)) mod m2)) Hq ltac:(lia))
      as Hnz.
    split.
    + intros [s' H]. exfalso.
      destruct (binary_round_aux _ _ _ _ _ _) eqn:R; try discriminate.
      injection H as ->. eapply Hnz. reflexivity.
    + intros Hu. exfalso.
      assert (Hlt : m1 * 2 ^ (- e) < m2).
      { assert (2 ^ (- e) <= 2 ^ 1075) by (apply Z.pow_le_mono_r; lia).
        assert (2 ^ (- e) < 2 ^ 1075) by (apply Z.pow_lt_mono_r; lia).
        nia. }
      rewrite Z.div_small in Hq by nia. lia.
  - (* the quotient is below one unit of the last place *)
    assert (Hq0 : m1 * 2 ^ (- e) / m2 = 0).
    { assert (0 <= m1 * 2 ^ (- e) / m2) by (apply Z.div_pos; nia). lia. }
    assert (Hsmall : m1 * 2 ^ (- e) < m2).
    { apply Z.div_small_iff in Hq0 as [H|H]; lia. }
    assert (Hr : (m1 * 2 ^ (- e)) mod m2 = m1 * 2 ^ (- e))
      by (apply Z.mod_small; nia).
    assert (Ee : e = -1074).
    { destruct (Z.eq_dec e (-1074)) as [H|H]; [exact H|exfalso].
      assert (Hx : e = 0 \/ e = Zdigits2 m1 - Zdigits2 m2 - 53)
        by (subst e; unfold quotient_exponent in *; lia).
      assert (Hd : Zdigits2 m2 + 52 <= Zdigits2 m1 - 1 + - e)
        by (subst e; unfold quotient_exponent in *; lia).
      assert (2 ^ (Zdigits2 m2 + 52) <= 2 ^ (Zdigits2 m1 - 1 + - e)).
      { apply Z.pow_le_mono_r; lia. }
      rewrite (Z.pow_add_r 2 (Zdigits2 m1 - 1) (- e)) in H0 by lia.
      assert (2 ^ Zdigits2 m2 <= 2 ^ (Zdigits2 m2 + 52))
        by (apply Z.pow_le_mono_r; lia).
      assert (2 ^ (Zdigits2 m1 - 1) * 2 ^ (- e) <= m1 * 2 ^ (- e))
        by (apply Z.mul_le_mono_nonneg_r; lia).
      lia. }
    rewrite Hq0, Hr, Ee in *.
    rewrite binary_round_aux_tiny.
    change (- -1074) with 1074 in *.
    assert (P : 2 ^ 1075 = 2 * 2 ^ 1074) by reflexivity.
    destruct (Z.le_gt_cases (2 * (m1 * 2 ^ 1074)) m2) as [Hh|Hh].
    + pose proof (new_location_not_Gt m2 (m1 * 2 ^ 1074) H2 ltac:(nia) Hh) as Hl.
      split; [intros _; lia|]. intros _.
      destruct (new_location m2 (m1 * 2 ^ 1074)) as [|[]]; eauto.
      contradiction.
    + rewrite (new_location_Gt m2 (m1 * 2 ^ 1074) H2 ltac:(nia) Hh).
      split; [intros [s' H]; discriminate|lia].
Qed.

(** ** Metric getters *)

Lemma py_truediv_ok a b : ~ (b == 0)%Q -> py_truediv a b = Ok (a / b)%Q.
Proof.
  intros Hb. unfold py_truediv.
  destruct (Qeq_bool b 0) eqn:E; [|reflexivity].
  apply Qeq_bool_iff in E. contradiction.
Qed.

Lemma max_total_nonzero t : ~ (inject_Z (Z.max t 1) == 0)%Q.
Proof.
  unfold Qeq, inject_Z. simpl. lia.
Qed.

Lemma percentage_spec c : percentage c = Ok (spec_percentage c).
Proof.
  unfold percentage, spec_percentage.
  destruct (total c) as [t|]; [|reflexivity].
  apply py_truediv_ok, max_total_nonzero.
Qed.

Lemma advance_iter_current n c :
  current (Nat.iter n advance c) = current c + Z.of_nat n.
Proof.
  induction n as [|n IH]; simpl; [lia|]. rewrite IH. lia.
Qed.

Lemma advance_iter_total n c : total (Nat.iter n advance c) = total c.
Proof. induction n as [|n IH]; simpl; congruence. Qed.

Lemma counter_init_fresh now d l rwd t c :
  counter_init now d l rwd t = Ok c ->
  current c = 0 /\ done c = false /\ data c = d /\
  remove_when_done c = rwd /\ start_time c = now /\ label c = l.
Proof.
  unfold counter_init. intros H.
  destruct t as [t|].
  - injection H as <-. simpl. repeat split.
  - destruct (py_len d) as [n|e].
    + injection H as <-. simpl. repeat split.
    + destruct e; try discriminate. injection H as <-. simpl. repeat split.
Qed.

Lemma percentage_float_known c t :
  total c = Some t ->
  percentage_float c = Raise OverflowError \/
  exists f, percentage_float c = Ok (PyFloat f) /\ float_finite f = true.
Proof.
  intros Ht. unfold percentage_float. rewrite Ht.
  pose proof (int_truediv_spec (current c * 100) (Z.max t 1) ltac:(lia)) as H.
  destruct (int_truediv _ _) as [f|e]; simpl.
  - right. eauto.
  - left. now subst e.
Qed.

Lemma float_of_int_100 :
  float_of_int 100 = Ok (S754_finite false 7036874417766400 (-46)).
Proof. reflexivity. Qed.

Lemma SFsub_not_nan x y :
  float_finite x = true -> float_finite y = true ->
  SFsub mant_dig max_exp x y <> S754_nan.
Proof.
  intros Hx Hy.
  destruct x as [sx|sx| |sx mx ex]; try discriminate Hx;
    destruct y as [sy|sy| |sy my ey]; try discriminate Hy; simpl.
  - destruct sx, sy; discriminate.
  - discriminate.
  - discriminate.
  - apply binary_normalize_not_nan.
Qed.

Lemma time_left_spec now c t f :
  total c = Some t -> percentage_float c = Ok (PyFloat f) ->
  py_not (PyFloat f) = false ->
  time_left now c = spec_time_left (time_elapsed now c) f.
Proof.
  intros Ht Hp Hz.
  destruct (percentage_float_known c t Ht) as [H|(f' & Hf' & Hfin)];
    [congruence|].
  assert (f' = f) by congruence. subst f'.
  unfold time_left, spec_time_left. rewrite Ht, Hp. cbn [res_bind].
  rewrite Hz. unfold int_sub. rewrite float_of_int_100. cbn [res_bind].
  set (h := SFsub _ _ _ f).
  assert (Hh : h <> S754_nan) by (apply SFsub_not_nan; [reflexivity|exact Hfin]).
  rewrite (timedelta_mul_float _ h Hh).
  destruct (float_finite h); [|reflexivity].
  cbv zeta. set (us1 := round_half_even (_ * _)).
  unfold checked at 1.
  destruct (in_timedelta_range us1); [|reflexivity].
  cbn [res_bind andb].
  destruct f as [s|s| |s m e]; try discriminate.
  rewrite timedelta_truediv_float. unfold checked.
  set (us2 := round_half_even (_ / _)).
  destruct (in_timedelta_range us2); reflexivity.
Qed.

Lemma spec_time_left_raises elapsed f e :
  spec_time_left elapsed f = Raise e -> e = OverflowError.
Proof.
  unfold spec_time_left. rewrite float_of_int_100. cbv zeta.
  destruct (float_finite _); [|congruence].
  destruct (_ && _); [discriminate|congruence].
Qed.

(** [time_left], case by case. *)
Lemma time_left_cases now c :
  match total c with
  | None => time_left now c = Ok None
  | Some t =>
      match percentage_float c with
      | Raise e => e = OverflowError /\ time_left now c = Raise OverflowError
      | Ok p =>
          exists f, p = PyFloat f /\ float_finite f = true /\
            time_left now c =
            if py_not p then Ok None
            else spec_time_left (time_elapsed now c) f
      end
  end.
Proof.
  destruct (total c) as [t|] eqn:Ht; [|unfold time_left; now rewrite Ht].
  destruct (percentage_float_known c t Ht) as [H|(f & Hf & Hfin)].
  - rewrite H. split; [reflexivity|].
    unfold time_left. now rewrite Ht, H.
  - rewrite Hf. exists f. split; [reflexivity|]. split; [exact Hfin|].
    destruct (py_not (PyFloat f)) eqn:Hz.
    + unfold time_left. rewrite Ht, Hf. cbn [res_bind]. now rewrite Hz.
    + now apply (time_left_spec now c t f).
Qed.

Lemma time_left_raises now c e :
  time_left now c = Raise e -> e = OverflowError.
Proof.
  intros H. pose proof (time_left_cases now c) as Hc.
  destruct (total c) as [t|]; [|congruence].
  destruct (percentage_float c) as [p|e'].
  - destruct Hc as (f & _ & _ & Hc). rewrite Hc in H.
    destruct (py_not p); [discriminate|].
    eapply spec_time_left_raises. exact H.
  - destruct Hc as [_ Hc]. congruence.
Qed.

(** The percentage of a known total is a zero exactly when the quotient is
    at most [2 ^ -1075]: when nothing is completed, or when the share that
    is completed is too small for a float. *)
Lemma percentage_float_zero c t p :
  total c = Some t -> percentage_float c = Ok p ->
  (py_not p = true <-> Z.abs (current c * 100) * 2 ^ 1075 <= Z.max t 1).
Proof.
  intros Ht Hp. unfold percentage_float in Hp. rewrite Ht in Hp.
  destruct (Z.eq_dec (current c * 100) 0) as [Hz|Hz].
  - rewrite Hz in *. unfold int_truediv in Hp.
    destruct (Z.max t 1 =? 0) eqn:E; [lia|].
    simpl in Hp. injection Hp as <-. simpl. split; [lia|reflexivity].
  - pose proof (int_truediv_zero (current c * 100) (Z.max t 1) Hz ltac:(lia))
      as Hiff.
    replace (Z.abs (Z.max t 1)) with (Z.max t 1) in Hiff by lia.
    rewrite <- Hiff.
    destruct (int_truediv (current c * 100) (Z.max t 1)) as [f|e];
      [|discriminate].
    simpl in Hp. injection Hp as <-.
    split.
    + destruct f as [s|s| |s m x]; try discriminate. eauto.
    + intros [s H]. injection H as ->. reflexivity.
Qed.

(** C2, as the claim states it, fails: [time_left] can raise.  The counter
    of [pb(data, total=10 ** 14)] is read one second after it was created,
    with one item completed.  The total is known and the percentage is the
    float nearest to [1e-12], not a zero; the estimate is near [10 ** 14]
    seconds, more than a timedelta holds, and the division of the
    timedelta by the percentage raises [OverflowError]. *)
Lemma C2_counterexample :
  total slow_counter = Some (10 ^ 14) /\
  current slow_counter = 1 /\
  time_elapsed 6 slow_counter = 1000000 /\
  percentage_float slow_counter =
    Ok (PyFloat (S754_finite false 4951760157141521 (-92))) /\
  py_not (PyFloat (S754_finite false 4951760157141521 (-92))) = false /\
  time_left 6 slow_counter = Raise OverflowError.
Proof. repeat split; vm_compute; reflexivity. Qed.

(** C2 (amended): [time_left] raises nothing but [OverflowError]; without
    a total it returns [None]; with a total it returns [None] exactly when
    the percentage, a float, is a zero, which is the case exactly when
    [current * 100 / max(total, 1)] is at most [2 ^ -1075] in magnitude
    (so for [current = 0], and for a share too small for a float);
    otherwise it is [elapsed * (100 - percentage) / percentage] in the
    arithmetic of timedeltas, product and quotient each rounded to the
    nearest microsecond, or [OverflowError] when the percentage or one of
    the two timedeltas is out of range.  In the unknown case the result is
    [None], never a number. *)
Theorem C2_time_left (now : Q) (c : ProgressBarCounter) :
  (forall e, time_left now c = Raise e -> e = OverflowError) /\
  (total c = None -> time_left now c = Ok None) /\
  (forall t, total c = Some t ->
     (raises (percentage_float c) -> time_left now c = Raise OverflowError) /\
     (forall p, percentage_float c = Ok p ->
        exists f, p = PyFloat f /\ float_finite f = true /\
          (py_not p = true <->
           Z.abs (current c * 100) * 2 ^ 1075 <= Z.max t 1) /\
          (py_not p = true -> time_left now c = Ok None) /\
          (py_not p = false ->
           ~ (float_value f == 0)%Q /\
           time_left now c = spec_time_left (time_elapsed now c) f))) /\
  (forall r, time_left now c = Ok r ->
     (r = None <->
      total c = None \/
      exists p, percentage_float c = Ok p /\ py_not p = true)).
Proof.
  pose proof (time_left_cases now c) as Hc.
  split; [intros e; apply time_left_raises|].
  split; [intros Ht; now rewrite Ht in Hc|].
  split.
  - intros t Ht. rewrite Ht in Hc. split.
    + intros Hr. destruct (percentage_float c); [contradiction|tauto].
    + intros p Hp. rewrite Hp in Hc. destruct Hc as (f & -> & Hfin & Hc).
      exists f. split; [reflexivity|]. split; [exact Hfin|].
      split; [exact (percentage_float_zero c t _ Ht Hp)|].
      split; intros Hz; rewrite Hz in Hc; [exact Hc|].
      split; [|exact Hc].
      destruct f as [s|s| |s m x]; try discriminate.
      apply float_value_nonzero.
  - intros r Hr. destruct (total c) as [t|] eqn:Ht.
    + destruct (percentage_float c) as [p|e] eqn:Hp.
      * destruct Hc as (f & -> & Hfin & Hc). rewrite Hc in Hr.
        destruct (py_not (PyFloat f)) eqn:Hz.
        -- injection Hr as <-. split; [|reflexivity]. intros _. right. eauto.
        -- split.
           ++ intros ->. exfalso. unfold spec_time_left in Hr.
              rewrite float_of_int_100 in Hr. cbv zeta in Hr.
              repeat match type of Hr with
                     | context [if ?b then _ else _] => destruct b
                     end; discriminate.
           ++ intros [H|(p' & Hp' & Hz')]; [discriminate|].
              injection Hp' as <-. congruence.
      * destruct Hc as [_ Hc]. congruence.
    + rewrite Hc in Hr. injection Hr as <-. split; auto.
Qed.

(** A total of [10 ** 400]: one completed item is a share too small for a
    float.  The exact quotient is positive, the getter's float is zero,
    and [time_left] is [None]. *)
Lemma time_left_underflow :
  total endless_counter = Some (10 ^ 400) /\
  (exists p, percentage endless_counter = Ok p /\ (0 < p)%Q) /\
  percentage_float endless_counter = Ok (PyFloat (S754_zero false)) /\
  time_left 6 endless_counter = Ok None.
Proof.
  split; [reflexivity|]. split.
  - eexists. split; [reflexivity|]. vm_compute. reflexivity.
  - split; vm_compute; reflexivity.
Qed.

(** C3, as the claim states it, fails for N = 0: the counter of an empty
    list has total 0, takes no step, and its percentage is 0, not 100. *)
Lemma C3_counterexample :
  counter_init 0 (Some (list_iterable [])) "" false None = Ok empty_list_counter /\
  total empty_list_counter = Some 0 /\
  percentage (advanced 0 empty_list_counter) = Ok 0%Q /\
  ~ percentage_is_100 (advanced 0 empty_list_counter).
Proof.
  repeat split.
  intros [p [Hp H100]]. vm_compute in Hp. injection Hp as <-.
  vm_compute in H100. discriminate.
Qed.

(** C3 (amended): a counter created with total N, for N at least 1, reports
    a percentage of 100 after exactly N steps [self.current += 1]. *)
Theorem C3_percentage_after_total_steps (now : Q) (d : option Iterable)
    (l : string) (rwd : bool) (t : option Z) (c : ProgressBarCounter) (N : Z) :
  counter_init now d l rwd t = Ok c ->
  total c = Some N ->
  1 <= N ->
  percentage_is_100 (advanced N c).
Proof.
  intros Hinit Htot HN.
  apply counter_init_fresh in Hinit as (Hcur & _).
  exists (spec_percentage (advanced N c)). split; [apply percentage_spec|].
  unfold spec_percentage, advanced.
  rewrite advance_iter_total, Htot, advance_iter_current, Hcur.
  rewrite Z2Nat.id by lia. rewrite Z.max_l by lia.
  unfold Qeq, Qdiv, Qmult, Qinv, inject_Z. simpl.
  destruct N as [|N|N]; try lia. simpl. lia.
Qed.

Lemma C3_percentage_after_total_steps_witness :
  percentage_is_100 (advanced 3 (mkCounter 0%Q (Some (list_iterable [7; 8; 9]))
                                   0 "" false false (Some 3))).
Proof.
  apply (C3_percentage_after_total_steps 0%Q (Some (list_iterable [7; 8; 9]))
           "" false None _ 3).
  - reflexivity.
  - reflexivity.
  - lia.
Defined.

(** ** list.remove *)

Lemma list_remove_elem x l : x ∈ l -> exists l', list_remove x l = Some l'.
Proof.
  induction l as [|y l IH]; intros Hin.
  - inversion Hin.
  - simpl. destruct (decide (x = y)) as [->|Hne]; [eauto|].
    apply elem_of_cons in Hin as [?|Hin]; [contradiction|].
    destruct (IH Hin) as [l' ->]. simpl. eauto.
Qed.

Lemma list_remove_not_elem x l : x ∉ l -> list_remove x l = None.
Proof.
  induction l as [|y l IH]; intros Hn; [reflexivity|].
  simpl. apply not_elem_of_cons in Hn as [Hne Hn].
  destruct (decide (x = y)); [contradiction|]. now rewrite IH.
Qed.

Lemma list_remove_sub x l l' y : list_remove x l = Some l' -> y ∈ l' -> y ∈ l.
Proof.
  revert l'. induction l as [|z l IH]; intros l' H Hy; [discriminate|].
  simpl in H. destruct (decide (x = z)).
  - injection H as <-. now apply elem_of_cons; right.
  - destruct (list_remove x l) as [l0|]; [|discriminate].
    injection H as <-. apply elem_of_cons in Hy as [->|Hy].
    + apply elem_of_cons; now left.
    + apply elem_of_cons; right. eapply IH; eauto.
Qed.

Lemma list_remove_other x l l' y :
  list_remove x l = Some l' -> y ∈ l -> y <> x -> y ∈ l'.
Proof.
  revert l'. induction l as [|z l IH]; intros l' H Hy Hne; [discriminate|].
  simpl in H. destruct (decide (x = z)) as [->|Hxz].
  - injection H as <-. apply elem_of_cons in Hy as [?|?]; [contradiction|assumption].
  - destruct (list_remove x l) as [l0|]; [|discriminate].
    injection H as <-. apply elem_of_cons in Hy as [->|Hy].
    + apply elem_of_cons; now left.
    + apply elem_of_cons; right. eapply IH; eauto.
Qed.

Lemma list_remove_NoDup x l l' :
  list_remove x l = Some l' -> NoDup l -> NoDup l' /\ x ∉ l'.
Proof.
  revert l'. induction l as [|z l IH]; intros l' H Hnd; [discriminate|].
  simpl in H. apply NoDup_cons in Hnd as [Hz Hnd].
  destruct (decide (x = z)) as [->|Hxz].
  - injection H as <-. auto.
  - destruct (list_remove x l) as [l0|] eqn:E; [|discriminate].
    injection H as <-. destruct (IH l0 eq_refl Hnd) as [Hnd0 Hx0].
    split.
    + apply NoDup_cons. split; [|assumption].
      intros Hz0. apply Hz. eapply list_remove_sub; eauto.
    + apply not_elem_of_cons. auto.
Qed.

Lemma list_remove_Forall (P : nat -> Prop) x l l' :
  list_remove x l = Some l' -> Forall P l -> Forall P l'.
Proof.
  intros H HP. apply Forall_forall. intros y Hy.
  rewrite Forall_forall in HP. apply HP. eapply list_remove_sub; eauto.
Qed.

Lemma list_remove_length x l l' :
  list_remove x l = Some l' -> length l = S (length l').
Proof.
  revert l'. induction l as [|z l IH]; intros l' H; [discriminate|].
  simpl in H. destruct (decide (x = z)).
  - now injection H as <-.
  - destruct (list_remove x l) as [l0|]; [|discriminate].
    injection H as <-. simpl. f_equal. now apply IH.
Qed.

(** ** The store *)

Lemma upd_obj_same a f w : objs (upd_obj a f w) a = f (objs w a).
Proof. simpl. now rewrite decide_True. Qed.

Lemma upd_obj_other a f w i : i <> a -> objs (upd_obj a f w) i = objs w i.
Proof. intros H. simpl. now rewrite decide_False. Qed.

Lemma objs_log e w : objs (log e w) = objs w.
Proof. reflexivity. Qed.

Lemma count_occ_snoc (l : list Event) (e x : Event) :
  count_occ Event_eq_dec (l ++ [e]) x =
  (count_occ Event_eq_dec l x + if decide (e = x) then 1 else 0)%nat.
Proof.
  rewrite count_occ_app. simpl.
  destruct (Event_eq_dec e x), (decide (e = x)); congruence.
Qed.

Lemma cleanups_log e self w :
  cleanups self (log e w) =
  (cleanups self w + if decide (e = EvCleanup self) then 1 else 0)%nat.
Proof. unfold cleanups. simpl. apply count_occ_snoc. Qed.

(** ** The finally block *)

Lemma cleanup_unfold self w :
  cleanup self w =
  let w2 := upd_obj self (set_done true) (log (EvCleanup self) w) in
  if remove_when_done (objs w self) then
    match list_remove self (counters (bar w)) with
    | Some l => (Ok tt, set_counters l w2)
    | None => (Raise ValueError, w2)
    end
  else (Ok tt, w2).
Proof.
  unfold cleanup, bind, modify, gets, ret. simpl.
  rewrite decide_True by reflexivity. simpl.
  destruct (remove_when_done (objs w self)); reflexivity.
Qed.

Lemma cleanup_effect self w rc w' :
  cleanup self w = (rc, w') ->
  cleanups self w' = S (cleanups self w) /\
  done (objs w' self) = true /\
  current (objs w' self) = current (objs w self) /\
  total (objs w' self) = total (objs w self) /\
  next_obj w' = next_obj w /\
  rt w' = rt w /\
  (rc = Ok tt \/ rc = Raise ValueError) /\
  (remove_when_done (objs w self) = false ->
     rc = Ok tt /\ counters (bar w') = counters (bar w)) /\
  (remove_when_done (objs w self) = true ->
     match list_remove self (counters (bar w)) with
     | Some l => rc = Ok tt /\ counters (bar w') = l
     | None => rc = Raise ValueError /\ counters (bar w') = counters (bar w)
     end).
Proof.
  rewrite cleanup_unfold. cbv zeta.
  assert (Hc : forall v : World,
             cleanups self (upd_obj self (set_done true) (log (EvCleanup self) v))
             = S (cleanups self v)).
  { intros v. unfold cleanups. simpl. rewrite count_occ_snoc.
    rewrite decide_True by reflexivity. lia. }
  destruct (remove_when_done (objs w self)) eqn:Hr.
  - destruct (list_remove self (counters (bar w))) as [l|] eqn:Hl;
      intros H; injection H as <- <-; simpl;
      rewrite ?decide_True by reflexivity; simpl;
      (split; [apply Hc|]); repeat split; auto; discriminate.
  - intros H; injection H as <- <-; simpl;
      rewrite ?decide_True by reflexivity; simpl;
      (split; [apply Hc|]); repeat split; auto; discriminate.
Qed.

Lemma cleanup_other self w rc w' a :
  cleanup self w = (rc, w') -> a <> self -> objs w' a = objs w a.
Proof.
  rewrite cleanup_unfold. cbv zeta. intros H Hne.
  destruct (remove_when_done (objs w self));
    [destruct (list_remove self (counters (bar w)))|];
    injection H as <- <-; simpl; now rewrite decide_False.
Qed.

Lemma leave_try_inv self pending w r g w' :
  leave_try self pending w = (r, g, w') ->
  g = closed_gen self /\
  exists rc, cleanup self w = (rc, w') /\
    r = match rc, pending with
        | Raise e, _ => Raised e
        | Ok _, None => Returned
        | Ok _, Some e => Raised e
        end.
Proof.
  unfold leave_try. destruct (cleanup self w) as [[u|e] w2] eqn:E;
    intros H; injection H as <- <- <-; split; try reflexivity;
    eexists; split; reflexivity.
Qed.

(** ** Turns of the loop *)

Lemma iter_frame_refl self w : iter_frame self w w.
Proof. unfold iter_frame. repeat split. Qed.

Lemma iter_frame_trans self w1 w2 w3 :
  iter_frame self w1 w2 -> iter_frame self w2 w3 -> iter_frame self w1 w3.
Proof.
  unfold iter_frame. intros (?&?&?&?&?&?) (?&?&?&?&?&?).
  repeat split; congruence.
Qed.

Lemma iter_frame_advance self w : iter_frame self w (upd_obj self advance w).
Proof.
  unfold iter_frame. simpl. rewrite decide_True by reflexivity.
  repeat split.
Qed.

Lemma invalidate_inv w r w' :
  invalidate w = (r, w') ->
  (app (bar w) = None /\ r = Raise AttributeError /\ w' = w) \/
  (app (bar w) <> None /\ r = Ok tt /\ w' = log (EvScheduled AppInvalidate) w).
Proof.
  unfold invalidate. destruct (app (bar w)) eqn:E; intros H;
    injection H as <- <-; [right|left]; repeat split; congruence.
Qed.

Lemma iter_frame_scheduled self w :
  iter_frame self w (log (EvScheduled AppInvalidate) w).
Proof.
  unfold iter_frame. rewrite cleanups_log. simpl.
  repeat split; lia.
Qed.

Lemma loop_turn_inv self d pos w r g w' :
  loop_turn self d pos w = (r, g, w') ->
  (exists x, r = Yielded x /\ it_next d pos = IYield x /\
     g = {| gen_self := self; gen_state := GenSuspended d (S pos) |} /\
     w' = log (EvScheduled AppInvalidate) (upd_obj self advance w) /\
     app (bar w) <> None) \/
  exists pending, ended self pending w r g w'.
Proof.
  unfold loop_turn. destruct (it_next d pos) as [x| |e] eqn:Hn.
  - destruct (invalidate (upd_obj self advance w)) as [[u|e] w2] eqn:Hi.
    + apply invalidate_inv in Hi as [(_&?&_)|(Ha&_&->)]; [discriminate|].
      intros H; injection H as <- <- <-. left. exists x. repeat split; auto.
    + apply invalidate_inv in Hi as [(_&_&->)|(_&?&_)]; [|discriminate].
      intros H. right. exists (Some e), (upd_obj self advance w).
      split; [apply iter_frame_advance|]. split; [|assumption].
      rewrite upd_obj_same. simpl.
      replace (current (objs w self) + 1 - current (objs w self)) with 1 by lia.
      set_solver.
  - intros H. right. exists None, w. split; [apply iter_frame_refl|].
    split; [|assumption]. rewrite Z.sub_diag. set_solver.
  - intros H. right. exists (Some e), w. split; [apply iter_frame_refl|].
    split; [|assumption]. rewrite Z.sub_diag. set_solver.
Qed.

Lemma gen_next_inv g w r g' w' :
  gen_state g <> GenClosed ->
  gen_next g w = (r, g', w') ->
  (exists x, r = Yielded x /\ gen_self g' = gen_self g /\ suspended g' /\
     w' = log (EvScheduled AppInvalidate) (upd_obj (gen_self g) advance w) /\
     app (bar w) <> None) \/
  exists pending, ended (gen_self g) pending w r g' w'.
Proof.
  intros Hopen. unfold gen_next.
  destruct (gen_state g) as [|d pos|] eqn:Hs; [| |contradiction].
  - destruct (data (objs w (gen_self g))) as [d|].
    + intros H. apply loop_turn_inv in H as [(x&->&_&->&->&Ha)|H]; [left|now right].
      exists x. repeat split; auto. now exists d, 1%nat.
    + intros H. right. exists None, w. split; [apply iter_frame_refl|].
      split; [|assumption]. rewrite Z.sub_diag. set_solver.
  - intros H. apply loop_turn_inv in H as [(x&->&_&->&->&Ha)|H]; [left|now right].
    exists x. repeat split; auto. now exists d, (S pos).
Qed.

Lemma ended_not_yielded self pending w r g w' x :
  ended self pending w r g w' -> r <> Yielded x.
Proof.
  intros (wm & _ & _ & H). apply leave_try_inv in H as (_ & rc & _ & ->).
  destruct rc, pending; discriminate.
Qed.

Lemma gen_throw_inv e g w r g' w' :
  suspended g ->
  gen_throw e g w = (r, g', w') ->
  ended (gen_self g) (Some e) w r g' w'.
Proof.
  intros (d & pos & Hs). unfold gen_throw. rewrite Hs. intros H.
  exists w. split; [apply iter_frame_refl|].
  split; [|assumption]. rewrite Z.sub_diag. set_solver.
Qed.

Lemma gen_close_inv g w r g' w' :
  suspended g ->
  gen_close g w = (r, g', w') ->
  exists r0, ended (gen_self g) (Some GeneratorExit) w r0 g' w' /\
    r = match r0 with Raised GeneratorExit => Returned | _ => r0 end.
Proof.
  intros Hs. unfold gen_close.
  destruct (gen_throw GeneratorExit g w) as [[r0 g0] w0] eqn:E.
  apply gen_throw_inv in E; [|assumption].
  intros H. exists r0.
  destruct r0 as [x| |e]; [| |destruct e]; injection H as <- <- <-; auto.
Qed.

Lemma gen_closed_idle self how :
  finish how (closed_gen self) =
  fun w => (match how with Fail e => Raised e | _ => Returned end,
            closed_gen self, w).
Proof. destruct how; reflexivity. Qed.

(** [k] yielding turns: the generator stays the one of [self], stands at
    the [yield] unless [k] is 0, [current] has grown by [k]. *)
Lemma pull_inv k : forall g w xs g' w',
  gen_state g <> GenClosed ->
  pull k g w = Some (xs, g', w') ->
  gen_self g' = gen_self g /\
  length xs = k /\
  iter_frame (gen_self g) w w' /\
  current (objs w' (gen_self g)) = current (objs w (gen_self g)) + Z.of_nat k /\
  done (objs w' (gen_self g)) = done (objs w (gen_self g)) /\
  (k = 0%nat -> g' = g /\ w' = w) /\
  ((1 <= k)%nat -> suspended g' /\ app (bar w) <> None).
Proof.
  induction k as [|k IH]; intros g w xs g' w' Hopen H.
  - injection H as <- <- <-. repeat split; auto using iter_frame_refl; lia.
  - simpl in H.
    destruct (gen_next g w) as [[r g1] w1] eqn:Hn.
    destruct r as [x| |e]; try discriminate.
    destruct (pull k g1 w1) as [[[xs2 g2] w2]|] eqn:Hp; [|discriminate].
    injection H as <- <- <-.
    apply gen_next_inv in Hn; [|assumption].
    destruct Hn as [(x'&_&Hself&Hsusp&->&Ha)|He].
    2:{ destruct He as [pending He]. exfalso. eapply ended_not_yielded; eauto. }
    assert (Hopen1 : gen_state g1 <> GenClosed).
    { destruct Hsusp as (d&pos&->). discriminate. }
    destruct (IH _ _ _ _ _ Hopen1 Hp) as (Hs2&Hlen&Hfr&Hcur&Hdone&Hz&Hpos).
    rewrite Hself in *.
    split; [assumption|]. split; [simpl; lia|].
    split.
    { eapply iter_frame_trans; [|exact Hfr].
      eapply iter_frame_trans; [apply iter_frame_advance|apply iter_frame_scheduled]. }
    split.
    { rewrite Hcur, objs_log, upd_obj_same. simpl. lia. }
    split.
    { now rewrite Hdone, objs_log, upd_obj_same. }
    split; [lia|]. intros _. split; [|assumption].
    destruct k as [|k]; [|apply Hpos; lia].
    destruct (Hz eq_refl) as [-> _]. assumption.
Qed.

(** ** The end of an iteration *)

Lemma finish_ended how g w r g' w' :
  finish how g w = (r, g', w') ->
  gen_state g <> GenClosed ->
  (how = Exhaust -> forall x, r <> Yielded x) ->
  (how <> Exhaust -> suspended g) ->
  exists pending r0, ended (gen_self g) pending w r0 g' w' /\
    match how with
    | Exhaust => r = r0
    | Abandon => pending = Some GeneratorExit /\
                 r = match r0 with Raised GeneratorExit => Returned | _ => r0 end
    | Fail e => pending = Some e /\ r = r0
    end.
Proof.
  intros H Hopen Hny Hsusp. destruct how as [| |e]; simpl in H.
  - apply gen_next_inv in H; [|assumption].
    destruct H as [(x&->&_)|[pending H]]; [exfalso; now apply (Hny eq_refl x)|].
    now exists pending, r.
  - apply gen_close_inv in H; [|apply Hsusp; discriminate].
    destruct H as (r0 & H & ->). now exists (Some GeneratorExit), r0.
  - apply gen_throw_inv in H; [|apply Hsusp; discriminate].
    now exists (Some e), r.
Qed.

Lemma ended_effect self pending w r g w' :
  ended self pending w r g w' ->
  g = closed_gen self /\
  cleanups self w' = S (cleanups self w) /\
  done (objs w' self) = true /\
  total (objs w' self) = total (objs w self) /\
  current (objs w' self) - current (objs w self) ∈ [0; 1] /\
  next_obj w' = next_obj w /\
  (remove_when_done (objs w self) = false ->
     counters (bar w') = counters (bar w)) /\
  (remove_when_done (objs w self) = true -> self ∈ counters (bar w) ->
     list_remove self (counters (bar w)) = Some (counters (bar w'))) /\
  ((remove_when_done (objs w self) = true -> self ∈ counters (bar w)) ->
     r = match pending with
         | None => Returned
         | Some e => Raised e
         end).
Proof.
  intros (wm & (Hc&Hn&Hx&Hr&Ht&Hd) & Hcur & H).
  apply leave_try_inv in H as (-> & rc & Hcl & ->).
  pose proof (cleanup_effect _ _ _ _ Hcl) as (E1&E2&E3&E4&E5&E6&E7&E8&E9).
  split; [reflexivity|]. split; [congruence|]. split; [assumption|].
  split; [congruence|]. split; [now rewrite E3|]. split; [congruence|].
  rewrite Hr, Hc in *.
  split; [intros Hf; now apply E8|].
  split.
  { intros Hrw Hin. specialize (E9 Hrw).
    destruct (list_remove_elem _ _ Hin) as [l Hl]. rewrite Hl in *.
    now destruct E9 as [_ ->]. }
  intros Hreg.
  assert (rc = Ok tt) as ->; [|reflexivity].
  destruct (remove_when_done (objs w self)) eqn:Hrw.
  - specialize (E9 eq_refl).
    destruct (list_remove_elem _ _ (Hreg eq_refl)) as [l Hl]. rewrite Hl in E9.
    tauto.
  - now apply E8.
Qed.

(** C1: iterating the wrapper of a registered counter runs the cleanup
    exactly once, whichever way the iteration ends (the source is exhausted
    or fails, the caller abandons the loop, an exception is thrown in at
    the [yield]): during the [k] yielding turns no cleanup has run and the
    counter is in the registry; after the end the cleanup has run once,
    [done] is [True], the generator is finished and further calls on it
    change nothing; a counter with [remove_when_done] is then absent from
    the registry, any other leaves the registry as it was. *)
Theorem C1_cleanup_exactly_once (w0 : World) (self k : nat) (how : Ending)
    (xs : list Item) (g1 g2 : Generator) (w1 w2 : World) (r : GenResult) :
  registry_ok w0 ->
  self ∈ counters (bar w0) ->
  pull k (__iter__ self) w0 = Some (xs, g1, w1) ->
  finish how g1 w1 = (r, g2, w2) ->
  (how = Exhaust -> forall x, r <> Yielded x) ->
  (how <> Exhaust -> (1 <= k)%nat) ->
  (forall j ys g w, (j <= k)%nat ->
     pull j (__iter__ self) w0 = Some (ys, g, w) ->
     cleanups self w = cleanups self w0 /\ self ∈ counters (bar w) /\
     done (objs w self) = done (objs w0 self)) /\
  cleanups self w2 = S (cleanups self w0) /\
  done (objs w2 self) = true /\
  g2 = closed_gen self /\
  (forall how', finish how' g2 w2 =
     (match how' with Fail e => Raised e | _ => Returned end, g2, w2)) /\
  (remove_when_done (objs w0 self) = true -> self ∉ counters (bar w2)) /\
  (remove_when_done (objs w0 self) = false ->
     counters (bar w2) = counters (bar w0)) /\
  match how with
  | Exhaust => True
  | Abandon => r = Returned
  | Fail e => r = Raised e
  end.
Proof.
  intros [Hnd Hall] Hin Hpull Hfin Hny Hk.
  assert (Hopen : gen_state (__iter__ self) <> GenClosed) by discriminate.
  split.
  { intros j ys g w _ Hj.
    destruct (pull_inv _ _ _ _ _ _ Hopen Hj) as (_&_&(Hc&Hn&_)&_&Hd&_).
    simpl in Hn, Hd. rewrite Hc. auto. }
  destruct (pull_inv _ _ _ _ _ _ Hopen Hpull)
    as (Hs1&_&(Hc&Hn&_&Hr&_)&_&_&Hz&Hpos).
  simpl gen_self in *.
  assert (Hopen1 : gen_state g1 <> GenClosed).
  { destruct k as [|k].
    - destruct (Hz eq_refl) as [-> _]. discriminate.
    - destruct Hpos as [(d&pos&->) _]; [lia|discriminate]. }
  assert (Hsusp : how <> Exhaust -> suspended g1).
  { intros Hh. apply Hpos. auto. }
  destruct (finish_ended _ _ _ _ _ _ Hfin Hopen1 Hny Hsusp)
    as (pending & r0 & Hend & Hres).
  rewrite Hs1 in Hend.
  destruct (ended_effect _ _ _ _ _ _ Hend) as (->&E1&E2&_&_&_&E3&E4&E5).
  rewrite Hr, Hc in *.
  split; [congruence|]. split; [assumption|]. split; [reflexivity|].
  split; [intros how'; now rewrite gen_closed_idle|].
  split.
  { intros Hrw. pose proof (E4 Hrw Hin) as Hl.
    now apply list_remove_NoDup in Hl as [_ ?]. }
  split; [assumption|].
  specialize (E5 (fun _ => Hin)). subst r0.
  destruct how as [| |e]; [exact I| |].
  - now destruct Hres as [-> ->].
  - now destruct Hres as [-> ->].
Qed.

Lemma demo_called_registry_ok : registry_ok demo_called.
Proof.
  split; [apply NoDup_singleton|]. apply Forall_singleton. vm_compute. lia.
Qed.

Lemma C1_cleanup_exactly_once_witness :
  registry_ok demo_called /\
  0%nat ∈ counters (bar demo_called) /\
  pull 2 (__iter__ 0%nat) demo_called = Some ([10; 20], demo_g1, demo_w1) /\
  finish Abandon demo_g1 demo_w1 = (Returned, closed_gen 0%nat, demo_w2) /\
  cleanups 0%nat demo_w2 = S (cleanups 0%nat demo_called) /\
  done (objs demo_w2 0%nat) = true /\
  0%nat ∉ counters (bar demo_w2).
Proof.
  assert (Hin : 0%nat ∈ counters (bar demo_called)) by (vm_compute; set_solver).
  assert (Hp : pull 2 (__iter__ 0%nat) demo_called
               = Some ([10; 20], demo_g1, demo_w1)) by (vm_compute; reflexivity).
  assert (Hf : finish Abandon demo_g1 demo_w1
               = (Returned, closed_gen 0%nat, demo_w2)) by (vm_compute; reflexivity).
  assert (Hny : Abandon = Exhaust -> forall x, Returned <> Yielded x) by discriminate.
  assert (Hk : Abandon <> Exhaust -> (1 <= 2)%nat) by (intros _; lia).
  destruct (C1_cleanup_exactly_once demo_called 0%nat 2%nat Abandon
              [10; 20] demo_g1 (closed_gen 0%nat) demo_w1 demo_w2 Returned
              demo_called_registry_ok Hin Hp Hf Hny Hk)
    as (_ & Hc & Hd & _ & _ & Hrm & _ & _).
  split; [exact demo_called_registry_ok|].
  split; [exact Hin|]. split; [exact Hp|]. split; [exact Hf|].
  split; [exact Hc|]. split; [exact Hd|].
  apply Hrm. vm_compute. reflexivity.
Defined.

(** ** Invariants of the elementary effects *)

Lemma effect_registry_ok w w' : effect w w' -> registry_ok w -> registry_ok w'.
Proof.
  intros H [Hnd Hall]. destruct H; try (split; assumption).
  - split; simpl.
    + eapply list_remove_NoDup; eauto.
    + eapply list_remove_Forall; eauto.
  - split; simpl.
    + apply NoDup_app. split; [assumption|]. split; [|apply NoDup_singleton].
      intros a Ha Hb. apply list_elem_of_singleton in Hb as ->.
      rewrite Forall_forall in Hall. specialize (Hall _ Ha). lia.
    + apply Forall_app. split.
      * eapply Forall_impl; [exact Hall|]. simpl. intros; lia.
      * apply Forall_singleton. lia.
Qed.

Lemma effect_sig_frame w w' : effect w w' -> sig_frame w w'.
Proof.
  intros H. destruct H; unfold sig_frame; simpl; repeat split; auto;
    discriminate.
Qed.

Lemma effect_heap_frame w w' : effect w w' -> heap_frame w w'.
Proof.
  intros H. destruct H; unfold heap_frame; simpl;
    (split; [lia|]); intros i Hi.
  - repeat split.
  - repeat split.
  - repeat split.
  - repeat split.
  - destruct (decide (i = a)); [apply H|repeat split].
  - repeat split.
  - rewrite decide_False by lia. repeat split.
Qed.

Lemma sig_frame_refl w : sig_frame w w.
Proof. unfold sig_frame. repeat split; auto. Qed.

Lemma sig_frame_trans w1 w2 w3 :
  sig_frame w1 w2 -> sig_frame w2 w3 -> sig_frame w1 w3.
Proof.
  unfold sig_frame. intros (?&?&?&?&?&?) (?&?&?&?&?&?).
  repeat split; try congruence. auto.
Qed.

Lemma heap_frame_refl w : heap_frame w w.
Proof. unfold heap_frame. split; [lia|]. intros; repeat split. Qed.

Lemma heap_frame_trans w1 w2 w3 :
  heap_frame w1 w2 -> heap_frame w2 w3 -> heap_frame w1 w3.
Proof.
  unfold heap_frame. intros [Hn1 H1] [Hn2 H2]. split; [lia|].
  intros a Ha. destruct (H1 a Ha) as (?&?&?).
  destruct (H2 a) as (?&?&?); [lia|]. repeat split; congruence.
Qed.

Lemma effects_registry_ok w w' :
  rtc effect w w' -> registry_ok w -> registry_ok w'.
Proof. induction 1; eauto using effect_registry_ok. Qed.

Lemma effects_sig_frame w w' : rtc effect w w' -> sig_frame w w'.
Proof.
  induction 1; [apply sig_frame_refl|].
  eauto using sig_frame_trans, effect_sig_frame.
Qed.

Lemma effects_heap_frame w w' : rtc effect w w' -> heap_frame w w'.
Proof.
  induction 1; [apply heap_frame_refl|].
  eauto using heap_frame_trans, effect_heap_frame.
Qed.

(** ** Every operation is a sequence of elementary effects *)

Lemma set_done_keeps v c :
  total (set_done v c) = total c /\ data (set_done v c) = data c /\
  remove_when_done (set_done v c) = remove_when_done c.
Proof. repeat split. Qed.

Lemma advance_keeps c :
  total (advance c) = total c /\ data (advance c) = data c /\
  remove_when_done (advance c) = remove_when_done c.
Proof. repeat split. Qed.

Lemma invalidate_effects w r w' : invalidate w = (r, w') -> rtc effect w w'.
Proof.
  intros H. apply invalidate_inv in H as [(_&_&->)|(_&_&->)];
    [apply rtc_refl|apply rtc_once, eff_log].
Qed.

Lemma cleanup_effects self w rc w' : cleanup self w = (rc, w') -> rtc effect w w'.
Proof.
  rewrite cleanup_unfold. cbv zeta.
  assert (H2 : rtc effect w (upd_obj self (set_done true) (log (EvCleanup self) w))).
  { eapply rtc_l; [apply eff_log|].
    apply rtc_once, eff_obj, set_done_keeps. }
  destruct (remove_when_done (objs w self)).
  - destruct (list_remove self (counters (bar w))) as [l|] eqn:Hl;
      intros H; injection H as <- <-; [|exact H2].
    eapply rtc_r; [exact H2|]. apply (eff_remove self). exact Hl.
  - intros H; injection H as <- <-. exact H2.
Qed.

Lemma leave_try_effects self pending w r g w' :
  leave_try self pending w = (r, g, w') -> rtc effect w w'.
Proof.
  intros H. apply leave_try_inv in H as (_ & rc & H & _).
  eapply cleanup_effects; eauto.
Qed.

Lemma loop_turn_effects self d pos w r g w' :
  loop_turn self d pos w = (r, g, w') -> rtc effect w w'.
Proof.
  unfold loop_turn. destruct (it_next d pos) as [x| |e];
    eauto using leave_try_effects.
  destruct (invalidate (upd_obj self advance w)) as [[u|e] w2] eqn:Hi;
    apply invalidate_effects in Hi; intros H.
  - injection H as <- <- <-.
    eapply rtc_l; [apply eff_obj, advance_keeps|exact Hi].
  - apply leave_try_effects in H.
    eapply rtc_l; [apply eff_obj, advance_keeps|].
    eapply rtc_trans; eauto.
Qed.

Lemma gen_next_effects g w r g' w' : gen_next g w = (r, g', w') -> rtc effect w w'.
Proof.
  unfold gen_next. destruct (gen_state g) as [|d pos|].
  - destruct (data (objs w (gen_self g)));
      eauto using loop_turn_effects, leave_try_effects.
  - apply loop_turn_effects.
  - intros H; injection H as <- <- <-. apply rtc_refl.
Qed.

Lemma gen_throw_effects e g w r g' w' :
  gen_throw e g w = (r, g', w') -> rtc effect w w'.
Proof.
  unfold gen_throw. destruct (gen_state g) as [|d pos|];
    eauto using leave_try_effects;
    intros H; injection H as <- <- <-; apply rtc_refl.
Qed.

Lemma gen_close_effects g w r g' w' :
  gen_close g w = (r, g', w') -> rtc effect w w'.
Proof.
  unfold gen_close.
  destruct (gen_throw GeneratorExit g w) as [[r0 g0] w0] eqn:E.
  apply gen_throw_effects in E. intros H.
  assert (w' = w0) as ->; [|exact E].
  destruct r0 as [x| |e0]; [| |destruct e0]; now injection H.
Qed.

Lemma call_unfold d l rwd t w :
  __call__ d l rwd t w =
  match counter_init (clock (rt w)) d l rwd t with
  | Raise e => (Raise e, w)
  | Ok c =>
      (Ok (next_obj w),
       set_counters (counters (bar w) ++ [next_obj w])
         (set_next_obj (S (next_obj w))
            (upd_obj (next_obj w) (fun _ => c) w)))
  end.
Proof.
  unfold __call__. destruct (counter_init (clock (rt w)) d l rwd t); reflexivity.
Qed.

Lemma call_effects d l rwd t w r w' :
  __call__ d l rwd t w = (r, w') -> rtc effect w w'.
Proof.
  rewrite call_unfold. destruct (counter_init (clock (rt w)) d l rwd t) as [c|e];
    intros H; injection H as <- <-; [apply rtc_once, eff_new|apply rtc_refl].
Qed.

Lemma content_turn_effects (A B : Type) (tft : A -> B) (of_str : string -> A)
    (f : Formatter A) width st pr :
  rtc effect (snd st) (snd (content_turn A B tft of_str f width st pr)).
Proof.
  destruct st as [items w]. unfold content_turn. simpl.
  destruct (format f (objs w) (bar w) (rt w) pr width) as [t|e]; simpl.
  - apply rtc_once, eff_log.
  - eapply rtc_l; [apply eff_log|]. apply rtc_once, eff_log.
Qed.

Lemma content_fold_effects (A B : Type) (tft : A -> B) (of_str : string -> A)
    (f : Formatter A) width cs : forall st,
  rtc effect (snd st)
    (snd (fold_left (content_turn A B tft of_str f width) cs st)).
Proof.
  induction cs as [|pr cs IH]; intros st; simpl; [apply rtc_refl|].
  eapply rtc_trans; [apply content_turn_effects|apply IH].
Qed.

Lemma create_content_effects (A B : Type) (tft : A -> B) (of_str : string -> A)
    (f : Formatter A) width height w u w' :
  create_content A B tft of_str f width height w = (u, w') -> rtc effect w w'.
Proof.
  unfold create_content.
  pose proof (content_fold_effects A B tft of_str f width (counters (bar w)) ([], w)) as H.
  destruct (fold_left _ _ _) as [items w1]. simpl in H.
  intros E; injection E as <- <-. exact H.
Qed.

Lemma work_effects w w' : work w w' -> rtc effect w w'.
Proof.
  intros H. destruct H;
    eauto using call_effects, invalidate_effects, gen_next_effects,
      gen_close_effects, gen_throw_effects, create_content_effects.
  - eapply rtc_once, eff_app; eauto.
  - apply rtc_once, eff_thread.
  - apply rtc_once, eff_clock.
Qed.

Lemma works_effects w w' : rtc work w w' -> rtc effect w w'.
Proof.
  induction 1; [apply rtc_refl|].
  eapply rtc_trans; [apply work_effects|]; eauto.
Qed.

(** ** __enter__ and __exit__ *)

Lemma enter_effect w r w' :
  __enter__ w = (r, w') ->
  r = Ok tt /\
  objs w' = objs w /\ next_obj w' = next_obj w /\
  counters (bar w') = counters (bar w) /\
  app (bar w') = Some {| is_running := false |} /\
  _thread (bar w') = Some tt /\
  _has_sigwinch (bar w') = host_has_sigwinch (rt w) && in_main_thread (rt w) /\
  (if host_has_sigwinch (rt w) && in_main_thread (rt w)
   then _previous_winch_handler (bar w') = sigwinch (rt w) /\
        sigwinch (rt w') = LoopSigHandler /\
        loop_sigwinch (rt w') = Some BarInvalidate
   else _previous_winch_handler (bar w') = _previous_winch_handler (bar w) /\
        sigwinch (rt w') = sigwinch (rt w) /\
        loop_sigwinch (rt w') = loop_sigwinch (rt w)).
Proof.
  unfold __enter__, bind, modify, gets, when, thread_start, add_signal_handler,
    signal_signal, ret. simpl.
  destruct (host_has_sigwinch (rt w) && in_main_thread (rt w)) eqn:E;
    unfold bind, modify, gets; simpl;
    intros H; injection H as <- <-; simpl; rewrite ?E; repeat split.
Qed.

Lemma exit_effect w a :
  app (bar w) = Some a ->
  exists w',
    __exit__ w = (Ok tt, w') /\
    objs w' = objs w /\ next_obj w' = next_obj w /\ bar w' = bar w /\
    trace w' = trace w ++
      exit_events (is_running a) (_has_sigwinch (bar w))
        (bool_decide (loop_sigwinch (rt w) <> None))
        (_previous_winch_handler (bar w))
        (bool_decide (_thread (bar w) <> None)) /\
    sigwinch (rt w') =
      (if _has_sigwinch (bar w) then _previous_winch_handler (bar w)
       else sigwinch (rt w)) /\
    loop_sigwinch (rt w') =
      (if _has_sigwinch (bar w) then None else loop_sigwinch (rt w)) /\
    thread_alive (rt w') =
      match _thread (bar w) with
      | Some _ => false
      | None => thread_alive (rt w)
      end.
Proof.
  intros Ha.
  unfold __exit__, bind, app_is_running, app_exit, when, gets, modify,
    remove_signal_handler, signal_signal, thread_join, ret, exit_events.
  rewrite Ha.
  destruct (is_running a) eqn:Hr; simpl; rewrite ?Ha, ?Hr; simpl;
    destruct (_has_sigwinch (bar w)) eqn:Hh; simpl;
    destruct (loop_sigwinch (rt w)) as [cb|] eqn:Hl; simpl;
    unfold bind, modify, ret; simpl;
    destruct (_thread (bar w)) as [[]|] eqn:Ht; simpl;
    eexists; (split; [reflexivity|]); simpl;
    rewrite ?Hl, ?app_nil_r; repeat split;
    destruct (bar w); simpl in *; subst; try reflexivity;
    now rewrite <- ?app_assoc.
Qed.

(** C7: [__exit__], called after [__enter__] and any amount of work in
    between, does not raise, whether the application is still running or
    has stopped; it calls [app.exit()] only when the application is
    running; when [__enter__] installed the resize hook it removes the hook
    and sets the handler back to the one that preceded [__enter__], and
    otherwise touches neither; its last effect is the join of the render
    thread, which is not alive afterwards. *)
Theorem C7_exit_restores (w0 w1 w2 : World) :
  __enter__ w0 = (Ok tt, w1) ->
  rtc work w1 w2 ->
  exists a w3,
    app (bar w2) = Some a /\
    __exit__ w2 = (Ok tt, w3) /\
    trace w3 = trace w2 ++
      (if is_running a then [EvAppExit] else []) ++
      (if host_has_sigwinch (rt w0) && in_main_thread (rt w0)
       then [EvRemoveSignalHandler; EvSignal SIG_DFL;
             EvSignal (sigwinch (rt w0))]
       else []) ++
      [EvThreadJoin] /\
    sigwinch (rt w3) = sigwinch (rt w0) /\
    loop_sigwinch (rt w3) =
      (if host_has_sigwinch (rt w0) && in_main_thread (rt w0) then None
       else loop_sigwinch (rt w0)) /\
    thread_alive (rt w3) = false.
Proof.
  intros He Hw.
  apply enter_effect in He as (_&_&_&_&Happ&Hth&Hhas&Hsig).
  apply works_effects, effects_sig_frame in Hw as (S1&S2&S3&S4&S5&S6).
  destruct (app (bar w2)) as [a|] eqn:Ha; [|exfalso; apply S6; congruence].
  destruct (exit_effect w2 a Ha) as (w3&Hex&_&_&_&Htr&Hs&Hl&Ht).
  exists a, w3. split; [reflexivity|]. split; [exact Hex|].
  rewrite S3, S4, S5, Hth, Hhas in *. rewrite S1 in Hs. rewrite S2 in Htr, Hl.
  unfold exit_events in Htr.
  destruct (host_has_sigwinch (rt w0) && in_main_thread (rt w0)).
  - destruct Hsig as (Hp&_&Hls). rewrite Hp in *. rewrite Hls in Htr.
    repeat split; assumption.
  - destruct Hsig as (_&Hsw&Hls). rewrite Hsw in Hs. rewrite Hls in Hl.
    repeat split; assumption.
Qed.

Lemma C7_exit_restores_witness :
  __enter__ (fresh_world demo_rt) = (Ok tt, demo_entered) /\
  rtc work demo_entered demo_running /\
  exists a w3,
    app (bar demo_running) = Some a /\
    __exit__ demo_running = (Ok tt, w3) /\
    trace w3 = trace demo_running ++
      (if is_running a then [EvAppExit] else []) ++
      [EvRemoveSignalHandler; EvSignal SIG_DFL; EvSignal (PyHandler 7)] ++
      [EvThreadJoin] /\
    sigwinch (rt w3) = PyHandler 7 /\
    loop_sigwinch (rt w3) = None /\
    thread_alive (rt w3) = false.
Proof.
  assert (He : __enter__ (fresh_world demo_rt) = (Ok tt, demo_entered))
    by (vm_compute; reflexivity).
  assert (Hw : rtc work demo_entered demo_running).
  { apply rtc_once.
    apply (work_app demo_entered {| is_running := false |} true).
    vm_compute; reflexivity. }
  split; [exact He|]. split; [exact Hw|].
  exact (C7_exit_restores (fresh_world demo_rt) demo_entered demo_running He Hw).
Defined.

(** ** ProgressBar.__call__ *)

Lemma call_effect d l rwd t w counter w0 :
  __call__ d l rwd t w = (Ok counter, w0) ->
  counter = next_obj w /\
  next_obj w0 = S counter /\
  counters (bar w0) = counters (bar w) ++ [counter] /\
  counter_init (clock (rt w)) d l rwd t = Ok (objs w0 counter) /\
  (forall a, a <> counter -> objs w0 a = objs w a) /\
  rt w0 = rt w /\ trace w0 = trace w /\ app (bar w0) = app (bar w).
Proof.
  rewrite call_unfold.
  destruct (counter_init (clock (rt w)) d l rwd t) as [c|e]; [|discriminate].
  intros H; injection H as <- <-. simpl.
  rewrite decide_True by reflexivity.
  repeat split. intros a Ha. now rewrite decide_False.
Qed.

Lemma counter_init_total now d l rwd t c :
  counter_init now d l rwd t = Ok c ->
  total c = match t with
            | Some n => Some n
            | None => match py_len d with
                      | Ok n => Some n
                      | Raise _ => None
                      end
            end.
Proof.
  unfold counter_init. destruct t as [n|].
  - now intros H; injection H as <-.
  - destruct (py_len d) as [n|e]; [now intros H; injection H as <-|].
    destruct e; try discriminate. now intros H; injection H as <-.
Qed.

Lemma counter_init_raises now d l rwd t e :
  counter_init now d l rwd t = Raise e ->
  t = None /\ py_len d = Raise e /\ e <> TypeError.
Proof.
  unfold counter_init. destruct t as [n|]; [discriminate|].
  destruct (py_len d) as [n|e']; [discriminate|].
  destruct e'; try discriminate; intros H; injection H as <-;
    repeat split; discriminate.
Qed.

(** A counter obtained from the bar is registered, and the registry stays
    well formed: the premises of the statement on the cleanup. *)
Lemma call_registers d l rwd t w self w0 :
  registry_ok w ->
  __call__ d l rwd t w = (Ok self, w0) ->
  registry_ok w0 /\ self ∈ counters (bar w0) /\
  remove_when_done (objs w0 self) = rwd.
Proof.
  intros Hok H. split; [|split].
  - eapply effects_registry_ok; [eapply call_effects; exact H|exact Hok].
  - apply call_effect in H as (_&_&->&_). apply elem_of_app. right.
    apply list_elem_of_singleton. reflexivity.
  - apply call_effect in H as (_&_&_&Hi&_).
    now apply counter_init_fresh in Hi as (_&_&_&?&_).
Qed.

(** C8: [__call__] creates a counter whose total is the total given, else
    [len(data)] when [len] works, else [None] ([len] raising [TypeError]);
    the counter starts with [current = 0] and [done = False], is appended
    at the end of the registry, whose other entries and objects are
    untouched, and is what [__call__] returns: the object whose [__iter__]
    gives the generator bound to it.  The call raises only when no total is
    given and [len(data)] raises something other than [TypeError]. *)
Theorem C8_new_counter (d : option Iterable) (l : string) (rwd : bool)
    (t : option Z) (w : World) :
  match __call__ d l rwd t w with
  | (Ok counter, w') =>
      total (objs w' counter) =
        match t with
        | Some n => Some n
        | None => match py_len d with
                  | Ok n => Some n
                  | Raise _ => None
                  end
        end /\
      current (objs w' counter) = 0 /\
      done (objs w' counter) = false /\
      data (objs w' counter) = d /\
      label (objs w' counter) = l /\
      remove_when_done (objs w' counter) = rwd /\
      counters (bar w') = counters (bar w) ++ [counter] /\
      counter = next_obj w /\
      (forall a, a <> counter -> objs w' a = objs w a) /\
      gen_self (__iter__ counter) = counter /\
      gen_state (__iter__ counter) = GenCreated
  | (Raise e, w') =>
      t = None /\ py_len d = Raise e /\ e <> TypeError /\ w' = w
  end.
Proof.
  destruct (__call__ d l rwd t w) as [[counter|e] w'] eqn:H.
  - apply call_effect in H as (Hc&_&Hreg&Hinit&Hoth&_).
    pose proof (counter_init_total _ _ _ _ _ _ Hinit) as Ht.
    apply counter_init_fresh in Hinit as (?&?&?&?&?&?).
    repeat split; assumption.
  - rewrite call_unfold in H.
    destruct (counter_init (clock (rt w)) d l rwd t) as [c|e'] eqn:Hi;
      [discriminate|].
    injection H as <- <-. apply counter_init_raises in Hi as (?&?&?).
    repeat split; assumption.
Qed.

(** ** Reachable worlds *)

Lemma enter_frames w r w' :
  __enter__ w = (r, w') ->
  (registry_ok w -> registry_ok w') /\ heap_frame w w'.
Proof.
  intros H. apply enter_effect in H as (_&Ho&Hn&Hc&_).
  unfold registry_ok, heap_frame. rewrite Ho, Hn, Hc.
  split; [auto|]. split; [lia|]. intros; repeat split.
Qed.

Lemma exit_frames w r w' :
  __exit__ w = (r, w') ->
  (registry_ok w -> registry_ok w') /\ heap_frame w w'.
Proof.
  destruct (app (bar w)) as [a|] eqn:Ha.
  - destruct (exit_effect w a Ha) as (w3&Hex&Ho&Hn&Hb&_).
    rewrite Hex. intros H; injection H as <- <-.
    unfold registry_ok, heap_frame. rewrite Ho, Hn, Hb.
    split; [auto|]. split; [lia|]. intros; repeat split.
  - unfold __exit__, bind, app_is_running. rewrite Ha.
    intros H; injection H as <- <-.
    split; [auto|apply heap_frame_refl].
Qed.

Lemma step_frames w w' :
  step w w' -> (registry_ok w -> registry_ok w') /\ heap_frame w w'.
Proof.
  intros H. destruct H as [w w' H|w r w' H|w r w' H];
    eauto using enter_frames, exit_frames.
  apply work_effects in H.
  split; [now apply effects_registry_ok|now apply effects_heap_frame].
Qed.

Lemma steps_frames w w' :
  rtc step w w' -> (registry_ok w -> registry_ok w') /\ heap_frame w w'.
Proof.
  induction 1 as [w|w1 w2 w3 H12 _ [IH1 IH2]].
  - split; [auto|apply heap_frame_refl].
  - apply step_frames in H12 as [H1 H2].
    split; [auto|eapply heap_frame_trans; eauto].
Qed.

Lemma fresh_world_registry_ok r : registry_ok (fresh_world r).
Proof. split; [apply NoDup_nil_2|apply Forall_nil_2]. Qed.

Lemma reachable_registry_ok w : reachable w -> registry_ok w.
Proof.
  intros (r & w0 & Hi & Hs). unfold bar_init in Hi.
  destruct (host_has_sigwinch r); [|discriminate]. injection Hi as <-.
  apply steps_frames in Hs as [H _]. apply H, fresh_world_registry_ok.
Qed.


Lemma list_remove_snoc x l : x ∉ l -> list_remove x (l ++ [x]) = Some l.
Proof.
  induction l as [|y l IH]; intros Hn; simpl.
  - now rewrite decide_True.
  - apply not_elem_of_cons in Hn as [Hne Hn].
    rewrite decide_False by assumption. now rewrite IH.
Qed.

(** C10: a counter created without a data source yields nothing: the first
    [next] on its generator ends the iteration, the cleanup runs once and
    sets [done]; [current] is still 0 and the percentage is 0 (the total is
    the one given to [__call__], [None] by default); with
    [remove_when_done] the registry is back to what it was before the
    call, without the counter, and otherwise it keeps the counter. *)
Theorem C10_no_data_source (l : string) (rwd : bool) (t : option Z) (w : World) :
  registry_ok w ->
  exists counter w0 w1 p,
    __call__ None l rwd t w = (Ok counter, w0) /\
    total (objs w0 counter) = t /\
    gen_next (__iter__ counter) w0 = (Returned, closed_gen counter, w1) /\
    cleanups counter w1 = S (cleanups counter w0) /\
    done (objs w1 counter) = true /\
    current (objs w1 counter) = 0 /\
    total (objs w1 counter) = t /\
    percentage (objs w1 counter) = Ok p /\ (p == 0)%Q /\
    (rwd = true ->
       (counter ∉ counters (bar w1)) /\ counters (bar w1) = counters (bar w)) /\
    (rwd = false -> counters (bar w1) = counters (bar w) ++ [counter]).
Proof.
  intros [Hnd Hall].
  destruct (__call__ None l rwd t w) as [[counter|e] w0] eqn:Hcall.
  2:{ rewrite call_unfold in Hcall. destruct t; discriminate. }
  pose proof (call_effect _ _ _ _ _ _ _ Hcall) as (Hc&_&Hreg&Hinit&_).
  pose proof (counter_init_total _ _ _ _ _ _ Hinit) as Ht.
  apply counter_init_fresh in Hinit as (Hcur&_&Hdata&Hrwd&_).
  assert (Ht' : total (objs w0 counter) = t) by (now destruct t).
  clear Ht.
  assert (Hfresh : counter ∉ counters (bar w)).
  { intros Hin. rewrite Forall_forall in Hall. specialize (Hall _ Hin). lia. }
  destruct (gen_next (__iter__ counter) w0) as [[r g] w1] eqn:Hn.
  assert (Hlt : leave_try counter None w0 = (r, g, w1)).
  { unfold gen_next in Hn. simpl in Hn. now rewrite Hdata in Hn. }
  apply leave_try_inv in Hlt as (-> & rc & Hcl & ->).
  pose proof (cleanup_effect _ _ _ _ Hcl) as (E1&E2&E3&E4&_&_&_&E8&E9).
  rewrite Hrwd, Hreg in *.
  assert (Hrc : rc = Ok tt /\
          counters (bar w1) = if rwd then counters (bar w)
                              else counters (bar w) ++ [counter]).
  { destruct rwd.
    - specialize (E9 eq_refl). now rewrite list_remove_snoc in E9.
    - now apply E8. }
  destruct Hrc as [-> Hcs].
  exists counter, w0, w1, (spec_percentage (objs w1 counter)).
  split; [reflexivity|]. split; [assumption|]. split; [exact Hn|].
  split; [assumption|]. split; [assumption|]. split; [congruence|].
  split; [congruence|]. split; [apply percentage_spec|].
  split.
  { unfold spec_percentage. rewrite E3, Hcur.
    destruct (total (objs w1 counter)); reflexivity. }
  split; intros ->; [|assumption]. now rewrite Hcs.
Qed.

Lemma C10_no_data_source_witness :
  registry_ok demo_called /\
  exists counter w0 w1 p,
    __call__ None "" true None demo_called = (Ok counter, w0) /\
    total (objs w0 counter) = None /\
    gen_next (__iter__ counter) w0 = (Returned, closed_gen counter, w1) /\
    cleanups counter w1 = S (cleanups counter w0) /\
    done (objs w1 counter) = true /\
    current (objs w1 counter) = 0 /\
    total (objs w1 counter) = None /\
    percentage (objs w1 counter) = Ok p /\ (p == 0)%Q /\
    (true = true ->
       (counter ∉ counters (bar w1)) /\
       counters (bar w1) = counters (bar demo_called)) /\
    (true = false -> counters (bar w1) = counters (bar demo_called) ++ [counter]).
Proof.
  split; [exact demo_called_registry_ok|].
  exact (C10_no_data_source "" true None demo_called demo_called_registry_ok).
Defined.

(** ** What raises and what does not *)

Lemma for_each_steps fuel : forall g w r w',
  for_each fuel g w = Some (r, w') -> rtc step w w'.
Proof.
  induction fuel as [|n IH]; intros g w r w' H; [discriminate|].
  simpl in H. destruct (gen_next g w) as [[r1 g1] w1] eqn:Hn.
  assert (Hs : step w w1) by (eapply step_work, work_next; eauto).
  destruct r1 as [x| |e].
  - eapply rtc_l; [exact Hs|]. eapply IH; eauto.
  - injection H as <- <-. now apply rtc_once.
  - injection H as <- <-. now apply rtc_once.
Qed.

Lemma step_keeps_app w w' :
  step w w' -> app (bar w) <> None -> app (bar w') <> None.
Proof.
  intros H Ha. destruct H as [w w' H|w r w' H|w r w' H].
  - apply work_effects, effects_sig_frame in H as (_&_&_&_&_&H). auto.
  - apply enter_effect in H as (_&_&_&_&->&_). discriminate.
  - destruct (app (bar w)) as [a|] eqn:E; [|contradiction].
    destruct (exit_effect w a E) as (w3&Hex&_&_&Hb&_).
    rewrite Hex in H. injection H as <- <-. rewrite Hb, E. discriminate.
Qed.

Lemma steps_keep_app w w' :
  rtc step w w' -> app (bar w) <> None -> app (bar w') <> None.
Proof. induction 1; eauto using step_keeps_app. Qed.

Lemma demo_called_reachable : reachable demo_called.
Proof.
  exists demo_rt, (fresh_world demo_rt). split; [reflexivity|].
  eapply rtc_l; [eapply (step_enter _ (Ok tt) demo_entered)|].
  { vm_compute; reflexivity. }
  apply rtc_once. apply step_work.
  eapply (work_call _ (Some (list_iterable [10; 20; 30])) "" true None
            (Ok 0%nat) demo_called).
  vm_compute; reflexivity.
Qed.

Lemma pull_steps k : forall g w xs g' w',
  pull k g w = Some (xs, g', w') -> rtc step w w'.
Proof.
  induction k as [|k IH]; intros g w xs g' w' H.
  - injection H as <- <- <-. apply rtc_refl.
  - simpl in H. destruct (gen_next g w) as [[r g1] w1] eqn:Hn.
    assert (Hs : step w w1) by (eapply step_work, work_next; eauto).
    destruct r as [x| |e]; try discriminate.
    destruct (pull k g1 w1) as [[[xs2 g2] w2]|] eqn:Hp; [|discriminate].
    injection H as <- <- <-.
    eapply rtc_l; [exact Hs|]. eapply IH; eauto.
Qed.

Lemma demo_slow_reachable : reachable demo_slow.
Proof.
  exists demo_rt, (fresh_world demo_rt). split; [reflexivity|].
  unfold demo_slow, demo_slow_called, demo_entered.
  destruct (__enter__ (fresh_world demo_rt)) as [r0 w0] eqn:E0. cbn [snd].
  eapply rtc_l; [eapply step_enter; exact E0|].
  destruct (__call__ (Some (list_iterable [10; 20; 30])) "" false
              (Some (10 ^ 14)) w0) as [r1 w1] eqn:E1.
  cbn [snd].
  eapply rtc_l; [eapply step_work, work_call; exact E1|].
  destruct (pull 1 (__iter__ 0%nat) w1) as [[[xs g] w2]|] eqn:E2.
  - eapply rtc_trans; [eapply pull_steps; exact E2|].
    apply rtc_once, step_work, work_clock.
  - apply rtc_once, step_work, work_clock.
Qed.

(** C6, as the claim states it, fails.  In a reachable world, after the
    counter of [pb([10, 20, 30], remove_when_done=True)] was iterated to
    its end, a second [for] loop over the same counter ends with the
    [ValueError] of [list.remove], raised by the cleanup.  On a bar that
    was constructed but not entered, [invalidate] raises [AttributeError].
    And in the reachable world where the loop over
    [pb([10, 20, 30], total=10 ** 14)] has taken its first item and one
    second has passed, the getter [time_left] raises [OverflowError]. *)
Lemma C6_counterexample :
  (reachable demo_done /\
   for_each 4 (__iter__ 0%nat) demo_called = Some (Returned, demo_done) /\
   fst (cleanup 0%nat demo_done) = Raise ValueError /\
   exists w, for_each 4 (__iter__ 0%nat) demo_done = Some (Raised ValueError, w)) /\
  (reachable (fresh_world demo_rt) /\
   fst (invalidate (fresh_world demo_rt)) = Raise AttributeError) /\
  (reachable demo_slow /\
   objs demo_slow 0%nat = slow_counter /\
   clock (rt demo_slow) = 6%Q /\
   time_left (clock (rt demo_slow)) (objs demo_slow 0%nat)
   = Raise OverflowError).
Proof.
  assert (H1 : for_each 4 (__iter__ 0%nat) demo_called = Some (Returned, demo_done)).
  { assert (Hr : option_map fst (for_each 4 (__iter__ 0%nat) demo_called)
                 = Some Returned) by (vm_compute; reflexivity).
    unfold demo_done.
    destruct (for_each 4 (__iter__ 0%nat) demo_called) as [[r w]|];
      [|discriminate].
    simpl in Hr. now injection Hr as ->. }
  split; [|split].
  - split.
    { destruct demo_called_reachable as (r & w0 & Hi & Hs).
      exists r, w0. split; [exact Hi|].
      eapply rtc_trans; [exact Hs|]. eapply for_each_steps; exact H1. }
    split; [exact H1|]. split; [vm_compute; reflexivity|].
    assert (Hr : option_map fst (for_each 4 (__iter__ 0%nat) demo_done)
                 = Some (Raised ValueError)) by (vm_compute; reflexivity).
    destruct (for_each 4 (__iter__ 0%nat) demo_done) as [[r w]|];
      [|discriminate].
    simpl in Hr. injection Hr as ->. now exists w.
  - split; [|reflexivity].
    exists demo_rt, (fresh_world demo_rt). split; [reflexivity|apply rtc_refl].
  - split; [exact demo_slow_reachable|].
    assert (Ho : objs demo_slow 0%nat = slow_counter)
      by (vm_compute; reflexivity).
    split; [exact Ho|]. split; [reflexivity|].
    rewrite Ho. vm_compute. reflexivity.
Qed.

(** C6 (amended): [invalidate] raises exactly when the bar has no [app]
    attribute, which cannot be the case once [__enter__] has run; the
    getters [percentage] and [time_left] raise nothing but
    [OverflowError]: [percentage] not at all without a total or when the
    quotient [current * 100 / max(total, 1)] is below [2 ^ 1022] in
    magnitude, and always when it is [2 ^ 1024] or more; [time_left]
    exactly when [percentage] raises or the estimate is not a timedelta
    ([time_elapsed] is a subtraction of two datetimes); the cleanup of [__iter__] raises exactly when the counter
    has [remove_when_done] and is not in the registry. *)
Theorem C6_what_raises (w : World) (self : nat) (now : Q) :
  (raises (fst (invalidate w)) <-> app (bar w) = None) /\
  (forall w0 r w1,
     __enter__ w0 = (r, w1) -> rtc step w1 w -> ~ raises (fst (invalidate w))) /\
  (forall e, percentage_float (objs w self) = Raise e -> e = OverflowError) /\
  (total (objs w self) = None -> ~ raises (percentage_float (objs w self))) /\
  (forall t, total (objs w self) = Some t ->
     Z.abs (current (objs w self) * 100) < 2 ^ 1022 * Z.max t 1 ->
     ~ raises (percentage_float (objs w self))) /\
  (forall t, total (objs w self) = Some t ->
     2 ^ 1024 * Z.max t 1 <= Z.abs (current (objs w self) * 100) ->
     percentage_float (objs w self) = Raise OverflowError) /\
  (forall e, time_left now (objs w self) = Raise e -> e = OverflowError) /\
  (raises (time_left now (objs w self)) <->
   total (objs w self) <> None /\
   (raises (percentage_float (objs w self)) \/
    exists f, percentage_float (objs w self) = Ok (PyFloat f) /\
      py_not (PyFloat f) = false /\
      raises (spec_time_left (time_elapsed now (objs w self)) f))) /\
  (raises (fst (cleanup self w)) <->
     remove_when_done (objs w self) = true /\ self ∉ counters (bar w)).
Proof.
  assert (Hinv : raises (fst (invalidate w)) <-> app (bar w) = None).
  { unfold invalidate. destruct (app (bar w)); simpl; split;
      try contradiction; try discriminate; auto. }
  split; [exact Hinv|]. split.
  { intros w0 r w1 He Hs Hr. apply Hinv in Hr.
    apply enter_effect in He as (_&_&_&_&Ha&_).
    eapply steps_keep_app; [exact Hs| |exact Hr]. rewrite Ha. discriminate. }
  set (c := objs w self).
  split.
  { intros e He. unfold percentage_float in He.
    destruct (total c) as [t|] eqn:Ht; [|discriminate].
    destruct (percentage_float_known c t Ht) as [H|(f & Hf & _)];
      unfold percentage_float in H || unfold percentage_float in Hf;
      rewrite Ht in *; congruence. }
  split.
  { intros Ht. unfold percentage_float. rewrite Ht. simpl. tauto. }
  split.
  { intros t Ht Hlt. unfold percentage_float. rewrite Ht.
    destruct (int_truediv_no_overflow (current c * 100) (Z.max t 1)
                ltac:(lia)) as (f & -> & _).
    - replace (Z.abs (Z.max t 1)) with (Z.max t 1) by lia. exact Hlt.
    - simpl. tauto. }
  split.
  { intros t Ht Hge. unfold percentage_float. rewrite Ht.
    rewrite int_truediv_overflow; [reflexivity|lia|].
    replace (Z.abs (Z.max t 1)) with (Z.max t 1) by lia. exact Hge. }
  split; [intros e; apply time_left_raises|].
  split.
  { pose proof (time_left_cases now c) as Hc.
    destruct (total c) as [t|] eqn:Ht.
    - destruct (percentage_float c) as [p|e] eqn:Hp.
      + destruct Hc as (f & -> & _ & ->).
        destruct (py_not (PyFloat f)) eqn:Hz.
        * simpl. split; [contradiction|].
          intros [_ [H|(f' & Hf' & Hz' & _)]]; [contradiction|].
          injection Hf' as <-. simpl in Hz, Hz'. congruence.
        * split.
          -- intros Hr. split; [discriminate|]. right. exists f. auto.
          -- intros [_ [H|(f' & Hf' & _ & Hr)]]; [contradiction|].
             injection Hf' as <-. exact Hr.
      + destruct Hc as [_ ->]. simpl. split; [|tauto].
        intros _. split; [discriminate|]. now left.
    - rewrite Hc. simpl. split; [contradiction|]. intros [H _]. congruence. }
  subst c. rewrite cleanup_unfold. cbv zeta.
  destruct (remove_when_done (objs w self)); simpl.
  - destruct (list_remove self (counters (bar w))) as [l|] eqn:Hl; simpl.
    + split; [contradiction|]. intros [_ Hn].
      now rewrite (list_remove_not_elem _ _ Hn) in Hl.
    + split; [|auto]. intros _. split; [reflexivity|].
      intros Hin. apply list_remove_elem in Hin as [l' Hl']. congruence.
  - split; [contradiction|]. intros [? _]. discriminate.
Qed.

(** ** create_content *)

Lemma py_getitem_nth {A} (l : list A) (i : nat) (x : A) :
  nth_error l i = Some x -> py_getitem l (Z.of_nat i) = Ok x.
Proof.
  intros H. unfold py_getitem.
  assert (Hlt : (i < length l)%nat) by (apply nth_error_Some; congruence).
  destruct (Z.of_nat i <? 0) eqn:E1; [lia|].
  destruct (0 <=? Z.of_nat i) eqn:E2; [|lia].
  destruct (Z.of_nat i <? Z.of_nat (length l)) eqn:E3; [|lia].
  simpl. now rewrite Nat2Z.id, H.
Qed.

Section RenderFacts.

Context {A B : Type} (tft : A -> B) (of_str : string -> A).
Context (f : Formatter A) (width : Z).

Lemma content_fold (w : World) (cs : list nat) : forall items w1,
  objs w1 = objs w -> bar w1 = bar w -> rt w1 = rt w ->
  exists w2,
    fold_left (content_turn A B tft of_str f width) cs (items, w1)
    = (items ++ map (line_of A B tft of_str f width w) cs, w2) /\
    objs w2 = objs w /\ bar w2 = bar w /\ rt w2 = rt w /\
    next_obj w2 = next_obj w1 /\
    trace w2 = trace w1 ++ concat (map (line_events A f width w) cs).
Proof.
  induction cs as [|pr cs IH]; intros items w1 Ho Hb Hr; simpl.
  - exists w1. rewrite !app_nil_r. repeat split; assumption.
  - unfold line_of, line_events. rewrite Ho, Hb, Hr.
    destruct (format f (objs w) (bar w) (rt w) pr width) as [t|e] eqn:Hf.
    + destruct (IH (items ++ [tft t]) (log (EvFormat pr) w1))
        as (w2 & Hfold & ? & ? & ? & ? & Htr); try assumption.
      exists w2. rewrite Hfold, <- app_assoc. simpl in *.
      rewrite Htr, <- app_assoc. repeat split; assumption.
    + destruct (IH (items ++ [tft (of_str "ERROR"%string)])
                   (log (EvPrintExc e) (log (EvFormat pr) w1)))
        as (w2 & Hfold & ? & ? & ? & ? & Htr); try assumption.
      exists w2. rewrite Hfold, <- app_assoc. simpl in *.
      rewrite Htr, <- !app_assoc. repeat split; assumption.
Qed.

End RenderFacts.

(** C5: a frame has one line per registered counter, in registry order;
    the formatter is called once for each counter, in that order, and
    nothing of the world changes but the trace; the line of a counter is
    the formatter's text, and when the formatter raises for a counter the
    traceback is printed, the line of that counter is the text ['ERROR'],
    and the lines of the other counters are produced all the same. *)
Theorem C5_create_content (A B : Type) (tft : A -> B) (of_str : string -> A)
    (f : Formatter A) (width height : Z) (w : World) :
  exists u w',
    create_content A B tft of_str f width height w = (u, w') /\
    line_count u = length (counters (bar w)) /\
    show_cursor u = false /\
    (forall i pr, nth_error (counters (bar w)) i = Some pr ->
       get_line u (Z.of_nat i) =
         Ok (match format f (objs w) (bar w) (rt w) pr width with
             | Ok t => tft t
             | Raise _ => tft (of_str "ERROR"%string)
             end)) /\
    trace w' = trace w ++
      concat (map (fun pr =>
                     EvFormat pr ::
                     match format f (objs w) (bar w) (rt w) pr width with
                     | Ok _ => []
                     | Raise e => [EvPrintExc e]
                     end) (counters (bar w))) /\
    objs w' = objs w /\ bar w' = bar w /\ rt w' = rt w.
Proof.
  destruct (content_fold tft of_str f width w (counters (bar w)) [] w
              eq_refl eq_refl eq_refl)
    as (w2 & Hfold & Ho & Hb & Hr & _ & Htr).
  unfold create_content. rewrite Hfold. simpl.
  eexists _, w2. split; [reflexivity|]. simpl.
  split; [now rewrite length_map|]. split; [reflexivity|].
  split.
  { intros i pr Hi. apply py_getitem_nth.
    rewrite nth_error_map, Hi. reflexivity. }
  split; [exact Htr|]. repeat split; assumption.
Qed.

(** ** create_output *)

(** C9: on Windows [create_output] returns the Windows 10 backend when
    VT100 mode is enabled, else the ConEmu backend when ConEmu is detected,
    else the Win32 backend; elsewhere the VT100 backend made by [from_pty]
    from the stream and the [TERM] value; the stream is [sys.__stdout__]
    when none is given, and the given one when it is a true object. *)
Theorem C9_create_output (h : Defaults.Host) (stdout : option Defaults.Stream) :
  let dest := Defaults.py_or stdout (Defaults.sys___stdout__ h) in
  Defaults.create_output h stdout =
    (if Defaults.is_windows h then
       if Defaults.is_win_vt100_enabled h then Defaults.Windows10_Output dest
       else if Defaults.is_conemu_ansi h then Defaults.ConEmuOutput dest
       else Defaults.Win32Output dest
     else Defaults.Vt100_Output_from_pty dest
            (Defaults.get_term_environment_variable h)) /\
  (stdout = None -> dest = Defaults.sys___stdout__ h) /\
  (forall s, stdout = Some s -> Defaults.stream_truthy s = true -> dest = Some s).
Proof.
  cbv zeta. split; [reflexivity|]. split.
  - intros ->. reflexivity.
  - intros s -> Hs. simpl. now rewrite Hs.
Qed.

(** ** The statements on the concrete run *)

(** A frame over a done counter and a working one: the formatter raises
    for the first, whose line is the placeholder, and the second line is
    produced. *)
Lemma C5_create_content_witness :
  exists u w',
    create_content DemoText (list (string * string)) demo_to_formatted_text
      DemoStr demo_formatter 80 2 demo_two_done = (u, w') /\
    line_count u = 2%nat /\
    get_line u 0 = Ok [(EmptyString, "ERROR"%string)] /\
    get_line u 1 = Ok [(EmptyString, "working"%string)] /\
    trace w' = trace demo_two_done ++
               [EvFormat 0; EvPrintExc (OtherError 1); EvFormat 1].
Proof.
  destruct (C5_create_content DemoText (list (string * string))
              demo_to_formatted_text DemoStr demo_formatter 80 2 demo_two_done)
    as (u & w' & Hc & Hn & _ & Hl & Ht & _).
  exists u, w'. split; [exact Hc|]. split; [exact Hn|].
  split; [exact (Hl 0%nat 0%nat eq_refl)|].
  split; [exact (Hl 1%nat 1%nat eq_refl)|]. exact Ht.
Defined.

(** The turns of the loop are the steps [advance]: after [k] items pulled
    from the wrapper the counter reports the percentage of [advanced k]. *)
Lemma pull_percentage k self w xs g' w' :
  pull k (__iter__ self) w = Some (xs, g', w') ->
  percentage (objs w' self) = percentage (advanced (Z.of_nat k) (objs w self)).
Proof.
  intros H. apply pull_inv in H; [|discriminate].
  destruct H as (_&_&(_&_&_&_&Ht&_)&Hc&_). simpl in Ht, Hc.
  unfold percentage, advanced.
  rewrite Nat2Z.id, advance_iter_total, advance_iter_current, Ht, Hc.
  reflexivity.
Qed.

(** On the concrete run: the three items of [pb([10, 20, 30])] are pulled
    and the percentage is 100. *)
Lemma demo_pull_all :
  exists g w, pull 3 (__iter__ 0%nat) demo_called = Some ([10; 20; 30], g, w) /\
    percentage_is_100 (objs w 0%nat).
Proof.
  assert (Hx : option_map (fun x => fst (fst x)) (pull 3 (__iter__ 0%nat) demo_called)
               = Some [10; 20; 30]) by (vm_compute; reflexivity).
  destruct (pull 3 (__iter__ 0%nat) demo_called) as [[[xs g] w]|] eqn:H;
    [|discriminate].
  simpl in Hx. injection Hx as ->.
  exists g, w. split; [reflexivity|].
  unfold percentage_is_100. rewrite (pull_percentage _ _ _ _ _ _ H).
  exists (spec_percentage (advanced 3 (objs demo_called 0%nat))).
  split; [apply percentage_spec|]. vm_compute. reflexivity.
Qed.

Lemma pair_fst {X Y : Type} (x : X * Y) (a : X) : fst x = a -> x = (a, snd x).
Proof. destruct x; simpl; now intros ->. Qed.



(** A quarter of the work took 6 seconds: 18 more are expected. *)
Lemma time_left_quarter :
  percentage_float quarter_counter =
    Ok (PyFloat (S754_finite false 7036874417766400 (-48))) /\
  time_elapsed 11 quarter_counter = 6000000 /\
  time_left 11 quarter_counter = Ok (Some 18000000).
Proof. repeat split; vm_compute; reflexivity. Qed.

(** * Further properties *)

(** ** What the calls on a generator touch *)

Lemma invalidate_gen self w r w' :
  invalidate w = (r, w') -> rtc (gen_effect self) w w'.
Proof.
  intros H. apply invalidate_inv in H as [(_&_&->)|(_&_&->)];
    [apply rtc_refl|apply rtc_once, ge_log].
Qed.

Lemma cleanup_gen self w rc w' :
  cleanup self w = (rc, w') -> rtc (gen_effect self) w w'.
Proof.
  rewrite cleanup_unfold. cbv zeta.
  assert (H2 : rtc (gen_effect self) w
                 (upd_obj self (set_done true) (log (EvCleanup self) w))).
  { eapply rtc_l; [apply ge_log|]. apply rtc_once, ge_done. }
  destruct (remove_when_done (objs w self)).
  - destruct (list_remove self (counters (bar w))) as [l|] eqn:Hl;
      intros H; injection H as <- <-; [|exact H2].
    eapply rtc_r; [exact H2|]. apply ge_remove. exact Hl.
  - intros H; injection H as <- <-. exact H2.
Qed.

Lemma leave_try_gen self pending w r g w' :
  leave_try self pending w = (r, g, w') -> rtc (gen_effect self) w w'.
Proof.
  intros H. apply leave_try_inv in H as (_ & rc & H & _).
  eapply cleanup_gen; eauto.
Qed.

Lemma loop_turn_gen self d pos w r g w' :
  loop_turn self d pos w = (r, g, w') -> rtc (gen_effect self) w w'.
Proof.
  unfold loop_turn. destruct (it_next d pos) as [x| |e];
    eauto using leave_try_gen.
  destruct (invalidate (upd_obj self advance w)) as [[u|e] w2] eqn:Hi;
    apply (invalidate_gen self) in Hi; intros H.
  - injection H as <- <- <-. eapply rtc_l; [apply ge_advance|exact Hi].
  - apply leave_try_gen in H.
    eapply rtc_l; [apply ge_advance|]. eapply rtc_trans; eauto.
Qed.

Lemma gen_next_gen g w r g' w' :
  gen_next g w = (r, g', w') -> rtc (gen_effect (gen_self g)) w w'.
Proof.
  unfold gen_next. destruct (gen_state g) as [|d pos|].
  - destruct (data (objs w (gen_self g)));
      eauto using loop_turn_gen, leave_try_gen.
  - apply loop_turn_gen.
  - intros H; injection H as <- <- <-. apply rtc_refl.
Qed.

Lemma gen_throw_gen e g w r g' w' :
  gen_throw e g w = (r, g', w') -> rtc (gen_effect (gen_self g)) w w'.
Proof.
  unfold gen_throw. destruct (gen_state g) as [|d pos|];
    eauto using leave_try_gen;
    intros H; injection H as <- <- <-; apply rtc_refl.
Qed.

Lemma gen_close_gen g w r g' w' :
  gen_close g w = (r, g', w') -> rtc (gen_effect (gen_self g)) w w'.
Proof.
  unfold gen_close.
  destruct (gen_throw GeneratorExit g w) as [[r0 g0] w0] eqn:E.
  apply gen_throw_gen in E. intros H.
  assert (w' = w0) as ->; [|exact E].
  destruct r0 as [x| |e0]; [| |destruct e0]; now injection H.
Qed.

Lemma finish_gen how g w r g' w' :
  finish how g w = (r, g', w') -> rtc (gen_effect (gen_self g)) w w'.
Proof.
  destruct how; simpl; eauto using gen_next_gen, gen_close_gen, gen_throw_gen.
Qed.

Lemma list_remove_filter x l l' :
  list_remove x l = Some l' ->
  filter (fun a => a <> x) l' = filter (fun a => a <> x) l.
Proof.
  revert l'. induction l as [|y l IH]; intros l' H; [discriminate|].
  simpl in H. destruct (decide (x = y)) as [->|Hne].
  - injection H as <-. rewrite filter_cons_False; [reflexivity|]. intros Hc. now apply Hc.
  - destruct (list_remove x l) as [l0|]; [|discriminate]. injection H as <-.
    rewrite !filter_cons_True by congruence. f_equal. now apply IH.
Qed.

Lemma gen_effect_others self w w' :
  gen_effect self w w' -> others_untouched self w w'.
Proof.
  intros H. destruct H; unfold others_untouched; simpl.
  - repeat split.
  - split; [|split; reflexivity]. intros a Ha. now rewrite decide_False.
  - split; [|split; reflexivity]. intros a Ha. now rewrite decide_False.
  - split; [reflexivity|]. split; [|reflexivity]. now apply list_remove_filter.
Qed.

Lemma others_untouched_refl self w : others_untouched self w w.
Proof. unfold others_untouched. repeat split. Qed.

Lemma others_untouched_trans self w1 w2 w3 :
  others_untouched self w1 w2 -> others_untouched self w2 w3 ->
  others_untouched self w1 w3.
Proof.
  unfold others_untouched. intros (H1&F1&N1) (H2&F2&N2).
  split; [|split; congruence]. intros a Ha. rewrite H2, H1; auto.
Qed.

Lemma gen_effects_others self w w' :
  rtc (gen_effect self) w w' -> others_untouched self w w'.
Proof.
  induction 1; [apply others_untouched_refl|].
  eauto using others_untouched_trans, gen_effect_others.
Qed.

Lemma counter_grows_refl c : counter_grows c c.
Proof. unfold counter_grows. repeat split; auto; lia. Qed.

Lemma counter_grows_trans c1 c2 c3 :
  counter_grows c1 c2 -> counter_grows c2 c3 -> counter_grows c1 c3.
Proof.
  unfold counter_grows. intros (?&?&?&?&?&?&?) (?&?&?&?&?&?&?).
  repeat split; try congruence; auto; lia.
Qed.

Lemma store_grows_refl w : store_grows w w.
Proof. split; [lia|]. intros; apply counter_grows_refl. Qed.

Lemma store_grows_trans w1 w2 w3 :
  store_grows w1 w2 -> store_grows w2 w3 -> store_grows w1 w3.
Proof.
  intros [N1 H1] [N2 H2]. split; [lia|]. intros a Ha.
  eapply counter_grows_trans; [apply H1; lia|apply H2; lia].
Qed.

Lemma gen_effect_grows self w w' : gen_effect self w w' -> store_grows w w'.
Proof.
  intros H. destruct H; (split; [simpl; lia|]); intros a _; simpl;
    try apply counter_grows_refl;
    destruct (decide (a = self)); try apply counter_grows_refl;
    unfold counter_grows; simpl; repeat split; auto; lia.
Qed.

Lemma mutation_grows w w' : mutation w w' -> store_grows w w'.
Proof.
  intros H. destruct H as [self w w' H|w w' Ho Hn|c w].
  - eapply gen_effect_grows; eauto.
  - split; [lia|]. intros a _. rewrite Ho. apply counter_grows_refl.
  - split; [simpl; lia|]. intros a Ha. simpl.
    rewrite decide_False by lia. apply counter_grows_refl.
Qed.

Lemma mutations_grow w w' : rtc mutation w w' -> store_grows w w'.
Proof.
  induction 1; [apply store_grows_refl|].
  eauto using store_grows_trans, mutation_grows.
Qed.

Lemma gen_effects_mutations self w w' :
  rtc (gen_effect self) w w' -> rtc mutation w w'.
Proof.
  induction 1; [apply rtc_refl|]. eapply rtc_l; [eapply mut_gen|]; eauto.
Qed.

(** ** Every step is a sequence of mutations *)

Lemma mut_env_once w w' :
  objs w' = objs w -> next_obj w' = next_obj w -> rtc mutation w w'.
Proof. intros. now apply rtc_once, mut_env. Qed.

Lemma create_content_store (A B : Type) (tft : A -> B) (of_str : string -> A)
    (f : Formatter A) width height w u w' :
  create_content A B tft of_str f width height w = (u, w') ->
  objs w' = objs w /\ next_obj w' = next_obj w /\ bar w' = bar w /\ rt w' = rt w.
Proof.
  destruct (content_fold tft of_str f width w (counters (bar w)) [] w
              eq_refl eq_refl eq_refl)
    as (w2 & Hfold & Ho & Hb & Hr & Hn & _).
  unfold create_content. rewrite Hfold. intros H; injection H as <- <-. auto.
Qed.

Lemma work_mutations w w' : work w w' -> rtc mutation w w'.
Proof.
  intros H. destruct H.
  - now apply mut_env_once.
  - now apply mut_env_once.
  - now apply mut_env_once.
  - apply create_content_store in H as (?&?&_). now apply mut_env_once.
  - rewrite call_unfold in H.
    destruct (counter_init _ _ _ _ _) as [c|e]; injection H as <- <-;
      [apply rtc_once, mut_new|apply rtc_refl].
  - eapply gen_effects_mutations, (invalidate_gen 0%nat); eauto.
  - eapply gen_effects_mutations, gen_next_gen; eauto.
  - eapply gen_effects_mutations, gen_close_gen; eauto.
  - eapply gen_effects_mutations, gen_throw_gen; eauto.
Qed.

Lemma exit_store w r w' :
  __exit__ w = (r, w') ->
  objs w' = objs w /\ next_obj w' = next_obj w /\ bar w' = bar w.
Proof.
  destruct (app (bar w)) as [a|] eqn:Ha.
  - destruct (exit_effect w a Ha) as (w3&Hex&Ho&Hn&Hb&_).
    rewrite Hex. intros H; injection H as <- <-. auto.
  - unfold __exit__, bind, app_is_running. rewrite Ha.
    intros H; injection H as <- <-. auto.
Qed.

Lemma step_mutations w w' : step w w' -> rtc mutation w w'.
Proof.
  intros H. destruct H as [w w' H|w r w' H|w r w' H].
  - now apply work_mutations.
  - apply enter_effect in H as (_&?&?&_). now apply mut_env_once.
  - apply exit_store in H as (?&?&_). now apply mut_env_once.
Qed.

Lemma steps_mutations w w' : rtc step w w' -> rtc mutation w w'.
Proof.
  induction 1; [apply rtc_refl|].
  eapply rtc_trans; [apply step_mutations|]; eauto.
Qed.

Lemma demo_done_steps : rtc step demo_called demo_done.
Proof.
  assert (Hr : option_map fst (for_each 4 (__iter__ 0%nat) demo_called)
               = Some Returned) by (vm_compute; reflexivity).
  unfold demo_done.
  destruct (for_each 4 (__iter__ 0%nat) demo_called) as [[r w]|] eqn:E;
    [|discriminate].
  eapply for_each_steps. exact E.
Qed.

(** X2: whatever happens to the bar, a counter that exists keeps [done]
    once it is set, never sees [current] decrease, and keeps the [total],
    [data], [remove_when_done], [label] and [start_time] it was created
    with. *)
Theorem X2_counters_only_grow (w w' : World) (a : nat) :
  rtc step w w' ->
  (a < next_obj w)%nat ->
  (done (objs w a) = true -> done (objs w' a) = true) /\
  current (objs w a) <= current (objs w' a) /\
  total (objs w' a) = total (objs w a) /\
  data (objs w' a) = data (objs w a) /\
  remove_when_done (objs w' a) = remove_when_done (objs w a) /\
  label (objs w' a) = label (objs w a) /\
  start_time (objs w' a) = start_time (objs w a).
Proof.
  intros Hs Ha. apply steps_mutations, mutations_grow in Hs as [_ H].
  exact (H a Ha).
Qed.

Lemma X2_counters_only_grow_witness :
  rtc step demo_called demo_done /\
  (0 < next_obj demo_called)%nat /\
  current (objs demo_called 0%nat) <= current (objs demo_done 0%nat) /\
  total (objs demo_done 0%nat) = total (objs demo_called 0%nat).
Proof.
  assert (Ha : (0 < next_obj demo_called)%nat) by (vm_compute; lia).
  destruct (X2_counters_only_grow demo_called demo_done 0%nat
              demo_done_steps Ha) as (_ & Hc & Ht & _).
  split; [exact demo_done_steps|]. split; [exact Ha|].
  split; [exact Hc|exact Ht].
Defined.

(** X3: a call of [next], [close] or [throw] on the generator of one
    counter changes no other counter object, allocates nothing, and keeps
    the other registry entries, in their order. *)
Theorem X3_iteration_touches_own_counter (how : Ending) (g g' : Generator)
    (w w' : World) (r : GenResult) :
  finish how g w = (r, g', w') ->
  (forall a, a <> gen_self g -> objs w' a = objs w a) /\
  filter (fun a => a <> gen_self g) (counters (bar w'))
  = filter (fun a => a <> gen_self g) (counters (bar w)) /\
  (forall a, a <> gen_self g ->
     (a ∈ counters (bar w') <-> a ∈ counters (bar w))) /\
  next_obj w' = next_obj w.
Proof.
  intros H. apply finish_gen, gen_effects_others in H as (Ho&Hf&Hn).
  split; [exact Ho|]. split; [exact Hf|]. split; [|exact Hn].
  intros a Ha.
  assert (Hin : forall l : list nat,
             a ∈ l <-> a ∈ filter (fun b => b <> gen_self g) l).
  { intros l. rewrite list_elem_of_filter. tauto. }
  rewrite (Hin (counters (bar w'))), (Hin (counters (bar w))), Hf. tauto.
Qed.

Lemma X3_iteration_touches_own_counter_witness :
  finish Exhaust (__iter__ 0%nat) demo_two
  = (Returned, closed_gen 0%nat, snd (finish Exhaust (__iter__ 0%nat) demo_two)) /\
  objs (snd (finish Exhaust (__iter__ 0%nat) demo_two)) 1%nat = objs demo_two 1%nat /\
  (1%nat ∈ counters (bar (snd (finish Exhaust (__iter__ 0%nat) demo_two)))
   <-> 1%nat ∈ counters (bar demo_two)).
Proof.
  assert (H : finish Exhaust (__iter__ 0%nat) demo_two
              = (Returned, closed_gen 0%nat,
                 snd (finish Exhaust (__iter__ 0%nat) demo_two))).
  { apply pair_fst. vm_compute. reflexivity. }
  destruct (X3_iteration_touches_own_counter _ _ _ _ _ _ H) as (Ho & _ & Hm & _).
  split; [exact H|]. split; [apply Ho; discriminate|apply Hm; discriminate].
Defined.

(** ** The order of the registry *)

Lemma list_remove_sorted x l l' :
  list_remove x l = Some l' -> StronglySorted lt l -> StronglySorted lt l'.
Proof.
  revert l'. induction l as [|y l IH]; intros l' H Hs; [discriminate|].
  simpl in H. apply StronglySorted_inv in Hs as [Hs Hy].
  destruct (decide (x = y)).
  - now injection H as <-.
  - destruct (list_remove x l) as [l0|] eqn:E; [|discriminate].
    injection H as <-. constructor; [now apply IH|].
    eapply list_remove_Forall; eauto.
Qed.

Lemma sorted_snoc (l : list nat) (n : nat) :
  StronglySorted lt l -> Forall (fun a => (a < n)%nat) l ->
  StronglySorted lt (l ++ [n]).
Proof.
  induction l as [|y l IH]; intros Hs Hall; simpl.
  - constructor; constructor.
  - apply StronglySorted_inv in Hs as [Hs Hy].
    apply Forall_cons in Hall as [Hyn Hall].
    constructor; [now apply IH|].
    apply Forall_app. split; [exact Hy|]. now apply Forall_singleton.
Qed.

Lemma effect_registry_sorted w w' :
  effect w w' -> registry_sorted w -> registry_sorted w'.
Proof.
  intros H [Hs Hall]. destruct H; try (split; assumption).
  - split; simpl.
    + eapply list_remove_sorted; eauto.
    + eapply list_remove_Forall; eauto.
  - split; simpl.
    + now apply sorted_snoc.
    + apply Forall_app. split.
      * eapply Forall_impl; [exact Hall|]. simpl. intros; lia.
      * apply Forall_singleton. lia.
Qed.

Lemma step_registry_sorted w w' :
  step w w' -> registry_sorted w -> registry_sorted w'.
Proof.
  intros H Hs. destruct H as [w w' H|w r w' H|w r w' H].
  - apply work_effects in H. induction H; eauto using effect_registry_sorted.
  - apply enter_effect in H as (_&_&Hn&Hc&_).
    unfold registry_sorted. now rewrite Hn, Hc.
  - apply exit_store in H as (_&Hn&Hb).
    unfold registry_sorted. now rewrite Hn, Hb.
Qed.

Lemma steps_registry_sorted w w' :
  rtc step w w' -> registry_sorted w -> registry_sorted w'.
Proof. induction 1; eauto using step_registry_sorted. Qed.

Lemma sorted_lt_NoDup (l : list nat) : StronglySorted lt l -> NoDup l.
Proof.
  induction 1 as [|y l Hs IH Hy]; [apply NoDup_nil_2|].
  apply NoDup_cons. split; [|exact IH].
  intros Hin. rewrite Forall_forall in Hy. specialize (Hy _ Hin). lia.
Qed.

(** X1: in every reachable world the registry lists the counters in the
    order of their creation (increasing addresses), without repetition,
    and every entry is a counter that was created. *)
Theorem X1_registry_in_creation_order (w : World) :
  reachable w ->
  StronglySorted lt (counters (bar w)) /\
  NoDup (counters (bar w)) /\
  Forall (fun a => (a < next_obj w)%nat) (counters (bar w)).
Proof.
  intros (r & w0 & Hi & Hs). unfold bar_init in Hi.
  destruct (host_has_sigwinch r); [|discriminate]. injection Hi as <-.
  assert (H : registry_sorted w).
  { eapply steps_registry_sorted; [exact Hs|]. split; simpl; constructor. }
  destruct H as [H1 H2]. split; [exact H1|]. split; [|exact H2].
  now apply sorted_lt_NoDup.
Qed.

Lemma demo_two_reachable : reachable demo_two.
Proof.
  exists demo_rt, (fresh_world demo_rt). split; [reflexivity|].
  eapply rtc_l; [eapply (step_enter _ (Ok tt) demo_entered)|].
  { apply pair_fst. vm_compute. reflexivity. }
  eapply rtc_l.
  { apply step_work.
    apply (work_call demo_entered None "" false None (Ok 0%nat) demo_one).
    apply pair_fst. vm_compute. reflexivity. }
  apply rtc_once, step_work.
  apply (work_call demo_one (Some (list_iterable [1])) "" false None
           (Ok 1%nat) demo_two).
  apply pair_fst. vm_compute. reflexivity.
Qed.

Lemma X1_registry_in_creation_order_witness :
  counters (bar demo_two) = [0%nat; 1%nat] /\
  StronglySorted lt (counters (bar demo_two)) /\
  NoDup (counters (bar demo_two)) /\
  Forall (fun a => (a < next_obj demo_two)%nat) (counters (bar demo_two)).
Proof.
  split; [vm_compute; reflexivity|].
  exact (X1_registry_in_creation_order demo_two demo_two_reachable).
Defined.

(** ** The host *)

Lemma effect_host_frame w w' : effect w w' -> host_frame w w'.
Proof. intros H. destruct H; split; reflexivity. Qed.

Lemma host_frame_trans w1 w2 w3 :
  host_frame w1 w2 -> host_frame w2 w3 -> host_frame w1 w3.
Proof. intros [? ?] [? ?]. split; congruence. Qed.

Lemma enter_host_frame w r w' : __enter__ w = (r, w') -> host_frame w w'.
Proof.
  unfold __enter__, bind, modify, gets, when, thread_start, add_signal_handler,
    signal_signal, ret. simpl.
  destruct (host_has_sigwinch (rt w) && in_main_thread (rt w));
    unfold bind, modify, gets; simpl;
    intros H; injection H as <- <-; split; reflexivity.
Qed.

Lemma exit_host_frame w r w' : __exit__ w = (r, w') -> host_frame w w'.
Proof.
  unfold __exit__, bind, app_is_running, app_exit, when, gets, modify,
    remove_signal_handler, signal_signal, thread_join, ret.
  destruct (app (bar w)) as [a|] eqn:Ha;
    [|intros H; injection H as <- <-; split; reflexivity].
  destruct (is_running a) eqn:Hr; simpl; rewrite ?Ha, ?Hr; simpl;
    destruct (_has_sigwinch (bar w)); simpl;
    destruct (loop_sigwinch (rt w)); simpl;
    unfold bind, modify, ret; simpl;
    destruct (_thread (bar w)) as [[]|]; simpl;
    intros H; injection H as <- <-; split; reflexivity.
Qed.

Lemma step_host_frame w w' : step w w' -> host_frame w w'.
Proof.
  intros H. destruct H as [w w' H|w r w' H|w r w' H];
    eauto using enter_host_frame, exit_host_frame.
  apply work_effects in H.
  induction H; [split; reflexivity|].
  eauto using host_frame_trans, effect_host_frame.
Qed.

Lemma steps_host_frame w w' : rtc step w w' -> host_frame w w'.
Proof.
  induction 1; [split; reflexivity|].
  eauto using host_frame_trans, step_host_frame.
Qed.

(** X4: a bar exists only on a host whose [signal] module has [SIGWINCH]
    ([__init__] reads it without a guard), so the [hasattr] test of
    [__enter__] never fails: in every reachable world [__enter__] returns
    normally, installs the resize hook exactly when called in the main
    thread, and the handler it saves is the one in place at that moment. *)
Theorem X4_hook_iff_main_thread (w : World) :
  reachable w ->
  host_has_sigwinch (rt w) = true /\
  exists w',
    __enter__ w = (Ok tt, w') /\
    _has_sigwinch (bar w') = in_main_thread (rt w) /\
    (in_main_thread (rt w) = true ->
       loop_sigwinch (rt w') = Some BarInvalidate /\
       _previous_winch_handler (bar w') = sigwinch (rt w)) /\
    (in_main_thread (rt w) = false ->
       loop_sigwinch (rt w') = loop_sigwinch (rt w) /\
       sigwinch (rt w') = sigwinch (rt w)).
Proof.
  intros (r & w0 & Hi & Hs). unfold bar_init in Hi.
  destruct (host_has_sigwinch r) eqn:Hh; [|discriminate]. injection Hi as <-.
  apply steps_host_frame in Hs as [Hhost _]. simpl in Hhost.
  rewrite Hh in Hhost. split; [exact Hhost|].
  destruct (__enter__ w) as [r' w'] eqn:He.
  apply enter_effect in He as (->&_&_&_&_&_&Hhas&Hsig).
  rewrite Hhost in Hhas, Hsig. simpl in Hhas, Hsig.
  exists w'. split; [reflexivity|]. split; [exact Hhas|].
  destruct (in_main_thread (rt w)).
  - split; [intros _; tauto|discriminate].
  - split; [discriminate|intros _; tauto].
Qed.

Lemma X4_hook_iff_main_thread_witness :
  reachable demo_two /\ host_has_sigwinch (rt demo_two) = true.
Proof.
  split; [exact demo_two_reachable|].
  exact (proj1 (X4_hook_iff_main_thread demo_two demo_two_reachable)).
Defined.

(** ** A whole pass over a list *)

Lemma cleanup_trace self w rc w' :
  cleanup self w = (rc, w') ->
  trace w' = trace w ++ [EvCleanup self] /\ app (bar w') = app (bar w) /\
  data (objs w' self) = data (objs w self) /\
  remove_when_done (objs w' self) = remove_when_done (objs w self).
Proof.
  rewrite cleanup_unfold. cbv zeta.
  destruct (remove_when_done (objs w self)) eqn:Hrw;
    [destruct (list_remove self (counters (bar w)))|];
    intros H; injection H as <- <-; simpl;
    rewrite decide_True by reflexivity; repeat split; exact Hrw.
Qed.

Lemma iter_turn_facts self k : forall w,
  trace (Nat.iter k (turn_world self) w)
  = trace w ++ repeat (EvScheduled AppInvalidate) k /\
  bar (Nat.iter k (turn_world self) w) = bar w /\
  next_obj (Nat.iter k (turn_world self) w) = next_obj w /\
  current (objs (Nat.iter k (turn_world self) w) self)
  = current (objs w self) + Z.of_nat k /\
  done (objs (Nat.iter k (turn_world self) w) self) = done (objs w self) /\
  total (objs (Nat.iter k (turn_world self) w) self) = total (objs w self) /\
  data (objs (Nat.iter k (turn_world self) w) self) = data (objs w self) /\
  remove_when_done (objs (Nat.iter k (turn_world self) w) self)
  = remove_when_done (objs w self).
Proof.
  induction k as [|k IH]; intros w.
  - simpl. rewrite app_nil_r. repeat split. lia.
  - destruct (IH w) as (Ht&Hb&Hn&Hc&Hd&Hto&Hda&Hr).
    change (Nat.iter (S k) (turn_world self) w)
      with (turn_world self (Nat.iter k (turn_world self) w)).
    unfold turn_world at 1 3 5 7 9 11 13 15. simpl trace. simpl bar. simpl next_obj.
    rewrite objs_log, upd_obj_same. simpl.
    rewrite Ht, Hb, Hn, Hc, Hd, Hto, Hda, Hr.
    repeat split; try lia.
    rewrite <- app_assoc. f_equal. symmetry. apply repeat_cons.
Qed.

Lemma gen_next_yield self d pos x w :
  it_next d pos = IYield x -> app (bar w) <> None ->
  gen_next (suspended_at self d pos) w
  = (Yielded x, suspended_at self d (S pos), turn_world self w).
Proof.
  intros Hn Ha. unfold gen_next, suspended_at, loop_turn, invalidate. simpl.
  rewrite Hn. destruct (app (bar w)); [reflexivity|contradiction].
Qed.

Lemma iter_turn_shift {X} (f : X -> X) k x :
  Nat.iter k f (f x) = Nat.iter (S k) f x.
Proof. induction k as [|k IH]; simpl; [reflexivity|]. now rewrite IH. Qed.

Lemma pull_list self (l : list Item) : forall (pre : list Item) w,
  app (bar w) <> None ->
  pull (length l) (suspended_at self (list_iterable (pre ++ l)) (length pre)) w
  = Some (l, suspended_at self (list_iterable (pre ++ l)) (length pre + length l),
          Nat.iter (length l) (turn_world self) w).
Proof.
  induction l as [|x l IH]; intros pre w Ha.
  - simpl. now rewrite Nat.add_0_r.
  - cbn [length pull].
    rewrite (gen_next_yield self _ _ x).
    + specialize (IH (pre ++ [x]) (turn_world self w)).
      rewrite <- app_assoc, length_app in IH. simpl in IH.
      replace (length pre + 1)%nat with (S (length pre)) in IH by lia.
      rewrite IH by exact Ha.
      rewrite iter_turn_shift.
      replace (S (length pre) + length l)%nat
        with (length pre + S (length l))%nat by lia.
      reflexivity.
    + simpl. rewrite nth_error_app2 by lia.
      now rewrite Nat.sub_diag.
    + exact Ha.
Qed.

Lemma created_as_suspended self d w :
  data (objs w self) = Some d ->
  gen_next (__iter__ self) w = gen_next (suspended_at self d 0) w.
Proof. intros H. unfold gen_next. simpl. now rewrite H. Qed.

Lemma pull_created self d k w :
  data (objs w self) = Some d ->
  pull (S k) (__iter__ self) w = pull (S k) (suspended_at self d 0) w.
Proof. intros H. simpl. now rewrite (created_as_suspended self d w H). Qed.

Lemma for_each_of_pull k : forall g w xs g1 w1 r g2 w2,
  pull k g w = Some (xs, g1, w1) ->
  gen_next g1 w1 = (r, g2, w2) ->
  (forall x, r <> Yielded x) ->
  for_each (S k) g w = Some (r, w2).
Proof.
  induction k as [|k IH]; intros g w xs g1 w1 r g2 w2 Hp Hn Hny.
  - injection Hp as <- <- <-. simpl. rewrite Hn.
    destruct r; [now destruct (Hny x)|reflexivity|reflexivity].
  - simpl in Hp. destruct (gen_next g w) as [[r0 g0] w0] eqn:E.
    destruct r0 as [x| |e]; try discriminate.
    destruct (pull k g0 w0) as [[[xs' g'] w']|] eqn:Hp'; [|discriminate].
    injection Hp as <- <- <-.
    change (for_each (S (S k)) g w)
      with (match gen_next g w with
            | (Yielded _, g', w') => for_each (S k) g' w'
            | (r, _, w') => Some (r, w')
            end).
    rewrite E. eapply IH; eauto.
Qed.

(** A pass over a counter whose data is the list [l], on an entered bar:
    the items, the final [next], and what the world looks like then. *)
Lemma full_pass self (l : list Item) w :
  data (objs w self) = Some (list_iterable l) ->
  app (bar w) <> None ->
  (remove_when_done (objs w self) = true -> self ∈ counters (bar w)) ->
  exists g w2,
    pull (length l) (__iter__ self) w
    = Some (l, g, Nat.iter (length l) (turn_world self) w) /\
    gen_next g (Nat.iter (length l) (turn_world self) w)
    = (Returned, closed_gen self, w2) /\
    for_each (S (length l)) (__iter__ self) w = Some (Returned, w2) /\
    current (objs w2 self) = current (objs w self) + Z.of_nat (length l) /\
    done (objs w2 self) = true /\
    total (objs w2 self) = total (objs w self) /\
    data (objs w2 self) = data (objs w self) /\
    remove_when_done (objs w2 self) = remove_when_done (objs w self) /\
    app (bar w2) = app (bar w) /\
    trace w2 = trace w ++ repeat (EvScheduled AppInvalidate) (length l)
               ++ [EvCleanup self].
Proof.
  intros Hd Ha Hreg.
  set (w1 := Nat.iter (length l) (turn_world self) w).
  destruct (iter_turn_facts self (length l) w) as (Ht&Hb&Hn&Hc&Hdn&Hto&Hda&Hr).
  fold w1 in Ht, Hb, Hn, Hc, Hdn, Hto, Hda, Hr.
  set (g := match l with
            | [] => __iter__ self
            | _ => suspended_at self (list_iterable l) (length l)
            end).
  assert (Hp : pull (length l) (__iter__ self) w = Some (l, g, w1)).
  { subst g w1. destruct l as [|x l]; [reflexivity|].
    change (length (x :: l)) with (S (length l)).
    rewrite (pull_created self _ _ _ Hd).
    exact (pull_list self (x :: l) [] w Ha). }
  assert (Hlast : gen_next g w1 = leave_try self None w1).
  { assert (Hs : gen_next (suspended_at self (list_iterable l) (length l)) w1
                 = leave_try self None w1).
    { unfold gen_next, suspended_at, loop_turn. simpl.
      assert (nth_error l (length l) = None) as -> by (apply nth_error_None; lia).
      reflexivity. }
    subst g. destruct l as [|x l]; [|exact Hs].
    rewrite (created_as_suspended self (list_iterable [])); [exact Hs|].
    now rewrite Hda. }
  destruct (leave_try self None w1) as [[r g2] w2] eqn:Hl.
  apply leave_try_inv in Hl as (-> & rc & Hcl & ->).
  pose proof (cleanup_effect _ _ _ _ Hcl) as (E1&E2&E3&E4&_&_&_&E8&E9).
  pose proof (cleanup_trace _ _ _ _ Hcl) as (T1&T2&T3&T4).
  assert (rc = Ok tt) as ->.
  { rewrite Hr, Hb in *. destruct (remove_when_done (objs w self)) eqn:Hrw.
    - specialize (E9 eq_refl).
      destruct (list_remove_elem _ _ (Hreg eq_refl)) as [l' Hl']. rewrite Hl' in E9.
      tauto.
    - now apply E8. }
  exists g, w2. split; [exact Hp|]. split; [exact Hlast|].
  split.
  { eapply for_each_of_pull; [exact Hp|exact Hlast|discriminate]. }
  split; [congruence|]. split; [exact E2|]. split; [congruence|].
  split; [congruence|]. split; [congruence|]. split; [congruence|].
  rewrite T1, Ht. now rewrite <- app_assoc.
Qed.

(** X5: on an entered bar, iterating a counter whose data is a list yields
    the items of the list, in order, and then stops: [current] has grown
    by the length of the list, [done] is set, and the bar was asked to
    repaint once per item, before the cleanup. *)
Theorem X5_pass_over_list (self : nat) (l : list Item) (w : World) :
  data (objs w self) = Some (list_iterable l) ->
  app (bar w) <> None ->
  (remove_when_done (objs w self) = true -> self ∈ counters (bar w)) ->
  exists g w1 w2,
    pull (length l) (__iter__ self) w = Some (l, g, w1) /\
    gen_next g w1 = (Returned, closed_gen self, w2) /\
    for_each (S (length l)) (__iter__ self) w = Some (Returned, w2) /\
    current (objs w2 self) = current (objs w self) + Z.of_nat (length l) /\
    done (objs w2 self) = true /\
    trace w2 = trace w ++ repeat (EvScheduled AppInvalidate) (length l)
               ++ [EvCleanup self].
Proof.
  intros Hd Ha Hreg.
  destruct (full_pass self l w Hd Ha Hreg)
    as (g & w2 & Hp & Hn & Hf & Hc & Hdn & _ & _ & _ & _ & Ht).
  exists g, (Nat.iter (length l) (turn_world self) w), w2.
  repeat split; assumption.
Qed.

Lemma demo_called_facts :
  data (objs demo_called 0%nat) = Some (list_iterable [10; 20; 30]) /\
  app (bar demo_called) <> None /\
  counters (bar demo_called) = [0%nat] /\
  current (objs demo_called 0%nat) = 0.
Proof.
  split; [vm_compute; reflexivity|]. split; [vm_compute; discriminate|].
  split; vm_compute; reflexivity.
Qed.

Lemma X5_pass_over_list_witness :
  exists g w1 w2,
    pull 3 (__iter__ 0%nat) demo_called = Some ([10; 20; 30], g, w1) /\
    gen_next g w1 = (Returned, closed_gen 0%nat, w2) /\
    for_each 4 (__iter__ 0%nat) demo_called = Some (Returned, w2) /\
    current (objs w2 0%nat) = current (objs demo_called 0%nat) + 3 /\
    done (objs w2 0%nat) = true /\
    trace w2 = trace demo_called ++ repeat (EvScheduled AppInvalidate) 3
               ++ [EvCleanup 0%nat].
Proof.
  destruct demo_called_facts as (Hd & Ha & Hc & _).
  apply (X5_pass_over_list 0%nat [10; 20; 30] demo_called Hd Ha).
  intros _. rewrite Hc. apply list_elem_of_singleton. reflexivity.
Defined.

(** X6: the percentage is not capped.  A counter made by [pb(l)] for a
    non-empty list on an entered bar reports 100 after one [for] loop over
    it; a second loop over the same counter counts on, and it reports
    200. *)
Theorem X6_percentage_counts_on (l : list Item) (lab : string) (w w0 : World)
    (self : nat) :
  l <> [] ->
  app (bar w) <> None ->
  __call__ (Some (list_iterable l)) lab false None w = (Ok self, w0) ->
  exists w1 w2 p,
    for_each (S (length l)) (__iter__ self) w0 = Some (Returned, w1) /\
    percentage_is_100 (objs w1 self) /\
    for_each (S (length l)) (__iter__ self) w1 = Some (Returned, w2) /\
    percentage (objs w2 self) = Ok p /\ (p == 200)%Q.
Proof.
  intros Hl Ha Hcall.
  apply call_effect in Hcall as (_&_&_&Hinit&_&_&_&Happ).
  pose proof (counter_init_total _ _ _ _ _ _ Hinit) as Ht. simpl in Ht.
  apply counter_init_fresh in Hinit as (Hcur&_&Hdata&Hrwd&_).
  assert (Ha0 : app (bar w0) <> None) by (now rewrite Happ).
  destruct (full_pass self l w0 Hdata Ha0)
    as (g1 & w1 & _ & _ & Hf1 & Hc1 & _ & Ht1 & Hd1 & Hr1 & Ha1 & _).
  { rewrite Hrwd. discriminate. }
  destruct (full_pass self l w1) as (g2 & w2 & _ & _ & Hf2 & Hc2 & _ & Ht2 & _).
  { congruence. }
  { congruence. }
  { rewrite Hr1, Hrwd. discriminate. }
  assert (Hn : 1 <= Z.of_nat (length l)).
  { destruct l; [contradiction|simpl; lia]. }
  exists w1, w2, (spec_percentage (objs w2 self)).
  split; [exact Hf1|]. split.
  { exists (spec_percentage (objs w1 self)). split; [apply percentage_spec|].
    unfold spec_percentage. rewrite Ht1, Ht, Hc1, Hcur.
    rewrite Z.max_l by lia.
    unfold Qeq, Qdiv, Qmult, Qinv, inject_Z. simpl.
    destruct (Z.of_nat (length l)) as [|n|n]; try lia. simpl. lia. }
  split; [exact Hf2|]. split; [apply percentage_spec|].
  unfold spec_percentage. rewrite Ht2, Ht1, Ht, Hc2, Hc1, Hcur.
  rewrite Z.max_l by lia.
  unfold Qeq, Qdiv, Qmult, Qinv, inject_Z. simpl.
  destruct (Z.of_nat (length l)) as [|n|n]; try lia. simpl. lia.
Qed.

Lemma X6_percentage_counts_on_witness :
  exists w1 w2 p,
    for_each 3 (__iter__ 0%nat) demo_pair = Some (Returned, w1) /\
    percentage_is_100 (objs w1 0%nat) /\
    for_each 3 (__iter__ 0%nat) w1 = Some (Returned, w2) /\
    percentage (objs w2 0%nat) = Ok p /\ (p == 200)%Q.
Proof.
  apply (X6_percentage_counts_on [7; 8] "" demo_entered demo_pair 0%nat).
  - discriminate.
  - vm_compute. discriminate.
  - apply pair_fst. vm_compute. reflexivity.
Defined.

(** X7: once a counter with [remove_when_done] is no longer in the
    registry, every way of ending an iteration over it gives the caller
    the [ValueError] of [list.remove], also [close] and also when another
    exception was on its way; [done] is set all the same and the registry
    is left as it was. *)
Theorem X7_removed_counter_raises (w0 : World) (self k : nat) (how : Ending)
    (xs : list Item) (g1 g2 : Generator) (w1 w2 : World) (r : GenResult) :
  remove_when_done (objs w0 self) = true ->
  self ∉ counters (bar w0) ->
  pull k (__iter__ self) w0 = Some (xs, g1, w1) ->
  finish how g1 w1 = (r, g2, w2) ->
  (how = Exhaust -> forall x, r <> Yielded x) ->
  (how <> Exhaust -> (1 <= k)%nat) ->
  r = Raised ValueError /\
  done (objs w2 self) = true /\
  counters (bar w2) = counters (bar w0) /\
  cleanups self w2 = S (cleanups self w0).
Proof.
  intros Hrw Hout Hpull Hfin Hny Hk.
  assert (Hopen : gen_state (__iter__ self) <> GenClosed) by discriminate.
  destruct (pull_inv _ _ _ _ _ _ Hopen Hpull)
    as (Hs1&_&(Hc&Hn&_&Hr&_)&_&_&Hz&Hpos).
  simpl gen_self in *.
  assert (Hopen1 : gen_state g1 <> GenClosed).
  { destruct k as [|k].
    - destruct (Hz eq_refl) as [-> _]. discriminate.
    - destruct Hpos as [(d&pos&->) _]; [lia|discriminate]. }
  assert (Hsusp : how <> Exhaust -> suspended g1).
  { intros Hh. apply Hpos. auto. }
  destruct (finish_ended _ _ _ _ _ _ Hfin Hopen1 Hny Hsusp)
    as (pending & r0 & Hend & Hres).
  rewrite Hs1 in Hend.
  destruct Hend as (wm & (Hcm&Hnm&_&Hrm&_) & _ & Hlt).
  apply leave_try_inv in Hlt as (_ & rc & Hcl & ->).
  pose proof (cleanup_effect _ _ _ _ Hcl) as (E1&E2&_&_&_&_&_&_&E9).
  rewrite Hrm, Hr, Hrw in E9. specialize (E9 eq_refl).
  rewrite Hcm, Hc in E9.
  rewrite (list_remove_not_elem _ _ Hout) in E9. destruct E9 as [-> E9].
  split.
  { destruct how as [| |e]; [exact Hres| |].
    - now destruct Hres as [_ ->].
    - now destruct Hres as [_ ->]. }
  split; [exact E2|]. split; [exact E9|]. congruence.
Qed.

Lemma demo_done_facts :
  remove_when_done (objs demo_done 0%nat) = true /\
  counters (bar demo_done) = [] /\
  option_map (fun x => fst (fst x)) (pull 1 (__iter__ 0%nat) demo_done)
  = Some [10].
Proof. repeat split; vm_compute; reflexivity. Qed.

Lemma X7_removed_counter_raises_witness :
  exists g1 w1 g2 w2,
    pull 1 (__iter__ 0%nat) demo_done = Some ([10], g1, w1) /\
    finish Abandon g1 w1 = (Raised ValueError, g2, w2) /\
    done (objs w2 0%nat) = true /\
    counters (bar w2) = counters (bar demo_done).
Proof.
  destruct demo_done_facts as (Hrw & Hc & Hx).
  destruct (pull 1 (__iter__ 0%nat) demo_done) as [[[xs g1] w1]|] eqn:Hp;
    [|discriminate].
  simpl in Hx. injection Hx as ->.
  destruct (finish Abandon g1 w1) as [[r g2] w2] eqn:Hf.
  assert (Hout : 0%nat ∉ counters (bar demo_done)).
  { rewrite Hc. apply not_elem_of_nil. }
  destruct (X7_removed_counter_raises demo_done 0%nat 1%nat Abandon [10]
              g1 g2 w1 w2 r Hrw Hout Hp Hf)
    as (-> & Hd & Hreg & _).
  - discriminate.
  - intros _. lia.
  - exists g1, w1, g2, w2. repeat split; assumption.
Defined.

(** ** A bar that was never entered *)

Lemma effect_keeps_no_app w w' :
  effect w w' -> app (bar w) = None -> app (bar w') = None.
Proof. intros H Ha. destruct H; simpl; try exact Ha. congruence. Qed.

Lemma works_keep_no_app w w' :
  rtc work w w' -> app (bar w) = None -> app (bar w') = None.
Proof.
  intros H. apply works_effects in H.
  induction H; eauto using effect_keeps_no_app.
Qed.

Lemma first_next_unentered self d x w :
  app (bar w) = None ->
  data (objs w self) = Some d ->
  it_next d 0 = IYield x ->
  (remove_when_done (objs w self) = true -> self ∈ counters (bar w)) ->
  exists w',
    gen_next (__iter__ self) w = (Raised AttributeError, closed_gen self, w') /\
    current (objs w' self) = current (objs w self) + 1 /\
    done (objs w' self) = true /\
    trace w' = trace w ++ [EvCleanup self].
Proof.
  intros Ha Hd Hn Hreg.
  destruct (leave_try self (Some AttributeError) (upd_obj self advance w))
    as [[r g] w'] eqn:Hl.
  assert (Hg : gen_next (__iter__ self) w = (r, g, w')).
  { unfold gen_next. simpl. rewrite Hd. unfold loop_turn, invalidate.
    rewrite Hn. simpl. rewrite Ha. exact Hl. }
  apply leave_try_inv in Hl as (-> & rc & Hcl & ->).
  pose proof (cleanup_effect _ _ _ _ Hcl) as (_&E2&E3&_&_&_&_&E8&E9).
  pose proof (cleanup_trace _ _ _ _ Hcl) as (T1&_).
  rewrite upd_obj_same in E3, E8, E9. simpl in E3, E8, E9.
  assert (rc = Ok tt) as ->.
  { destruct (remove_when_done (objs w self)) eqn:Hrw.
    - specialize (E9 eq_refl).
      destruct (list_remove_elem _ _ (Hreg eq_refl)) as [l' Hl']. rewrite Hl' in E9.
      tauto.
    - now apply E8. }
  exists w'. split; [exact Hg|]. split; [exact E3|]. split; [exact E2|exact T1].
Qed.

(** X8: as long as a bar is not entered, whatever counters are created and
    iterated, [invalidate] and [__exit__] raise [AttributeError] and
    change nothing; the first [next] on a counter whose data has an item
    raises [AttributeError] too, after [current] was incremented for an
    item the caller never receives, and the cleanup has run. *)
Theorem X8_unentered_bar (r : Runtime) (w0 w : World) :
  bar_init r = Ok w0 ->
  rtc work w0 w ->
  app (bar w) = None /\
  invalidate w = (Raise AttributeError, w) /\
  __exit__ w = (Raise AttributeError, w) /\
  (forall self d x,
     data (objs w self) = Some d ->
     it_next d 0 = IYield x ->
     (remove_when_done (objs w self) = true -> self ∈ counters (bar w)) ->
     exists w',
       gen_next (__iter__ self) w
       = (Raised AttributeError, closed_gen self, w') /\
       current (objs w' self) = current (objs w self) + 1 /\
       done (objs w' self) = true /\
       trace w' = trace w ++ [EvCleanup self]).
Proof.
  intros Hi Hw. unfold bar_init in Hi.
  destruct (host_has_sigwinch r); [|discriminate]. injection Hi as <-.
  assert (Ha : app (bar w) = None) by (eapply works_keep_no_app; eauto).
  split; [exact Ha|]. split; [|split].
  - unfold invalidate. now rewrite Ha.
  - unfold __exit__, bind, app_is_running. now rewrite Ha.
  - intros self d x. now apply first_next_unentered.
Qed.

Lemma X8_unentered_bar_witness :
  bar_init demo_rt = Ok (fresh_world demo_rt) /\
  rtc work (fresh_world demo_rt) demo_unentered /\
  __exit__ demo_unentered = (Raise AttributeError, demo_unentered) /\
  exists w',
    gen_next (__iter__ 0%nat) demo_unentered
    = (Raised AttributeError, closed_gen 0%nat, w') /\
    current (objs w' 0%nat) = current (objs demo_unentered 0%nat) + 1 /\
    done (objs w' 0%nat) = true.
Proof.
  assert (Hw : rtc work (fresh_world demo_rt) demo_unentered).
  { apply rtc_once.
    apply (work_call _ (Some (list_iterable [7; 8])) "" true None
             (Ok 0%nat) demo_unentered).
    apply pair_fst. vm_compute. reflexivity. }
  destruct (X8_unentered_bar demo_rt (fresh_world demo_rt) demo_unentered
              eq_refl Hw) as (_ & _ & He & Hn).
  split; [reflexivity|]. split; [exact Hw|]. split; [exact He|].
  destruct (Hn 0%nat (list_iterable [7; 8]) 7) as (w' & H1 & H2 & H3 & _).
  - vm_compute. reflexivity.
  - reflexivity.
  - intros _.
    assert (Hc : counters (bar demo_unentered) = [0%nat]) by (vm_compute; reflexivity).
    rewrite Hc. apply list_elem_of_singleton. reflexivity.
  - exists w'. split; [exact H1|]. split; [exact H2|exact H3].
Defined.

(** ** Leaving twice, entering twice *)

(** X9: [__exit__] can be called again after it returned: once the
    application has stopped, a second call does not raise, asks for no
    exit, and leaves the resize handler and the loop's hook as the first
    call left them. *)
Theorem X9_exit_again (w w1 w1' : World) (a : Application) :
  __exit__ w = (Ok tt, w1) ->
  rtc work w1 w1' ->
  app (bar w1') = Some a ->
  is_running a = false ->
  exists w2,
    __exit__ w1' = (Ok tt, w2) /\
    sigwinch (rt w2) = sigwinch (rt w1) /\
    loop_sigwinch (rt w2) = loop_sigwinch (rt w1) /\
    ~ In EvAppExit (skipn (length (trace w1')) (trace w2)) /\
    (_thread (bar w) <> None -> thread_alive (rt w2) = false).
Proof.
  intros He Hw Ha Hr.
  destruct (app (bar w)) as [a0|] eqn:Ha0.
  2:{ unfold __exit__, bind, app_is_running in He. rewrite Ha0 in He. discriminate. }
  destruct (exit_effect w a0 Ha0) as (w1x&Hex&_&_&Hb&_&Hs&Hl&_).
  rewrite Hex in He. injection He as ->.
  apply works_effects, effects_sig_frame in Hw as (S1&S2&S3&S4&S5&_).
  destruct (exit_effect w1' a Ha) as (w2&Hex2&_&_&_&Htr&Hs2&Hl2&Ht2).
  exists w2. split; [exact Hex2|].
  rewrite S1, S2, S3, S4, S5, Hb in *.
  split.
  { rewrite Hs2, Hs. now destruct (_has_sigwinch (bar w)). }
  split.
  { rewrite Hl2, Hl. now destruct (_has_sigwinch (bar w)). }
  split.
  { rewrite Htr, drop_app_length. unfold exit_events. rewrite Hr.
    destruct (_has_sigwinch (bar w)),
      (bool_decide (loop_sigwinch (rt w1) <> None)),
      (bool_decide (_thread (bar w) <> None)); simpl;
      intros Hin; repeat (destruct Hin as [Hin|Hin]; [discriminate|]);
      exact Hin. }
  intros Hth. rewrite Ht2. destruct (_thread (bar w)); [reflexivity|contradiction].
Qed.

Lemma X9_exit_again_witness :
  __exit__ demo_stopped = (Ok tt, demo_exited) /\
  rtc work demo_exited demo_exited /\
  exists w2,
    __exit__ demo_exited = (Ok tt, w2) /\
    sigwinch (rt w2) = sigwinch (rt demo_exited) /\
    loop_sigwinch (rt w2) = loop_sigwinch (rt demo_exited).
Proof.
  assert (He : __exit__ demo_stopped = (Ok tt, demo_exited)).
  { apply pair_fst. vm_compute. reflexivity. }
  assert (Ha : app (bar demo_exited) = Some {| is_running := false |})
    by (vm_compute; reflexivity).
  destruct (X9_exit_again demo_stopped demo_exited demo_exited
              {| is_running := false |} He (rtc_refl _ _) Ha eq_refl)
    as (w2 & H1 & H2 & H3 & _).
  split; [exact He|]. split; [apply rtc_refl|].
  exists w2. split; [exact H1|]. split; [exact H2|exact H3].
Defined.

(** X10: [__enter__] is not re-entrant.  Entered a second time in the main
    thread, the bar saves the event loop's own handler as the previous
    one, so [__exit__] then leaves the loop's handler installed for the
    resize signal and not the handler that was there before the bar. *)
Theorem X10_second_enter_loses_handler (w0 w1 w1' w2 w2' : World) :
  host_has_sigwinch (rt w0) = true ->
  in_main_thread (rt w0) = true ->
  __enter__ w0 = (Ok tt, w1) ->
  rtc work w1 w1' ->
  __enter__ w1' = (Ok tt, w2) ->
  rtc work w2 w2' ->
  exists w3,
    __exit__ w2' = (Ok tt, w3) /\
    sigwinch (rt w3) = LoopSigHandler /\
    (sigwinch (rt w0) <> LoopSigHandler -> sigwinch (rt w3) <> sigwinch (rt w0)).
Proof.
  intros Hh Hm He1 Hw1 He2 Hw2.
  pose proof (enter_host_frame _ _ _ He1) as [F1 F2].
  apply enter_effect in He1 as (_&_&_&_&_&_&_&Hsig1).
  rewrite Hh, Hm in Hsig1. simpl in Hsig1. destruct Hsig1 as (_&Hs1&_).
  pose proof Hw1 as Hw1'. apply works_effects in Hw1'.
  pose proof (effects_sig_frame _ _ Hw1') as (S1&_).
  assert (Hf : host_frame w1 w1').
  { clear -Hw1'. induction Hw1'; [split; reflexivity|].
    eauto using host_frame_trans, effect_host_frame. }
  destruct Hf as [F3 F4].
  apply enter_effect in He2 as (_&_&_&_&Ha2&Ht2&Hhas2&Hsig2).
  rewrite F3, F4, F1, F2, Hh, Hm in Hhas2, Hsig2. simpl in Hhas2, Hsig2.
  destruct Hsig2 as (Hp2&_&_). rewrite S1, Hs1 in Hp2.
  apply works_effects, effects_sig_frame in Hw2 as (_&_&T3&T4&_&T6).
  destruct (app (bar w2')) as [a|] eqn:Ha; [|exfalso; apply T6; congruence].
  destruct (exit_effect w2' a Ha) as (w3&Hex&_&_&_&_&Hs&_).
  exists w3. split; [exact Hex|].
  rewrite T3, T4, Hhas2, Hp2 in Hs.
  split; [exact Hs|]. intros Hne. rewrite Hs. congruence.
Qed.

Lemma X10_second_enter_loses_handler_witness :
  sigwinch (rt (fresh_world demo_rt)) = PyHandler 7 /\
  exists w3,
    __exit__ (snd (__enter__ demo_entered)) = (Ok tt, w3) /\
    sigwinch (rt w3) = LoopSigHandler.
Proof.
  split; [reflexivity|].
  assert (He1 : __enter__ (fresh_world demo_rt) = (Ok tt, demo_entered)).
  { apply pair_fst. vm_compute. reflexivity. }
  assert (He2 : __enter__ demo_entered = (Ok tt, snd (__enter__ demo_entered))).
  { apply pair_fst. vm_compute. reflexivity. }
  destruct (X10_second_enter_loses_handler (fresh_world demo_rt) demo_entered
              demo_entered (snd (__enter__ demo_entered))
              (snd (__enter__ demo_entered)) eq_refl eq_refl He1
              (rtc_refl _ _) He2 (rtc_refl _ _)) as (w3 & H1 & H2 & _).
  exists w3. split; [exact H1|exact H2].
Defined.

(** ** Lines of a frame by index *)

Lemma py_getitem_out {A} (l : list A) (i : Z) :
  i < - Z.of_nat (length l) \/ Z.of_nat (length l) <= i ->
  py_getitem l i = Raise IndexError.
Proof.
  intros H. unfold py_getitem.
  destruct (i <? 0) eqn:E1.
  - apply Z.ltb_lt in E1.
    destruct (0 <=? i + Z.of_nat (length l)) eqn:E2; [|reflexivity].
    apply Z.leb_le in E2. lia.
  - apply Z.ltb_ge in E1.
    destruct (0 <=? i) eqn:E2; [|reflexivity].
    destruct (i <? Z.of_nat (length l)) eqn:E3; [|reflexivity].
    apply Z.ltb_lt in E3. lia.
Qed.

Lemma py_getitem_negative {A} (l : list A) (i : Z) :
  - Z.of_nat (length l) <= i < 0 ->
  py_getitem l i = py_getitem l (i + Z.of_nat (length l)).
Proof.
  intros H. unfold py_getitem.
  destruct (i <? 0) eqn:E1; [|apply Z.ltb_ge in E1; lia].
  destruct (i + Z.of_nat (length l) <? 0) eqn:E2;
    [apply Z.ltb_lt in E2; lia|].
  reflexivity.
Qed.

(** X11: the lines of a frame are indexed as a Python list: with [n]
    registered counters, [get_line] raises [IndexError] for an index below
    [-n] or from [n] on (for every index when the registry is empty), and
    a negative index from [-n] on counts from the last line. *)
Theorem X11_get_line_bounds (A B : Type) (tft : A -> B) (of_str : string -> A)
    (f : Formatter A) (width height : Z) (w : World) :
  exists u w',
    create_content A B tft of_str f width height w = (u, w') /\
    (forall i, i < - Z.of_nat (length (counters (bar w))) \/
               Z.of_nat (length (counters (bar w))) <= i ->
       get_line u i = Raise IndexError) /\
    (forall i, - Z.of_nat (length (counters (bar w))) <= i < 0 ->
       get_line u i = get_line u (i + Z.of_nat (length (counters (bar w))))) /\
    (counters (bar w) = [] -> forall i, get_line u i = Raise IndexError).
Proof.
  destruct (content_fold tft of_str f width w (counters (bar w)) [] w
              eq_refl eq_refl eq_refl) as (w2 & Hfold & _).
  unfold create_content. rewrite Hfold. simpl.
  eexists _, w2. split; [reflexivity|]. simpl.
  assert (Hlen : length (map (line_of A B tft of_str f width w) (counters (bar w)))
                 = length (counters (bar w))) by apply length_map.
  split; [|split].
  - intros i Hi. apply py_getitem_out. now rewrite Hlen.
  - intros i Hi. rewrite <- Hlen. apply py_getitem_negative. now rewrite Hlen.
  - intros He i. apply py_getitem_out. rewrite Hlen, He. simpl. lia.
Qed.

Lemma X11_get_line_bounds_witness :
  exists u w',
    create_content DemoText (list (string * string)) demo_to_formatted_text
      DemoStr demo_formatter 80 2 demo_two_done = (u, w') /\
    get_line u 2 = Raise IndexError /\
    get_line u (-1) = get_line u 1.
Proof.
  destruct (X11_get_line_bounds DemoText (list (string * string))
              demo_to_formatted_text DemoStr demo_formatter 80 2 demo_two_done)
    as (u & w' & Hc & Hout & Hneg & _).
  assert (Hn : counters (bar demo_two_done) = [0%nat; 1%nat])
    by (vm_compute; reflexivity).
  rewrite Hn in Hout, Hneg. simpl in Hout, Hneg.
  exists u, w'. split; [exact Hc|]. split.
  - apply Hout. lia.
  - apply (Hneg (-1)). lia.
Defined.

(** ** The range of the getters *)

Lemma ratio_facts (cur m : Z) :
  0 < m ->
  ((0 <= inject_Z (cur * 100) / inject_Z m)%Q <-> 0 <= cur) /\
  ((inject_Z (cur * 100) / inject_Z m <= 100)%Q <-> cur <= m) /\
  ((inject_Z (cur * 100) / inject_Z m == 100)%Q <-> cur = m) /\
  ((0 < inject_Z (cur * 100) / inject_Z m)%Q <-> 0 < cur).
Proof.
  intros Hm. destruct m as [|m|m]; try lia.
  unfold Qle, Qlt, Qeq, Qdiv, Qmult, Qinv, inject_Z. simpl.
  rewrite ?Z.mul_1_r, ?Pos.mul_1_r.
  repeat split; intros; try lia; try nia.
Qed.

(** ** The auto-refresh task *)

Lemma refresh_no_task (r : Refresh.Refresher) (hs : list Refresh.Happening) :
  Refresh.task r = None ->
  Refresh.task (Refresh.happenings hs r) = None /\
  Refresh.app_invalidations (Refresh.happenings hs r)
  = Refresh.app_invalidations r.
Proof.
  revert r. induction hs as [|h hs IH]; intros r Hr; [auto|].
  unfold Refresh.happenings in *. simpl.
  destruct h; simpl.
  - unfold Refresh.task_step. rewrite Hr. now apply IH.
  - destruct (IH (Refresh.exit_context r) Hr) as [H1 H2]. auto.
Qed.

(** X14: with a refresh interval of [None] or 0 no task is made, and
    whatever the loop does and whenever the context is left,
    [app.invalidate()] is never called. *)
Theorem X14_no_interval_no_refresh (i : option Q) (hs : list Refresh.Happening) :
  Refresh.interval_truthy i = false ->
  Refresh.task (Refresh.happenings hs (Refresh.enter_context i)) = None /\
  Refresh.app_invalidations (Refresh.happenings hs (Refresh.enter_context i))
  = 0%nat.
Proof.
  intros Hi. apply (refresh_no_task (Refresh.enter_context i) hs).
  unfold Refresh.enter_context. simpl. now rewrite Hi.
Qed.

Lemma X14_no_interval_no_refresh_witness :
  Refresh.app_invalidations
    (Refresh.happenings [Refresh.RunTask; Refresh.RunTask; Refresh.LeaveContext;
                         Refresh.RunTask]
       (Refresh.enter_context (Some 0%Q))) = 0%nat.
Proof.
  exact (proj2 (X14_no_interval_no_refresh (Some 0%Q)
                  [Refresh.RunTask; Refresh.RunTask; Refresh.LeaveContext;
                   Refresh.RunTask] eq_refl)).
Defined.

Lemma refresh_active (i : option Q) (n : nat) :
  Refresh.interval_truthy i = true ->
  Nat.iter (S n) Refresh.task_step (Refresh.enter_context i)
  = {| Refresh.refresh_interval := i; Refresh.done_flag := false;
       Refresh.task := Some Refresh.TaskSleeping;
       Refresh.app_invalidations := n |}.
Proof.
  intros Hi. induction n as [|n IH].
  - simpl. unfold Refresh.task_step, Refresh.enter_context. simpl.
    rewrite !Hi. simpl. unfold Refresh.loop_test. simpl. now rewrite ?Hi.
  - change (Nat.iter (S (S n)) Refresh.task_step (Refresh.enter_context i))
      with (Refresh.task_step
              (Nat.iter (S n) Refresh.task_step (Refresh.enter_context i))).
    rewrite IH. reflexivity.
Qed.

Lemma refresh_finished_idle (r : Refresh.Refresher) (m : nat) :
  Refresh.task r = Some Refresh.TaskFinished ->
  Nat.iter m Refresh.task_step r = r.
Proof.
  intros Hr. induction m as [|m IH]; [reflexivity|].
  simpl. rewrite IH. unfold Refresh.task_step. now rewrite Hr.
Qed.

Lemma refresh_ticks (i : option Q) (n : nat) :
  Refresh.interval_truthy i = true ->
  Refresh.app_invalidations
    (Nat.iter n Refresh.task_step (Refresh.enter_context i)) = Nat.pred n /\
  Refresh.task (Nat.iter n Refresh.task_step (Refresh.enter_context i))
  = Some (match n with O => Refresh.TaskCreated | _ => Refresh.TaskSleeping end) /\
  Refresh.done_flag (Nat.iter n Refresh.task_step (Refresh.enter_context i))
  = false /\
  Refresh.refresh_interval
    (Nat.iter n Refresh.task_step (Refresh.enter_context i)) = i.
Proof.
  intros Hi. destruct n as [|n].
  - simpl. unfold Refresh.enter_context. simpl. rewrite Hi. auto.
  - rewrite (refresh_active i n Hi). simpl. auto.
Qed.

Lemma refresh_after_exit (r : Refresh.Refresher) (m : nat) :
  Refresh.interval_truthy (Refresh.refresh_interval r) = true ->
  Refresh.done_flag r = true ->
  Refresh.task r = Some Refresh.TaskCreated \/
  Refresh.task r = Some Refresh.TaskSleeping ->
  Refresh.task (Nat.iter (S m) Refresh.task_step r) = Some Refresh.TaskFinished /\
  Refresh.app_invalidations (Nat.iter (S m) Refresh.task_step r)
  = (Refresh.app_invalidations r
     + match Refresh.task r with
       | Some Refresh.TaskSleeping => 1
       | _ => 0
       end)%nat.
Proof.
  intros Hi Hd Ht. rewrite <- iter_turn_shift.
  assert (Hf : Refresh.task (Refresh.task_step r) = Some Refresh.TaskFinished).
  { unfold Refresh.task_step.
    destruct Ht as [-> | ->]; rewrite ?Hi; simpl; now rewrite Hd. }
  rewrite (refresh_finished_idle _ m Hf). split; [exact Hf|].
  unfold Refresh.task_step.
  destruct Ht as [-> | ->]; rewrite ?Hi; simpl; lia.
Qed.

(** X15: with a true interval, while the context is active every run of
    the task after the first calls [app.invalidate()] once and leaves the
    task sleeping.  Leaving the context does not end the task: it ends
    the next time the loop runs it, after one more [app.invalidate()] if
    it was sleeping and none if it had never run, and then nothing is
    called any more. *)
Theorem X15_refresh_schedule (i : option Q) (n m : nat) :
  Refresh.interval_truthy i = true ->
  let active := Nat.iter n Refresh.task_step (Refresh.enter_context i) in
  let after :=
    Nat.iter (S m) Refresh.task_step (Refresh.exit_context active) in
  Refresh.app_invalidations active = Nat.pred n /\
  Refresh.task active
  = Some (match n with O => Refresh.TaskCreated | _ => Refresh.TaskSleeping end) /\
  Refresh.task (Refresh.exit_context active) = Refresh.task active /\
  Refresh.task after = Some Refresh.TaskFinished /\
  Refresh.app_invalidations after
  = (Nat.pred n + match n with O => 0 | _ => 1 end)%nat.
Proof.
  intros Hi. cbv zeta.
  destruct (refresh_ticks i n Hi) as (Hc & Ht & Hd & Hri).
  split; [exact Hc|]. split; [exact Ht|]. split; [reflexivity|].
  destruct (refresh_after_exit
              (Refresh.exit_context
                 (Nat.iter n Refresh.task_step (Refresh.enter_context i))) m)
    as (Hf & Ha).
  - simpl. now rewrite Hri.
  - reflexivity.
  - simpl. rewrite Ht. destruct n; auto.
  - split; [exact Hf|]. rewrite Ha. simpl. rewrite Hc, Ht.
    destruct n; reflexivity.
Qed.

Lemma X15_refresh_schedule_witness :
  Refresh.app_invalidations
    (Nat.iter 5 Refresh.task_step
       (Refresh.exit_context
          (Nat.iter 3 Refresh.task_step (Refresh.enter_context (Some (3 # 10))))))
  = 3%nat.
Proof.
  exact (proj2 (proj2 (proj2 (proj2
           (X15_refresh_schedule (Some (3 # 10)) 3 4 eq_refl))))).
Defined.

(** ** Any source: items, failure, early exit *)

Lemma pull_items self d (xs : list Item) : forall pos w,
  (forall i x, nth_error xs i = Some x -> it_next d (pos + i) = IYield x) ->
  app (bar w) <> None ->
  pull (length xs) (suspended_at self d pos) w
  = Some (xs, suspended_at self d (pos + length xs),
          Nat.iter (length xs) (turn_world self) w).
Proof.
  induction xs as [|x xs IH]; intros pos w Hx Ha.
  - simpl. now rewrite Nat.add_0_r.
  - cbn [length pull].
    rewrite (gen_next_yield self d pos x).
    + rewrite (IH (S pos) (turn_world self w)).
      * rewrite iter_turn_shift.
        replace (S pos + length xs)%nat with (pos + S (length xs))%nat by lia.
        reflexivity.
      * intros i y Hi. replace (S pos + i)%nat with (pos + S i)%nat by lia.
        now apply Hx.
      * exact Ha.
    + specialize (Hx 0%nat x eq_refl). now rewrite Nat.add_0_r in Hx.
    + exact Ha.
Qed.

Lemma pull_from_created self d (xs : list Item) w :
  data (objs w self) = Some d ->
  (forall i x, nth_error xs i = Some x -> it_next d i = IYield x) ->
  app (bar w) <> None ->
  exists g,
    pull (length xs) (__iter__ self) w
    = Some (xs, g, Nat.iter (length xs) (turn_world self) w) /\
    forall w', gen_next g w' = gen_next (suspended_at self d (length xs)) w'
               \/ (xs = [] /\ g = __iter__ self).
Proof.
  intros Hd Hx Ha. destruct xs as [|x xs].
  - exists (__iter__ self). split; [reflexivity|]. intros w'. now right.
  - exists (suspended_at self d (length (x :: xs))). split; [|intros; now left].
    change (length (x :: xs)) with (S (length xs)).
    rewrite (pull_created self d _ _ Hd).
    exact (pull_items self d (x :: xs) 0 w Hx Ha).
Qed.

Lemma pull_from_created_pos self d (xs : list Item) w :
  data (objs w self) = Some d ->
  (forall i x, nth_error xs i = Some x -> it_next d i = IYield x) ->
  app (bar w) <> None ->
  xs <> [] ->
  pull (length xs) (__iter__ self) w
  = Some (xs, suspended_at self d (length xs),
          Nat.iter (length xs) (turn_world self) w).
Proof.
  intros Hd Hx Ha Hne. destruct xs as [|x xs]; [contradiction|].
  change (length (x :: xs)) with (S (length xs)).
  rewrite (pull_created self d _ _ Hd).
  exact (pull_items self d (x :: xs) 0 w Hx Ha).
Qed.

Lemma firstn_source (l : list Item) (k : nat) :
  forall i x, nth_error (firstn k l) i = Some x ->
    it_next (list_iterable l) i = IYield x.
Proof.
  intros i x Hi. simpl.
  assert (Hlt : (i < length (firstn k l))%nat)
    by (apply nth_error_Some; congruence).
  rewrite length_firstn in Hlt.
  rewrite nth_error_firstn, (proj2 (Nat.ltb_lt i k)) in Hi by lia.
  now rewrite Hi.
Qed.

(** X18: on an entered bar, when the data source yields the items [xs]
    and then raises [e], the caller of the wrapper receives exactly [xs],
    in order, and then [e] itself; the cleanup has run: [done] is set,
    [current] counts the items received, and a counter with
    [remove_when_done] has left the registry. *)
Theorem X18_source_failure_propagates (self : nat) (d : Iterable)
    (xs : list Item) (e : exn) (w : World) :
  data (objs w self) = Some d ->
  (forall i x, nth_error xs i = Some x -> it_next d i = IYield x) ->
  it_next d (length xs) = IRaise e ->
  app (bar w) <> None ->
  NoDup (counters (bar w)) ->
  (remove_when_done (objs w self) = true -> self ∈ counters (bar w)) ->
  exists g w1 w2,
    pull (length xs) (__iter__ self) w = Some (xs, g, w1) /\
    gen_next g w1 = (Raised e, closed_gen self, w2) /\
    done (objs w2 self) = true /\
    current (objs w2 self) = current (objs w self) + Z.of_nat (length xs) /\
    (remove_when_done (objs w self) = true -> self ∉ counters (bar w2)).
Proof.
  intros Hd Hx He Ha Hnd Hreg.
  set (w1 := Nat.iter (length xs) (turn_world self) w).
  destruct (iter_turn_facts self (length xs) w) as (_&Hb&_&Hc&_&_&Hda&Hr).
  fold w1 in Hb, Hc, Hda, Hr.
  destruct (pull_from_created self d xs w Hd Hx Ha) as (g & Hp & Hg).
  fold w1 in Hp.
  assert (Hlast : gen_next g w1 = leave_try self (Some e) w1).
  { assert (Hs : gen_next (suspended_at self d (length xs)) w1
                 = leave_try self (Some e) w1).
    { unfold gen_next, suspended_at, loop_turn. simpl. now rewrite He. }
    destruct (Hg w1) as [->|[-> ->]]; [exact Hs|].
    rewrite (created_as_suspended self d); [exact Hs|]. now rewrite Hda. }
  destruct (leave_try self (Some e) w1) as [[r g2] w2] eqn:Hl.
  apply leave_try_inv in Hl as (-> & rc & Hcl & ->).
  pose proof (cleanup_effect _ _ _ _ Hcl) as (_&E2&E3&_&_&_&_&E8&E9).
  rewrite Hr, Hb in *.
  assert (Hrc : rc = Ok tt /\
                (remove_when_done (objs w self) = true ->
                 self ∉ counters (bar w2))).
  { destruct (remove_when_done (objs w self)) eqn:Hrw.
    - specialize (E9 eq_refl).
      destruct (list_remove_elem _ _ (Hreg eq_refl)) as [l' Hl'].
      rewrite Hl' in E9. destruct E9 as [-> ->]. split; [reflexivity|].
      intros _. now apply list_remove_NoDup in Hl' as [_ ?].
    - split; [now apply E8|discriminate]. }
  destruct Hrc as [-> Hout].
  exists g, w1, w2. split; [exact Hp|]. split; [exact Hlast|].
  split; [exact E2|]. split; [congruence|exact Hout].
Qed.

Lemma X18_source_failure_propagates_witness :
  exists g w1 w2,
    pull 2 (__iter__ 0%nat) demo_failing = Some ([1; 2], g, w1) /\
    gen_next g w1 = (Raised (OtherError 9), closed_gen 0%nat, w2) /\
    done (objs w2 0%nat) = true /\
    current (objs w2 0%nat) = current (objs demo_failing 0%nat) + 2.
Proof.
  assert (Hc : counters (bar demo_failing) = [0%nat]) by (vm_compute; reflexivity).
  destruct (X18_source_failure_propagates 0%nat failing_source [1; 2]
              (OtherError 9) demo_failing)
    as (g & w1 & w2 & H1 & H2 & H3 & H4 & _).
  - vm_compute. reflexivity.
  - intros [|[|[|i]]] x Hi; simpl in Hi; try discriminate;
      injection Hi as <-; reflexivity.
  - reflexivity.
  - vm_compute. discriminate.
  - rewrite Hc. apply NoDup_singleton.
  - intros _. rewrite Hc. apply list_elem_of_singleton. reflexivity.
  - exists g, w1, w2. split; [exact H1|]. split; [exact H2|].
    split; [exact H3|exact H4].
Defined.

(** X19: [done] does not mean complete.  When the caller leaves the loop
    over [pb(l)] after [k] items, with [k] at least 1 and less than the
    length of [l], it has received the first [k] items, the counter is
    done, [current] is [k] and the percentage stays below 100. *)
Theorem X19_done_is_not_complete (l : list Item) (lab : string) (rwd : bool)
    (w w0 : World) (self k : nat) :
  app (bar w) <> None ->
  registry_ok w ->
  __call__ (Some (list_iterable l)) lab rwd None w = (Ok self, w0) ->
  (1 <= k < length l)%nat ->
  exists g w1 w2 p,
    pull k (__iter__ self) w0 = Some (firstn k l, g, w1) /\
    gen_close g w1 = (Returned, closed_gen self, w2) /\
    done (objs w2 self) = true /\
    current (objs w2 self) = Z.of_nat k /\
    percentage (objs w2 self) = Ok p /\ (p < 100)%Q.
Proof.
  intros Ha Hok Hcall Hk.
  destruct (call_registers _ _ _ _ _ _ _ Hok Hcall) as (Hok0 & Hin & _).
  apply call_effect in Hcall as (_&_&_&Hinit&_&_&_&Happ).
  pose proof (counter_init_total _ _ _ _ _ _ Hinit) as Ht. simpl in Ht.
  apply counter_init_fresh in Hinit as (Hcur&_&Hdata&_).
  assert (Ha0 : app (bar w0) <> None) by (now rewrite Happ).
  assert (Hlen : length (firstn k l) = k) by (rewrite length_firstn; lia).
  assert (Hne : firstn k l <> []).
  { intros He. rewrite He in Hlen. simpl in Hlen. lia. }
  pose proof (pull_from_created_pos self (list_iterable l) (firstn k l) w0
                Hdata) as Hp.
  rewrite Hlen in Hp.
  set (w1 := Nat.iter k (turn_world self) w0) in *.
  specialize (Hp (firstn_source l k) Ha0 Hne).
  destruct (iter_turn_facts self k w0) as (_&Hb&_&Hc&_&Hto&_&Hr).
  fold w1 in Hb, Hc, Hto, Hr.
  destruct (leave_try self (Some GeneratorExit) w1) as [[r g2] w2] eqn:Hl.
  assert (Hclose : gen_close (suspended_at self (list_iterable l) k) w1
                   = (match r with Raised GeneratorExit => Returned | _ => r end,
                      g2, w2)).
  { unfold gen_close, gen_throw. simpl. rewrite Hl.
    destruct r as [x| |e]; [| |destruct e]; reflexivity. }
  apply leave_try_inv in Hl as (-> & rc & Hcl & ->).
  pose proof (cleanup_effect _ _ _ _ Hcl) as (_&E2&E3&E4&_&_&_&E8&E9).
  rewrite Hr, Hb in *.
  assert (rc = Ok tt) as ->.
  { destruct (remove_when_done (objs w0 self)) eqn:Hrw.
    - specialize (E9 eq_refl).
      destruct (list_remove_elem _ _ Hin) as [l' Hl']. rewrite Hl' in E9. tauto.
    - now apply E8. }
  exists (suspended_at self (list_iterable l) k), w1, w2,
    (spec_percentage (objs w2 self)).
  split; [exact Hp|]. split; [exact Hclose|]. split; [exact E2|].
  split; [rewrite E3, Hc, Hcur; lia|]. split; [apply percentage_spec|].
  unfold spec_percentage. rewrite E4, Hto, Ht, E3, Hc, Hcur.
  destruct (ratio_facts (0 + Z.of_nat k) (Z.max (Z.of_nat (length l)) 1))
    as (_ & Hle & Heq & _); [lia|].
  destruct (Qlt_le_dec (inject_Z ((0 + Z.of_nat k) * 100)
                        / inject_Z (Z.max (Z.of_nat (length l)) 1)) 100)
    as [Hlt|Hge]; [exact Hlt|].
  exfalso.
  assert (Hq : (inject_Z ((0 + Z.of_nat k) * 100)
                / inject_Z (Z.max (Z.of_nat (length l)) 1) == 100)%Q).
  { apply Qle_antisym; [apply Hle; lia|exact Hge]. }
  apply Heq in Hq. lia.
Qed.

Lemma X19_done_is_not_complete_witness :
  exists g w1 w2 p,
    pull 1 (__iter__ 0%nat) demo_pair = Some ([7], g, w1) /\
    gen_close g w1 = (Returned, closed_gen 0%nat, w2) /\
    done (objs w2 0%nat) = true /\
    current (objs w2 0%nat) = 1 /\
    percentage (objs w2 0%nat) = Ok p /\ (p < 100)%Q.
Proof.
  apply (X19_done_is_not_complete [7; 8] "" false demo_entered demo_pair
           0%nat 1%nat).
  - vm_compute. discriminate.
  - split; [apply NoDup_nil_2|apply Forall_nil_2].
  - apply pair_fst. vm_compute. reflexivity.
  - simpl. lia.
Defined.
